(** * catboost/libs/data_new/objects.cpp: grouping, row metadata, quantized
      column store, checksum, binary persistence and the CPU gate.

    Unsigned machine integers ([ui8], [ui32], [ui64], [size_t]) are values of
    [N]; a narrowing cast is written out as a remainder.  Vectors and array
    references are lists, indexed from 0.  A C++ function that may throw
    returns a [TResult]. *)

From Stdlib Require Import String Ascii.
From Stdlib Require Import List Arith NArith Lia Bool.
From Stdlib Require Import Permutation Sorting.Sorted DecimalString.
Import ListNotations.
Open Scope string_scope.
Open Scope list_scope.
Open Scope N_scope.

(* ================================================================== *)
(** ** Outcomes of a call *)
(* ================================================================== *)

(** A call returns, throws a [TCatboostException] carrying its [what()]
    text, or reads outside an array (no defined behaviour in C++). *)
Inductive TResult (A : Type) : Type :=
| Ok (a : A)
| Throw (what : string)
| Undefined.

Arguments Ok {A} a.
Arguments Throw {A} what.
Arguments Undefined {A}.

(** Sequencing of calls: the first one that does not return ends the whole. *)
Definition bind {A B : Type} (r : TResult A) (k : A -> TResult B) : TResult B :=
  match r with
  | Ok a => k a
  | Throw w => Throw w
  | Undefined => Undefined
  end.

Notation "x <- c ;; k" := (bind c (fun x => k))
  (at level 61, c at next level, right associativity).
Notation "c ;;; k" := (bind c (fun _ => k))
  (at level 61, right associativity).

(** Decimal text of an unsigned integer, as [operator<<] prints it. *)
Definition ToString (n : N) : string := NilEmpty.string_of_uint (N.to_uint n).

(** Modelled from the spec: the constant [INTERNAL_ERROR_MSG] of
    catboost/libs/helpers/exception.h is not under src/; internal-consistency
    errors are "distinguished in message wording" by this prefix. *)
Definition INTERNAL_ERROR_MSG : string :=
  "Internal CatBoost Error (contact developers for assistance): ".

(** Modelled from the spec: the macros [CB_ENSURE] and [CB_ENSURE_INTERNAL]
    (catboost/libs/helpers/exception.h, not under src/): throw the message
    when the condition is false; the internal variant prefixes
    [INTERNAL_ERROR_MSG]. *)
Definition CB_ENSURE (cond : bool) (msg : string) : TResult unit :=
  if cond then Ok tt else Throw msg.

Definition CB_ENSURE_INTERNAL (cond : bool) (msg : string) : TResult unit :=
  CB_ENSURE cond (INTERNAL_ERROR_MSG ++ msg).

(** An exception is an internal-consistency error when its text starts with
    the internal prefix, and an input-validation error otherwise. *)
Definition IsInternalError (what : string) : bool :=
  String.prefix INTERNAL_ERROR_MSG what.

(** Modelled from the spec: [CheckDataSize] of catboost/libs/data_new/util.h
    (not under src/): "fails if the length differs from the expected one";
    with [dataCanBeEmpty] an empty array is accepted as well; [internalCheck]
    makes the failure an internal-consistency error. *)
Definition CheckDataSize (dataSize expectedSize : N) (dataName : string)
    (dataCanBeEmpty : bool) (expectedSizeName : string) (internalCheck : bool)
  : TResult unit :=
  CB_ENSURE
    ((dataSize =? expectedSize) || (dataCanBeEmpty && (dataSize =? 0)))
    ((if internalCheck then INTERNAL_ERROR_MSG else "")
       ++ dataName ++ " data size (" ++ ToString dataSize ++ ") is not equal to "
       ++ (match expectedSizeName with EmptyString => "expected" | _ => expectedSizeName end)
       ++ " (" ++ ToString expectedSize ++ ")").

(** Narrowing cast to [ui32]. *)
Definition ui32 (x : N) : N := x mod 2 ^ 32.

(** [size()] of a vector or array reference. *)
Definition size {A : Type} (l : list A) : N := N.of_nat (List.length l).

(** [xrange(a, b)]: the indices [a, a+1, ..., b-1]. *)
Definition xrange (a b : N) : list N :=
  map N.of_nat (seq (N.to_nat a) (N.to_nat b - N.to_nat a)).

(* ================================================================== *)
(** ** Row groups *)
(* ================================================================== *)

Definition TGroupId := N.

(** [TGroupBounds]: a half-open range of row positions. *)
Record TGroupBounds : Type := mkBounds { Begin : N; End : N }.

(** Modelled from the spec: [TObjectsGrouping] (objects_grouping.h, not under
    src/) is "either trivial (each row is its own group) or explicit, an
    ordered sequence of half-open bounds over row positions". *)
Inductive TObjectsGrouping : Type :=
| TrivialGrouping (groupCount : N)
| ExplicitGrouping (groupBounds : list TGroupBounds).

(** Modelled from the spec: [GetGroupCount] and [GetObjectCount] of
    [TObjectsGrouping]: the "group count", and the number of rows the bounds
    cover (the end of the last group). *)
Definition GetGroupCount (g : TObjectsGrouping) : N :=
  match g with
  | TrivialGrouping n => n
  | ExplicitGrouping b => size b
  end.

Definition GetObjectCount (g : TObjectsGrouping) : N :=
  match g with
  | TrivialGrouping n => n
  | ExplicitGrouping b => End (last b (mkBounds 0 0))
  end.

(** Modelled from the spec: [TObjectsGrouping::GetGroup] (objects_grouping.h,
    not under src/), the "group bounds lookup"; an index past the last group
    is refused. *)
Definition GetGroup (g : TObjectsGrouping) (groupIdx : N) : TResult TGroupBounds :=
  CB_ENSURE (groupIdx <? GetGroupCount g)
    ("group index (" ++ ToString groupIdx ++ ") is greater than groups count ("
       ++ ToString (GetGroupCount g) ++ ")") ;;;
  match g with
  | TrivialGrouping _ => Ok (mkBounds groupIdx (groupIdx + 1))
  | ExplicitGrouping b =>
      match nth_error b (N.to_nat groupIdx) with
      | Some gb => Ok gb
      | None => Undefined
      end
  end.

(** [Sort] on unsigned integers: the ascending rearrangement. *)
Fixpoint insert_sorted (x : N) (l : list N) : list N :=
  match l with
  | [] => [x]
  | y :: t => if x <=? y then x :: y :: t else y :: insert_sorted x t
  end.

Definition Sort (l : list N) : list N := fold_right insert_sorted [] l.

(** [std::adjacent_find]: position of the first element equal to its
    successor; [None] stands for the end iterator. *)
Fixpoint adjacent_find (l : list N) : option nat :=
  match l with
  | x :: ((y :: _) as t) =>
      if x =? y then Some 0%nat else option_map S (adjacent_find t)
  | _ => None
  end.

(** [it == end()]. *)
Definition is_end (it : option nat) : bool :=
  match it with None => true | Some _ => false end.

(** State of the scanning loop of [CreateObjectsGroupingFromGroupIds]. *)
Record TScan : Type := mkScan {
  lastGroupBegin : N;
  lastGroupId : TGroupId;
  groupGroupIds : list TGroupId;
  groupBounds : list TGroupBounds
}.

(** Body of the loop at lines 94-101; [objectIdx] is below the size of
    [groupIdsData] by the loop bound. *)
Definition scan_step (groupIdsData : list TGroupId) (st : TScan) (objectIdx : N) : TScan :=
  let cur := nth (N.to_nat objectIdx) groupIdsData 0 in
  if negb (cur =? lastGroupId st) then
    mkScan objectIdx cur
           (groupGroupIds st ++ [cur])
           (groupBounds st ++ [mkBounds (lastGroupBegin st) objectIdx])
  else st.

(** [NCB::CreateObjectsGroupingFromGroupIds], lines 74-111.  The size check
    makes [ui32(groupIdsData.size())] the row count; element 0 is read
    without a test for emptiness. *)
Definition CreateObjectsGroupingFromGroupIds
    (objectCount : N) (groupIds : option (list TGroupId)) : TResult TObjectsGrouping :=
  match groupIds with
  | None => Ok (TrivialGrouping objectCount)
  | Some groupIdsData =>
      CheckDataSize (size groupIdsData) objectCount "group Ids" false "" false ;;;
      match nth_error groupIdsData 0 with
      | None => Undefined
      | Some first =>
          let st := fold_left (scan_step groupIdsData)
                              (xrange (ui32 1) (ui32 (size groupIdsData)))
                              (mkScan 0 first [first] []) in
          let bounds := groupBounds st
                          ++ [mkBounds (lastGroupBegin st) (ui32 (size groupIdsData))] in
          CB_ENSURE (is_end (adjacent_find (Sort (groupGroupIds st))))
                    "group Ids are not consecutive" ;;;
          Ok (ExplicitGrouping bounds)
      end
  end.

(* ------------------------------------------------------------------ *)
(** *** Runs of a group-identifier sequence (the spec's vocabulary) *)

(** The maximal runs of equal consecutive values, first to last. *)
Fixpoint Runs (l : list TGroupId) : list (list TGroupId) :=
  match l with
  | [] => []
  | x :: t =>
      match Runs t with
      | (y :: r) :: rs => if x =? y then (x :: y :: r) :: rs else [x] :: (y :: r) :: rs
      | _ => [[x]]
      end
  end.

(** The identifier each run repeats. *)
Definition RunIds (l : list TGroupId) : list TGroupId := map (hd 0) (Runs l).

(** Half-open bounds of consecutive runs laid out from row [start]. *)
Fixpoint bounds_from (start : N) (rs : list (list TGroupId)) : list TGroupBounds :=
  match rs with
  | [] => []
  | r :: rs' => mkBounds start (start + size r) :: bounds_from (start + size r) rs'
  end.

(** The bounds of the runs of [l], the first starting at row 0. *)
Definition RunBounds (l : list TGroupId) : list TGroupBounds := bounds_from 0 (Runs l).

(** Some identifier value is repeated by two runs that are not adjacent. *)
Definition IdInSeparatedRuns (l : list TGroupId) : Prop :=
  exists (i j : nat) (a : TGroupId),
    (i + 1 < j)%nat /\ nth_error (RunIds l) i = Some a /\ nth_error (RunIds l) j = Some a.

(** Bounds that follow one another from [start] to [stop], none empty. *)
Fixpoint Contiguous (start : N) (bs : list TGroupBounds) (stop : N) : Prop :=
  match bs with
  | [] => start = stop
  | b :: t => Begin b = start /\ Begin b < End b /\ Contiguous (End b) t stop
  end.

(** The loop of lines 94-101 as a recursion on the rows still to read:
    identifiers of the runs opened, and the bounds of every run closed,
    the last one closed at the end of the data. *)
Fixpoint scan_rest (g : TGroupId) (b idx : N) (rest : list TGroupId)
  : list TGroupId * list TGroupBounds :=
  match rest with
  | [] => ([], [mkBounds b idx])
  | x :: t =>
      if x =? g then scan_rest g b (idx + 1) t
      else let '(ids, bs) := scan_rest x idx (idx + 1) t in
           (x :: ids, mkBounds b idx :: bs)
  end.

(** Runs are maximal: neighbouring runs repeat different values. *)
Fixpoint AdjacentDistinct (l : list TGroupId) : Prop :=
  match l with
  | x :: ((y :: _) as t) => x <> y /\ AdjacentDistinct t
  | _ => True
  end.


(* ------------------------------------------------------------------ *)
(** *** [CheckGroupIds] *)

(** State of the scanning loop of [CheckGroupIds]. *)
Record TCheckScan : Type := mkCheckScan {
  currentGroupBounds : TGroupBounds;
  checkLastGroupId : TGroupId;
  checkGroupGroupIds : list TGroupId
}.

(** Lines 54-61: where the identifier changes and a grouping was supplied,
    the row must be the end of the current group; the next group is then
    fetched. *)
Definition check_boundary (objectsGrouping : option TObjectsGrouping)
    (current : TGroupBounds) (groupsSeen : N) (objectIdx : N) : TResult TGroupBounds :=
  match objectsGrouping with
  | Some g =>
      CB_ENSURE_INTERNAL (objectIdx =? End current)
        ("objectsGrouping and grouping by groupId have different ends for group #"
           ++ ToString (groupsSeen - 1)) ;;;
      GetGroup g (ui32 groupsSeen)
  | None => Ok current
  end.

(** Body of the loop at lines 52-66. *)
Definition check_step (objectsGrouping : option TObjectsGrouping)
    (groupIdsData : list TGroupId) (st : TCheckScan) (objectIdx : N) : TResult TCheckScan :=
  let cur := nth (N.to_nat objectIdx) groupIdsData 0 in
  if negb (cur =? checkLastGroupId st) then
    current <- check_boundary objectsGrouping (currentGroupBounds st)
                 (size (checkGroupGroupIds st)) objectIdx ;;
    Ok (mkCheckScan current cur (checkGroupGroupIds st ++ [cur]))
  else Ok st.

(** [NCB::CheckGroupIds], lines 18-71. *)
Definition CheckGroupIds (objectCount : N) (groupIds : option (list TGroupId))
    (objectsGrouping : option TObjectsGrouping) : TResult unit :=
  match groupIds with
  | None => Ok tt
  | Some groupIdsData =>
      CheckDataSize (size groupIdsData) objectCount "group Ids" false "" false ;;;
      current <- match objectsGrouping with
                 | Some g =>
                     CheckDataSize (size groupIdsData) (GetObjectCount g) "group Ids" false
                                   "objectGrouping's object count" true ;;;
                     GetGroup g 0
                 | None => Ok (mkBounds 0 0)
                 end ;;
      match nth_error groupIdsData 0 with
      | None => Undefined
      | Some first =>
          st <- fold_left (fun acc objectIdx =>
                             s <- acc ;; check_step objectsGrouping groupIdsData s objectIdx)
                          (xrange (ui32 1) (ui32 (size groupIdsData)))
                          (Ok (mkCheckScan current first [first])) ;;
          CB_ENSURE (is_end (adjacent_find (Sort (checkGroupGroupIds st))))
                    "group Ids are not consecutive"
      end
  end.

(** The rows at which the identifier differs from the previous row's. *)
Definition ChangePositions (l : list TGroupId) : list N :=
  filter (fun p => negb (nth (N.to_nat p) l 0 =? nth (N.to_nat p - 1) l 0))
         (xrange 1 (size l)).

(** Some change of identifier, the i-th, does not fall on the end of the
    i-th group of the grouping. *)
Definition BoundaryMismatch (l : list TGroupId) (g : TObjectsGrouping) : Prop :=
  exists (i : nat) (p : N),
    nth_error (ChangePositions l) i = Some p /\
    forall b, GetGroup g (N.of_nat i) = Ok b -> End b <> p.

(** Change positions among the rows still to read, the previous row holding [gl]. *)
Fixpoint changes (gl : TGroupId) (idx : N) (rest : list TGroupId) : list N :=
  match rest with
  | [] => []
  | x :: t => if x =? gl then changes gl (idx + 1) t else idx :: changes x (idx + 1) t
  end.

(** Every change of [ps], counted from group [j], falls on its group's end. *)
Fixpoint ends_agree (g : TObjectsGrouping) (j : nat) (ps : list N) : bool :=
  match ps with
  | [] => true
  | p :: ps' =>
      match GetGroup g (N.of_nat j) with
      | Ok b => (End b =? p) && ends_agree g (S j) ps'
      | _ => false
      end
  end.

(** The loop of [CheckGroupIds] as a recursion on the rows still to read. *)
Fixpoint check_rest (og : option TObjectsGrouping) (current : TGroupBounds)
    (gl : TGroupId) (groupsSeen idx : N) (rest : list TGroupId) : TResult (list TGroupId) :=
  match rest with
  | [] => Ok []
  | x :: t =>
      if x =? gl then check_rest og current gl groupsSeen (idx + 1) t
      else
        current' <- check_boundary og current groupsSeen idx ;;
        ids <- check_rest og current' x (groupsSeen + 1) (idx + 1) t ;;
        Ok (x :: ids)
  end.

(** The result of a call seen through a function. *)
Definition fmap {A B : Type} (f : A -> B) (r : TResult A) : TResult B :=
  x <- r ;; Ok (f x).

(* ================================================================== *)
(** ** Common row metadata and the objects data provider *)
(* ================================================================== *)

Inductive EFeatureType : Type := Float | Categorical.

(** Modelled from the spec: [TFeaturesLayout] (features_layout.h, not under
    src/) "exposes, per feature type, the declared count, per-index
    availability flag, and the mapping between a type-local index and a
    global flat feature index". *)
Record TFeatureMetaInfo : Type := mkFeatureMetaInfo {
  IsAvailable : bool;
  ExternalFeatureIdx : N
}.

Record TFeaturesLayout : Type := mkFeaturesLayout {
  FloatFeatureMetaInfo : list TFeatureMetaInfo;
  CatFeatureMetaInfo : list TFeatureMetaInfo
}.

Definition GetInternalFeatureMetaInfos (layout : TFeaturesLayout) (type : EFeatureType)
  : list TFeatureMetaInfo :=
  match type with
  | Float => FloatFeatureMetaInfo layout
  | Categorical => CatFeatureMetaInfo layout
  end.

Definition GetFeatureCount (layout : TFeaturesLayout) (type : EFeatureType) : N :=
  size (GetInternalFeatureMetaInfos layout type).

(** Modelled from the spec: [TArraySubsetIndexing<ui32>] (array_subset.h, not
    under src/) is "either a full range [0,n) or an explicit ordered sequence
    of indices". *)
Inductive TArraySubsetIndexing : Type :=
| TFullSubset (n : N)
| TIndexedSubset (indices : list N).

(** [TArraySubsetIndexing::Size]: the number of rows selected. *)
Definition Size (s : TArraySubsetIndexing) : N :=
  match s with
  | TFullSubset n => n
  | TIndexedSubset ix => size ix
  end.

(** [EObjectsOrder]; [OrderUndefined] is the source's [Undefined]. *)
Inductive EObjectsOrder : Type := Ordered | RandomShuffled | OrderUndefined.

(** [TCommonObjectsData]: the fields that the checks and the constructor read. *)
Record TCommonObjectsData : Type := mkCommonObjectsData {
  FeaturesLayout : option TFeaturesLayout;
  SubsetIndexing : TArraySubsetIndexing;
  Order : EObjectsOrder;
  GroupIds : option (list TGroupId);
  SubgroupIds : option (list N);
  Timestamp : option (list N)
}.

(** [CommonData.Order = o]. *)
Definition set_Order (d : TCommonObjectsData) (o : EObjectsOrder) : TCommonObjectsData :=
  mkCommonObjectsData (FeaturesLayout d) (SubsetIndexing d) o
                      (GroupIds d) (SubgroupIds d) (Timestamp d).

(** A [TMaybe] or a pointer tested as a condition. *)
Definition is_some {A : Type} (o : option A) : bool :=
  match o with Some _ => true | None => false end.

(** [TCommonObjectsData::CheckAllExceptGroupIds], lines 127-138. *)
Definition CheckAllExceptGroupIds (d : TCommonObjectsData) : TResult unit :=
  match SubgroupIds d with
  | Some subgroupIds =>
      CB_ENSURE (is_some (GroupIds d))
                "non-empty SubgroupIds when GroupIds is not defined" ;;;
      match GroupIds d with
      | Some groupIds =>
          CheckDataSize (size subgroupIds) (size groupIds) "Subgroup Ids" false
                        "Group Ids size" false
      | None => Undefined
      end
  | None => Ok tt
  end ;;;
  match Timestamp d with
  | Some timestamp =>
      CheckDataSize (size timestamp) (Size (SubsetIndexing d)) "Timestamp" false "" false
  | None => Ok tt
  end.

(** [TCommonObjectsData::Check], lines 140-153. *)
Definition CommonData_Check (d : TCommonObjectsData)
    (objectsGrouping : option TObjectsGrouping) : TResult unit :=
  CB_ENSURE_INTERNAL (is_some (FeaturesLayout d)) "FeaturesLayout is undefined" ;;;
  match objectsGrouping with
  | Some g =>
      CheckDataSize (GetObjectCount g) (Size (SubsetIndexing d))
                    "objectsGrouping's object count" false "SubsetIndexing's Size" false
  | None => Ok tt
  end ;;;
  CheckGroupIds (Size (SubsetIndexing d)) (GroupIds d) objectsGrouping ;;;
  CheckAllExceptGroupIds d.

(** [TObjectsDataProvider]: the grouping and the common data it keeps. *)
Record TObjectsDataProvider : Type := mkObjectsDataProvider {
  ObjectsGrouping : TObjectsGrouping;
  CommonData : TCommonObjectsData
}.

(** [std::is_sorted]: no element is smaller than its predecessor. *)
Fixpoint is_sorted (l : list N) : bool :=
  match l with
  | x :: ((y :: _) as t) => negb (y <? x) && is_sorted t
  | _ => true
  end.

(** [front()] and [back()] of a vector; nothing is defined on an empty one. *)
Definition front (l : list N) : TResult N :=
  match l with x :: _ => Ok x | [] => Undefined end.

Definition back (l : list N) : TResult N :=
  match l with _ :: _ => Ok (last l 0) | [] => Undefined end.

(** Lines 224-239 of the constructor: the checks, unless skipped, and the
    grouping that is kept. *)
Definition provider_grouping (objectsGrouping : option TObjectsGrouping)
    (commonData : TCommonObjectsData) (skipCheck : bool) : TResult TObjectsGrouping :=
  match objectsGrouping with
  | Some g =>
      (if negb skipCheck then CommonData_Check commonData objectsGrouping else Ok tt) ;;;
      Ok g
  | None =>
      (if negb skipCheck then CheckAllExceptGroupIds commonData else Ok tt) ;;;
      CreateObjectsGroupingFromGroupIds (Size (SubsetIndexing commonData))
                                        (GroupIds commonData)
  end.

(** Lines 242-250: promotion of an undefined order. The conjunction is
    evaluated left to right and stops at the first false operand. *)
Definition promote_order (grouping : TObjectsGrouping) (commonData : TCommonObjectsData)
  : TResult TCommonObjectsData :=
  match Order commonData, Timestamp commonData with
  | OrderUndefined, Some timestamps =>
      if 1 <? GetObjectCount grouping then
        if is_sorted timestamps then
          f <- front timestamps ;;
          b <- back timestamps ;;
          if negb (f =? b) then Ok (set_Order commonData Ordered) else Ok commonData
        else Ok commonData
      else Ok commonData
  | _, _ => Ok commonData
  end.

(** [TObjectsDataProvider::TObjectsDataProvider], lines 218-251. *)
Definition TObjectsDataProvider_new (objectsGrouping : option TObjectsGrouping)
    (commonData : TCommonObjectsData) (skipCheck : bool) : TResult TObjectsDataProvider :=
  grouping <- provider_grouping objectsGrouping commonData skipCheck ;;
  commonData' <- promote_order grouping commonData ;;
  Ok (mkObjectsDataProvider grouping commonData').

(** Timestamps that grow strictly from each row to the next. *)
Definition StrictlyIncreasing (ts : list N) : Prop :=
  forall (i j : nat) (a b : N),
    (i < j)%nat -> nth_error ts i = Some a -> nth_error ts j = Some b -> a < b.

(** Timestamps that are all the same value. *)
Definition AllEqual (ts : list N) : Prop :=
  forall a b, In a ts -> In b ts -> a = b.

(** Decidable form of [StrictlyIncreasing]. *)
Fixpoint strictly_sorted (l : list N) : bool :=
  match l with
  | x :: ((y :: _) as t) => (x <? y) && strictly_sorted t
  | _ => true
  end.

(* ================================================================== *)
(** ** Quantized columns *)
(* ================================================================== *)

(** Modelled from the spec: [TIndexHelper<ui64>] (compression.h, not under
    src/): codes of [bitsPerKey] bits are packed into 8-byte words, the code
    of lowest index in the lowest bits, so that a little-endian byte stream
    "is directly reinterpretable as packed machine-word storage". *)
Definition EntriesPerType (bitsPerKey : N) : N := 64 / bitsPerKey.

Definition CeilDiv (x y : N) : N := (x + y - 1) / y.

Definition CompressedSize (bitsPerKey count : N) : N :=
  CeilDiv count (EntriesPerType bitsPerKey).

Definition Extract (bitsPerKey : N) (compressedData : list N) (index : N) : N :=
  let offset := index / EntriesPerType bitsPerKey in
  let shift := (index mod EntriesPerType bitsPerKey) * bitsPerKey in
  N.land (N.shiftr (nth (N.to_nat offset) compressedData 0) shift) (N.ones bitsPerKey).

(** Modelled from the spec: [TCompressedArray] (compressed_array.h, not under
    src/): "bit-packed quantized codes (bitsPerKey-wide)" in [ui64] words. *)
Record TCompressedArray : Type := mkCompressedArray {
  NumElements : N;
  BitsPerKey : N;
  Storage : list N
}.

(** Modelled from the spec: the column classes of columns.h (not under
    src/).  A column is the bit-packed [TCompressedValuesHolderImpl] seen
    through an index subset, or some other implementation of the column
    interface, known by the values it extracts. *)
Inductive TColumnValues : Type :=
| TCompressedValuesHolderImpl (SrcData : TCompressedArray)
                              (ColumnSubsetIndexing : TArraySubsetIndexing)
| TOtherValuesHolder (values : list N).

Record IColumn : Type := mkColumn { GetId : N; Values : TColumnValues }.

(** [sizeof] of the value type [T] of a column: [ui8] for quantized float
    features, [ui32] for quantized categorical features. *)
Definition ValueBytes (type : EFeatureType) : N :=
  match type with Float => 1 | Categorical => 4 end.

(** Conversion of a code to the value type of [bytes] bytes. *)
Definition castT (bytes : N) (v : N) : N := v mod 2 ^ (8 * bytes).

(** The source positions of an index subset, in its order. *)
Definition SubsetIndices (s : TArraySubsetIndexing) : list N :=
  match s with
  | TFullSubset n => xrange 0 n
  | TIndexedSubset ix => ix
  end.

(** [GetArrayData().ForEach]: the decoded elements in row order. *)
Definition ArrayDataElements (bytes : N) (a : TCompressedArray) (s : TArraySubsetIndexing)
  : list N :=
  map (fun srcIdx => castT bytes (Extract (BitsPerKey a) (Storage a) srcIdx))
      (SubsetIndices s).

(** [ExtractValues]: the decoded values of a column in row order. *)
Definition ExtractValues (bytes : N) (c : IColumn) : list N :=
  match Values c with
  | TCompressedValuesHolderImpl a s => ArrayDataElements bytes a s
  | TOtherValuesHolder vs => map (castT bytes) vs
  end.

(** [GetSize]: the number of rows of a column. *)
Definition GetSize (c : IColumn) : N :=
  match Values c with
  | TCompressedValuesHolderImpl _ s => Size s
  | TOtherValuesHolder vs => size vs
  end.

(** Modelled from the spec: [TQuantizedFeaturesInfo] (not under src/): "only
    its output object (...a checksum over itself) is consumed here", together
    with the features layout it was built for. *)
Record TQuantizedFeaturesInfo : Type := mkQuantizedFeaturesInfo {
  GetFeaturesLayout : TFeaturesLayout;
  CalcCheckSum : N
}.

(** [TQuantizedObjectsData]: one holder, possibly null, per feature of each type. *)
Record TQuantizedObjectsData : Type := mkQuantizedObjectsData {
  FloatFeatures : list (option IColumn);
  CatFeatures : list (option IColumn);
  QuantizedFeaturesInfo : option TQuantizedFeaturesInfo
}.

(** [TQuantizedObjectsDataProvider]: the base provider and the column store. *)
Record TQuantizedObjectsDataProvider : Type := mkQuantizedObjectsDataProvider {
  Base : TObjectsDataProvider;
  Data : TQuantizedObjectsData
}.

(** The holders of one feature type. *)
Definition FeaturesOf (d : TQuantizedObjectsData) (type : EFeatureType)
  : list (option IColumn) :=
  match type with Float => FloatFeatures d | Categorical => CatFeatures d end.

(** [operator<<] of [EFeatureType]. *)
Definition EFeatureType_ToString (type : EFeatureType) : string :=
  match type with Float => "Float" | Categorical => "Categorical" end.

(** A pointer that is dereferenced: nothing is defined for a null one. *)
Definition deref {A : Type} (p : option A) : TResult A :=
  match p with Some a => Ok a | None => Undefined end.

(** [v[i]] for a vector. *)
Definition at_index {A : Type} (v : list A) (i : N) : TResult A :=
  deref (nth_error v (N.to_nat i)).

(* ------------------------------------------------------------------ *)
(** *** [CheckDataSizes] and [TQuantizedObjectsData::Check] *)

(** Lines 287-307, for the feature of per-type index [featureIdx]. *)
Definition CheckDataSizes_feature (objectCount : N) (featureType : EFeatureType)
    (featureIdx : N) (meta : TFeatureMetaInfo) (holder : option IColumn) : TResult unit :=
  let dataDescription :=
    ("ObjectDataProvider's " ++ EFeatureType_ToString featureType ++ " feature #"
       ++ ToString featureIdx)%string in
  if IsAvailable meta then
    CB_ENSURE_INTERNAL (is_some holder)
      (dataDescription ++ " is null despite being available in featuresLayout") ;;;
    dataPtr <- deref holder ;;
    CheckDataSize (GetSize dataPtr) objectCount dataDescription false "object count" true
  else Ok tt.

Fixpoint CheckDataSizes_loop (objectCount : N) (layout : TFeaturesLayout)
    (featureType : EFeatureType) (featureIdx : N) (featuresData : list (option IColumn))
  : TResult unit :=
  match featuresData with
  | [] => Ok tt
  | holder :: rest =>
      meta <- at_index (GetInternalFeatureMetaInfos layout featureType) featureIdx ;;
      CheckDataSizes_feature objectCount featureType featureIdx meta holder ;;;
      CheckDataSizes_loop objectCount layout featureType (featureIdx + 1) rest
  end.

(** [CheckDataSizes], lines 271-308. *)
Definition CheckDataSizes (objectCount : N) (layout : TFeaturesLayout)
    (featureType : EFeatureType) (featuresData : list (option IColumn)) : TResult unit :=
  CheckDataSize (size featuresData) (GetFeatureCount layout featureType)
    ("ObjectDataProvider's " ++ EFeatureType_ToString featureType ++ " features")
    false
    ("featureLayout's " ++ EFeatureType_ToString featureType ++ " features size")
    true ;;;
  CheckDataSizes_loop objectCount layout featureType 0 featuresData.

(** [TQuantizedObjectsData::Check], lines 465-479. *)
Definition QuantizedObjectsData_Check (d : TQuantizedObjectsData) (objectCount : N)
    (layout : TFeaturesLayout) : TResult unit :=
  CB_ENSURE (is_some (QuantizedFeaturesInfo d))
    "NCB::TQuantizedObjectsData::QuantizedFeaturesInfo is not initialized" ;;;
  CheckDataSizes objectCount layout Float (FloatFeatures d) ;;;
  CheckDataSizes objectCount layout Categorical (CatFeatures d).

(* ------------------------------------------------------------------ *)
(** *** The features checksum *)

Section CheckSum.

(** [UpdateCheckSum<T>(init, value)] of catboost/libs/helpers/checksum.h is
    not under src/: it is a parameter, taking the size of [T] in bytes,
    the running checksum and the value folded in. Its result is a [ui32]. *)
Variable UpdateCheckSum : N -> N -> N -> N.

Definition update (bytes : N) (checkSum element : N) : N :=
  ui32 (UpdateCheckSum bytes checkSum element).

(** Lines 529-545, for the feature of per-type index [perTypeFeatureIdx]. *)
Definition checksum_feature (featureType : EFeatureType)
    (featuresData : list (option IColumn)) (checkSum : N)
    (perTypeFeatureIdx : N) (meta : TFeatureMetaInfo) : TResult N :=
  let bytes := ValueBytes featureType in
  if IsAvailable meta then
    holder <- at_index featuresData perTypeFeatureIdx ;;
    match holder with
    | Some (mkColumn _ (TCompressedValuesHolderImpl a s)) =>
        Ok (fold_left (update bytes) (ArrayDataElements bytes a s) checkSum)
    | Some c =>
        Ok (fold_left (update bytes) (ExtractValues bytes c) checkSum)
    | None => Undefined
    end
  else
    let emptyColumnDataForCrc := 0 in
    Ok (update 4 checkSum emptyColumnDataForCrc).

Fixpoint checksum_loop (featureType : EFeatureType)
    (featuresData : list (option IColumn)) (perTypeFeatureIdx : N)
    (metas : list TFeatureMetaInfo) (checkSum : N) : TResult N :=
  match metas with
  | [] => Ok checkSum
  | meta :: rest =>
      checkSum' <- checksum_feature featureType featuresData checkSum
                     perTypeFeatureIdx meta ;;
      checksum_loop featureType featuresData (perTypeFeatureIdx + 1) rest checkSum'
  end.

(** [CalcFeatureValuesCheckSum], lines 519-548. *)
Definition CalcFeatureValuesCheckSum (featureType : EFeatureType) (init : N)
    (featuresLayout : TFeaturesLayout) (featuresData : list (option IColumn))
  : TResult N :=
  checksum_loop featureType featuresData 0
                (GetInternalFeatureMetaInfos featuresLayout featureType) init.

(** [TQuantizedObjectsDataProvider::CalcFeaturesCheckSum], lines 550-569. *)
Definition CalcFeaturesCheckSum (p : TQuantizedObjectsDataProvider) : TResult N :=
  info <- deref (QuantizedFeaturesInfo (Data p)) ;;
  layout <- deref (FeaturesLayout (CommonData (Base p))) ;;
  checkSum <- CalcFeatureValuesCheckSum Float (CalcCheckSum info) layout
                (FloatFeatures (Data p)) ;;
  CalcFeatureValuesCheckSum Categorical checkSum layout (CatFeatures (Data p)).

End CheckSum.

(* ------------------------------------------------------------------ *)
(** *** The checksum as the spec words it *)

(** "for each feature in a fixed type-then-index order, iterate its decoded
    values in row order and fold each value into a running integer
    checksum": the values folded for one feature, each with the size of its
    type; an unavailable feature folds the 4-byte constant 0. *)
Definition FoldedValues (type : EFeatureType) (meta : TFeatureMetaInfo)
    (holder : option IColumn) : list (N * N) :=
  if IsAvailable meta
  then match holder with
       | Some c => map (pair (ValueBytes type)) (ExtractValues (ValueBytes type) c)
       | None => []
       end
  else [(4, 0)].

(** The holder at a position of a column vector, null when out of range. *)
Definition holder_at (src : list (option IColumn)) (idx : nat) : option IColumn :=
  match nth_error src idx with
  | Some h => h
  | None => None
  end.

Fixpoint FoldedSequence (type : EFeatureType) (data : list (option IColumn)) (idx : nat)
    (metas : list TFeatureMetaInfo) : list (N * N) :=
  match metas with
  | [] => []
  | meta :: rest =>
      FoldedValues type meta (holder_at data idx) ++ FoldedSequence type data (S idx) rest
  end.

(** Everything folded for a column store under a layout: float features,
    then categorical ones. *)
Definition AllFoldedValues (layout : TFeaturesLayout) (d : TQuantizedObjectsData)
  : list (N * N) :=
  FoldedSequence Float (FloatFeatures d) 0 (FloatFeatureMetaInfo layout)
    ++ FoldedSequence Categorical (CatFeatures d) 0 (CatFeatureMetaInfo layout).

(** The left fold of [UpdateCheckSum] over a sequence of sized values. *)
Definition FoldCheckSum (UpdateCheckSum : N -> N -> N -> N) (init : N)
    (items : list (N * N)) : N :=
  fold_left (fun checkSum item => update UpdateCheckSum (fst item) checkSum (snd item))
            items init.

(** Every available feature of the layout has a column. *)
Definition AvailablePresent (layout : TFeaturesLayout) (d : TQuantizedObjectsData) : Prop :=
  forall (type : EFeatureType) (idx : nat) (meta : TFeatureMetaInfo),
    nth_error (GetInternalFeatureMetaInfos layout type) idx = Some meta ->
    IsAvailable meta = true ->
    exists c, holder_at (FeaturesOf d type) idx = Some c.

(** The decoded columns of the available features, floats first, and the
    rows they make. *)
Fixpoint DecodedColumns (type : EFeatureType) (data : list (option IColumn)) (idx : nat)
    (metas : list TFeatureMetaInfo) : list (list N) :=
  match metas with
  | [] => []
  | meta :: rest =>
      (if IsAvailable meta
       then match holder_at data idx with
            | Some c => [ExtractValues (ValueBytes type) c]
            | None => []
            end
       else [])
        ++ DecodedColumns type data (S idx) rest
  end.

(** The decoded columns of all available features, floats first. *)
Definition AvailableColumns (layout : TFeaturesLayout) (d : TQuantizedObjectsData)
  : list (list N) :=
  DecodedColumns Float (FloatFeatures d) 0 (FloatFeatureMetaInfo layout)
    ++ DecodedColumns Categorical (CatFeatures d) 0 (CatFeatureMetaInfo layout).

(** The rows of a store: for every row, its value in each available column. *)
Definition DecodedRows (layout : TFeaturesLayout) (d : TQuantizedObjectsData)
  : list (list N) :=
  match AvailableColumns layout d with
  | [] => []
  | (first :: _) as columns =>
      map (fun row => map (fun column => nth row column 0) columns)
          (seq 0 (length first))
  end.

(** Which positions of the layout are available, per feature type. *)
Definition AvailabilityPattern (layout : TFeaturesLayout) : list bool * list bool :=
  (map IsAvailable (FloatFeatureMetaInfo layout), map IsAvailable (CatFeatureMetaInfo layout)).

(** A provider over a column store, the layout of the store's quantization
    metadata being the layout of the common data. *)
Definition provider_of (objectCount : N) (layout : TFeaturesLayout) (infoCheckSum : N)
    (floats cats : list (option IColumn)) : TQuantizedObjectsDataProvider :=
  mkQuantizedObjectsDataProvider
    (mkObjectsDataProvider (TrivialGrouping objectCount)
       (mkCommonObjectsData (Some layout) (TFullSubset objectCount) OrderUndefined
                            None None None))
    (mkQuantizedObjectsData floats cats
       (Some (mkQuantizedFeaturesInfo layout infoCheckSum))).

(* ================================================================== *)
(** ** Binary persistence of the quantized columns *)
(* ================================================================== *)

(** Modelled from the spec: [IBinSaver], [SaveMulti], [LoadMulti] and
    [SaveRawData] (library/binsaver and helpers/serialization.h, not under
    src/).  The stream is a sequence of bytes; per the "bit-exact contract"
    a record is [(featureId: u32, rowCount: u32, bitsPerKey: u32,
    compressedWordCount: u32, payloadBytes..., paddingBytes...)], integers
    little-endian, a vector of words stored as its [u32] length followed by
    its words. *)
Fixpoint le_bytes (n : nat) (v : N) : list N :=
  match n with
  | O => []
  | S k => v mod 256 :: le_bytes k (v / 256)
  end.

Fixpoint le_value (bs : list N) : N :=
  match bs with
  | [] => 0
  | b :: t => b + 256 * le_value t
  end.

Definition SaveMulti_ui32 (x : N) (out : list N) : list N := out ++ le_bytes 4 x.

Definition SaveRawData (bytes : N) (values : list N) (out : list N) : list N :=
  out ++ flat_map (le_bytes (N.to_nat bytes)) values.

Definition read_bytes (n : N) (stream : list N) : TResult (list N * list N) :=
  if n <=? size stream
  then Ok (firstn (N.to_nat n) stream, skipn (N.to_nat n) stream)
  else Throw "IBinSaver: unexpected end of data".

Definition LoadMulti_ui32 (stream : list N) : TResult (N * list N) :=
  r <- read_bytes 4 stream ;;
  Ok (le_value (fst r), snd r).

Fixpoint words_of_bytes (count : nat) (bs : list N) : list N :=
  match count with
  | O => []
  | S k => le_value (firstn 8 bs) :: words_of_bytes k (skipn 8 bs)
  end.

Definition LoadMulti_vector_ui64 (stream : list N) : TResult (list N * list N) :=
  r <- LoadMulti_ui32 stream ;;
  b <- read_bytes (fst r * 8) (snd r) ;;
  Ok (words_of_bytes (N.to_nat (fst r)) (fst b), snd b).

(** Subtraction of [size_t] values. *)
Definition size_t_sub (a b : N) : N := (a + 2 ^ 64 - b mod 2 ^ 64) mod 2 ^ 64.

(** [sizeof(ui64) - 1] zero bytes. *)
Definition paddingBuffer : list N := repeat 0 7.

(** Body of the lambda of [SaveFeatures], lines 646-667. *)
Definition SaveFeatures_feature (featureType : EFeatureType) (holder : option IColumn)
    (out : list N) : TResult (list N) :=
  c <- deref holder ;;
  let values := ExtractValues (ValueBytes featureType) c in
  let objectCount := ui32 (size values) in
  let bytesPerKey := ui32 (ValueBytes featureType) in
  let bitsPerKey := ui32 (bytesPerKey * 8) in
  let out1 := SaveMulti_ui32 bitsPerKey
                (SaveMulti_ui32 objectCount (SaveMulti_ui32 (GetId c) out)) in
  let compressedStorageVectorSize := ui32 (CompressedSize bitsPerKey objectCount) in
  let out2 := SaveMulti_ui32 compressedStorageVectorSize out1 in
  let paddingSize :=
    size_t_sub (compressedStorageVectorSize * 8) (bytesPerKey * objectCount) in
  let out3 := SaveRawData (ValueBytes featureType) values out2 in
  if paddingSize =? 0 then Ok out3
  else if paddingSize <=? size paddingBuffer
       then Ok (out3 ++ firstn (N.to_nat paddingSize) paddingBuffer)
       else Undefined.

(** [IterateOverAvailableFeatures] (not under src/) visits the available
    features of a type in ascending per-type index. *)
Fixpoint SaveFeatures_loop (featureType : EFeatureType) (src : list (option IColumn))
    (featureIdx : N) (metas : list TFeatureMetaInfo) (out : list N) : TResult (list N) :=
  match metas with
  | [] => Ok out
  | meta :: rest =>
      out' <- (if IsAvailable meta
               then holder <- at_index src featureIdx ;;
                    SaveFeatures_feature featureType holder out
               else Ok out) ;;
      SaveFeatures_loop featureType src (featureIdx + 1) rest out'
  end.

(** [SaveFeatures], lines 635-670. *)
Definition SaveFeatures (featureType : EFeatureType) (featuresLayout : TFeaturesLayout)
    (src : list (option IColumn)) (out : list N) : TResult (list N) :=
  SaveFeatures_loop featureType src 0
                    (GetInternalFeatureMetaInfos featuresLayout featureType) out.

(** [TQuantizedObjectsData::SaveNonSharedPart], lines 672-687. *)
Definition SaveNonSharedPart (d : TQuantizedObjectsData) (out : list N) : TResult (list N) :=
  info <- deref (QuantizedFeaturesInfo d) ;;
  out1 <- SaveFeatures Float (GetFeaturesLayout info) (FloatFeatures d) out ;;
  SaveFeatures Categorical (GetFeaturesLayout info) (CatFeatures d) out1.

(** Body of the lambda of [LoadFeatures], lines 584-610. *)
Definition LoadFeatures_feature (subsetIndexing : TArraySubsetIndexing)
    (meta : TFeatureMetaInfo) (stream : list N) : TResult (IColumn * list N) :=
  let objectCount := Size subsetIndexing in
  let flatFeatureIdx := ExternalFeatureIdx meta in
  id <- LoadMulti_ui32 stream ;;
  sz <- LoadMulti_ui32 (snd id) ;;
  bitsPerKey <- LoadMulti_ui32 (snd sz) ;;
  CB_ENSURE_INTERNAL (flatFeatureIdx =? fst id)
    "deserialized feature id is not equal to expected flatFeatureIdx" ;;;
  CheckDataSize (fst sz) objectCount "column data" false "object count" true ;;;
  storage <- LoadMulti_vector_ui64 (snd bitsPerKey) ;;
  Ok (mkColumn flatFeatureIdx
        (TCompressedValuesHolderImpl
           (mkCompressedArray objectCount (fst bitsPerKey) (fst storage))
           subsetIndexing),
      snd storage).

(** Assignment to the element of index [i] of a vector; [i] is below its
    size at every use. *)
Fixpoint list_set {A : Type} (l : list A) (i : nat) (x : A) : list A :=
  match l, i with
  | [], _ => []
  | _ :: t, O => x :: t
  | y :: t, S k => y :: list_set t k x
  end.

Fixpoint LoadFeatures_loop (subsetIndexing : TArraySubsetIndexing) (featureIdx : N)
    (metas : list TFeatureMetaInfo) (dst : list (option IColumn)) (stream : list N)
  : TResult (list (option IColumn) * list N) :=
  match metas with
  | [] => Ok (dst, stream)
  | meta :: rest =>
      if IsAvailable meta then
        r <- LoadFeatures_feature subsetIndexing meta stream ;;
        LoadFeatures_loop subsetIndexing (featureIdx + 1) rest
                          (list_set dst (N.to_nat featureIdx) (Some (fst r))) (snd r)
      else LoadFeatures_loop subsetIndexing (featureIdx + 1) rest dst stream
  end.

(** [LoadFeatures], lines 571-612. *)
Definition LoadFeatures (featureType : EFeatureType) (featuresLayout : TFeaturesLayout)
    (subsetIndexing : TArraySubsetIndexing) (stream : list N)
  : TResult (list (option IColumn) * list N) :=
  LoadFeatures_loop subsetIndexing 0
    (GetInternalFeatureMetaInfos featuresLayout featureType)
    (repeat None (N.to_nat (GetFeatureCount featuresLayout featureType)))
    stream.

(** [TQuantizedObjectsData::Load], lines 614-632. *)
Definition QuantizedObjectsData_Load (subsetIndexing : TArraySubsetIndexing)
    (quantizedFeaturesInfo : option TQuantizedFeaturesInfo) (stream : list N)
  : TResult (TQuantizedObjectsData * list N) :=
  info <- deref quantizedFeaturesInfo ;;
  f <- LoadFeatures Float (GetFeaturesLayout info) subsetIndexing stream ;;
  c <- LoadFeatures Categorical (GetFeaturesLayout info) subsetIndexing (snd f) ;;
  Ok (mkQuantizedObjectsData (fst f) (fst c) quantizedFeaturesInfo, snd c).

(* ================================================================== *)
(** ** The representation check of the CPU-specialised provider *)
(* ================================================================== *)

(** Modelled from the spec: [TCompressedArray::CheckIfCanBeInterpretedAsRawArray<T>]
    (compressed_array.h, not under src/): the storage must be
    "byte-reinterpretable as the feature's native code width"; it is called
    on the array alone, without the feature's type or index. *)
Definition CheckIfCanBeInterpretedAsRawArray (rawBytes : N) (a : TCompressedArray)
  : TResult unit :=
  CB_ENSURE_INTERNAL (BitsPerKey a =? rawBytes * 8)
    "Can't interpret TCompressedArray's data as raw array because elements are of different size".

(** [dynamic_cast] to the bit-packed holder class. *)
Definition dynamic_cast_compressed (c : IColumn) : option TCompressedArray :=
  match Values c with
  | TCompressedValuesHolderImpl a _ => Some a
  | TOtherValuesHolder _ => None
  end.

(** Lines 725-736, for the column of index [featureIdx]. *)
Definition CheckIsRequiredType_feature (featureType : EFeatureType) (rawBytes : N)
    (requiredTypeName : string) (featureIdx : N) (holder : option IColumn) : TResult unit :=
  match holder with
  | None => Ok tt
  | Some dataPtr =>
      let requiredTypePtr := dynamic_cast_compressed dataPtr in
      CB_ENSURE_INTERNAL (is_some requiredTypePtr)
        ("Data." ++ EFeatureType_ToString featureType ++ "Features["
           ++ ToString featureIdx ++ "] is not of type " ++ requiredTypeName) ;;;
      a <- deref requiredTypePtr ;;
      CheckIfCanBeInterpretedAsRawArray rawBytes a
  end.

Fixpoint CheckIsRequiredType_loop (featureType : EFeatureType) (rawBytes : N)
    (requiredTypeName : string) (featureIdx : N) (data : list (option IColumn))
  : TResult unit :=
  match data with
  | [] => Ok tt
  | holder :: rest =>
      CheckIsRequiredType_feature featureType rawBytes requiredTypeName featureIdx holder ;;;
      CheckIsRequiredType_loop featureType rawBytes requiredTypeName (featureIdx + 1) rest
  end.

(** [CheckIsRequiredType], lines 717-738. *)
Definition CheckIsRequiredType (featureType : EFeatureType) (rawBytes : N)
    (data : list (option IColumn)) (requiredTypeName : string) : TResult unit :=
  CheckIsRequiredType_loop featureType rawBytes requiredTypeName 0 data.

Definition IncompatiblePrefix : string :=
  "Incompatible with TQuantizedForCPUObjectsDataProvider: ".

(** [TQuantizedForCPUObjectsDataProvider::Check], lines 741-757: a
    [TCatboostException] of the two checks is caught and thrown again with
    the provider's name in front. *)
Definition QuantizedForCPU_Check (d : TQuantizedObjectsData) : TResult unit :=
  match (CheckIsRequiredType Float 1 (FloatFeatures d) "TQuantizedFloatValuesHolder" ;;;
         CheckIsRequiredType Categorical 4 (CatFeatures d) "TQuantizedCatValuesHolder") with
  | Throw what => Throw (IncompatiblePrefix ++ what)
  | r => r
  end.

(** The three integers a feature record starts with, as [LoadFeatures]
    decodes them: feature id, row count, bits per key. *)
Definition LoadHeader (stream : list N) : TResult (N * N * N * list N) :=
  id <- LoadMulti_ui32 stream ;;
  sz <- LoadMulti_ui32 (snd id) ;;
  bitsPerKey <- LoadMulti_ui32 (snd sz) ;;
  Ok (fst id, fst sz, fst bitsPerKey, snd bitsPerKey).

(* ------------------------------------------------------------------ *)
(** *** The record of a column, piece by piece *)

(** Word count and padding length written for a column of [n] decoded values. *)
Definition RecordWords (type : EFeatureType) (n : N) : N :=
  CompressedSize (ValueBytes type * 8) n.

Definition RecordPadding (type : EFeatureType) (n : N) : N :=
  RecordWords type n * 8 - ValueBytes type * n.

Definition RecordPayload (type : EFeatureType) (values : list N) : list N :=
  flat_map (le_bytes (N.to_nat (ValueBytes type))) values
    ++ repeat 0 (N.to_nat (RecordPadding type (size values))).

Definition FeatureRecord (type : EFeatureType) (c : IColumn) : list N :=
  let values := ExtractValues (ValueBytes type) c in
  le_bytes 4 (GetId c) ++ le_bytes 4 (size values) ++ le_bytes 4 (ValueBytes type * 8)
    ++ le_bytes 4 (RecordWords type (size values)) ++ RecordPayload type values.

(** The column [LoadFeatures] builds from the record of [c]. *)
Definition LoadedColumn (type : EFeatureType) (c : IColumn) : IColumn :=
  let values := ExtractValues (ValueBytes type) c in
  mkColumn (GetId c)
    (TCompressedValuesHolderImpl
       (mkCompressedArray (size values) (ValueBytes type * 8)
          (words_of_bytes (N.to_nat (RecordWords type (size values)))
                          (RecordPayload type values)))
       (TFullSubset (size values))).

(** The columns of a store carry, at every available position, the flat
    feature index of the layout as their id. *)
Definition IdsMatchLayout (layout : TFeaturesLayout) (d : TQuantizedObjectsData) : Prop :=
  forall (type : EFeatureType) (idx : nat) (meta : TFeatureMetaInfo) (c : IColumn),
    nth_error (GetInternalFeatureMetaInfos layout type) idx = Some meta ->
    IsAvailable meta = true ->
    nth_error (FeaturesOf d type) idx = Some (Some c) ->
    GetId c = ExternalFeatureIdx meta /\ GetId c < 2 ^ 32.

(** The records of the available features from per-type index [idx] on. *)
Fixpoint FeatureRecords (type : EFeatureType) (src : list (option IColumn)) (idx : nat)
    (metas : list TFeatureMetaInfo) : list N :=
  match metas with
  | [] => []
  | meta :: rest =>
      (if IsAvailable meta
       then match holder_at src idx with
            | Some c => FeatureRecord type c
            | None => []
            end
       else [])
        ++ FeatureRecords type src (S idx) rest
  end.

(** The columns read back from those records: a bit-packed column at every
    available position, a null holder elsewhere. *)
Fixpoint LoadedFeatures (type : EFeatureType) (src : list (option IColumn)) (idx : nat)
    (metas : list TFeatureMetaInfo) : list (option IColumn) :=
  match metas with
  | [] => []
  | meta :: rest =>
      (if IsAvailable meta
       then option_map (LoadedColumn type) (holder_at src idx)
       else None)
        :: LoadedFeatures type src (S idx) rest
  end.

(** Every available feature from position [idx] on has a column of [n]
    decoded values whose id is the feature's flat index. *)
Definition Storable (type : EFeatureType) (n : N) (src : list (option IColumn))
    (idx : nat) (metas : list TFeatureMetaInfo) : Prop :=
  forall (k : nat) (meta : TFeatureMetaInfo),
    nth_error metas k = Some meta ->
    IsAvailable meta = true ->
    exists c, holder_at src (idx + k) = Some c /\
              size (ExtractValues (ValueBytes type) c) = n /\
              GetId c = ExternalFeatureIdx meta /\
              GetId c < 2 ^ 32.

(* ------------------------------------------------------------------ *)
(** *** The CPU-required representation, as the spec words it *)

(** "fixed-width bit-packed, byte-reinterpretable as the feature's native
    code width": the bit-packed holder class with codes of [rawBytes] bytes. *)
Definition IsRequiredRepresentation (rawBytes : N) (c : IColumn) : bool :=
  match Values c with
  | TCompressedValuesHolderImpl a _ => BitsPerKey a =? rawBytes * 8
  | TOtherValuesHolder _ => false
  end.

(** The first present column, from index [idx] on, that is not of the
    required representation. *)
Fixpoint first_offender (rawBytes : N) (idx : N) (data : list (option IColumn))
  : option (N * IColumn) :=
  match data with
  | [] => None
  | Some c :: rest =>
      if IsRequiredRepresentation rawBytes c
      then first_offender rawBytes (idx + 1) rest
      else Some (idx, c)
  | None :: rest => first_offender rawBytes (idx + 1) rest
  end.

(** The text thrown for an offending column before it is wrapped. *)
Definition offender_what (featureType : EFeatureType) (requiredTypeName : string)
    (idx : N) (c : IColumn) : string :=
  (INTERNAL_ERROR_MSG ++
   match dynamic_cast_compressed c with
   | None => "Data." ++ EFeatureType_ToString featureType ++ "Features["
               ++ ToString idx ++ "] is not of type " ++ requiredTypeName
   | Some _ =>
       "Can't interpret TCompressedArray's data as raw array because elements are of different size"
   end)%string.

(** [needle] occurs somewhere in [hay]. *)
Fixpoint Mentions (needle hay : string) : bool :=
  String.prefix needle hay ||
  match hay with
  | EmptyString => false
  | String _ rest => Mentions needle rest
  end.

(** A bit-packed float column of 16-bit codes. *)
Definition wide_float_column : IColumn :=
  mkColumn 3 (TCompressedValuesHolderImpl (mkCompressedArray 2 16 [65537]) (TFullSubset 2)).

Definition wide_float_data (featureIdx : nat) : TQuantizedObjectsData :=
  mkQuantizedObjectsData (repeat None featureIdx ++ [Some wide_float_column]) [] None.

(** A float column of another holder class. *)
Definition foreign_class_data : TQuantizedObjectsData :=
  mkQuantizedObjectsData [None; Some (mkColumn 1 (TOtherValuesHolder [1; 2]))] [] None.

(* ================================================================== *)
(** ** Sample column stores *)
(* ================================================================== *)

(** Decidable form of [IdsMatchLayout], one feature type at a time. *)
Fixpoint ids_match (metas : list TFeatureMetaInfo) (src : list (option IColumn)) : bool :=
  match metas, src with
  | meta :: ms, h :: t =>
      (if IsAvailable meta
       then match h with
            | Some c => (GetId c =? ExternalFeatureIdx meta) && (GetId c <? 2 ^ 32)
            | None => true
            end
       else true)
      && ids_match ms t
  | _, _ => true
  end.

(** Three rows; float features 0 (1-bit codes), 1 (unavailable) and 2
    (17-bit codes seen through a reordering subset), categorical feature 3
    (8-bit codes). *)
Definition sample_layout : TFeaturesLayout :=
  mkFeaturesLayout
    [mkFeatureMetaInfo true 0; mkFeatureMetaInfo false 1; mkFeatureMetaInfo true 2]
    [mkFeatureMetaInfo true 3].

Definition sample_info : TQuantizedFeaturesInfo := mkQuantizedFeaturesInfo sample_layout 77.

Definition sample_data : TQuantizedObjectsData :=
  mkQuantizedObjectsData
    [Some (mkColumn 0 (TCompressedValuesHolderImpl (mkCompressedArray 3 1 [5])
                                                   (TFullSubset 3)));
     None;
     Some (mkColumn 2 (TCompressedValuesHolderImpl
                         (mkCompressedArray 3 17 [1 + 2 * 2 ^ 17 + 3 * 2 ^ 34])
                         (TIndexedSubset [2; 0; 1])))]
    [Some (mkColumn 3 (TCompressedValuesHolderImpl (mkCompressedArray 3 8 [197121])
                                                   (TFullSubset 3)))]
    (Some sample_info).

(** One available float feature of flat index 0 whose column carries id 7. *)
Definition foreign_id_layout : TFeaturesLayout :=
  mkFeaturesLayout [mkFeatureMetaInfo true 0] [].

Definition foreign_id_info : TQuantizedFeaturesInfo :=
  mkQuantizedFeaturesInfo foreign_id_layout 0.

Definition foreign_id_data : TQuantizedObjectsData :=
  mkQuantizedObjectsData
    [Some (mkColumn 7 (TCompressedValuesHolderImpl (mkCompressedArray 3 8 [197121])
                                                   (TFullSubset 3)))]
    []
    (Some foreign_id_info).

(** A checksum update to compute examples with. *)
Definition sample_update (bytes checkSum value : N) : N := checkSum * 31 + value + bytes.

Definition sample_provider : TQuantizedObjectsDataProvider :=
  mkQuantizedObjectsDataProvider
    (mkObjectsDataProvider (TrivialGrouping 3)
       (mkCommonObjectsData (Some sample_layout) (TFullSubset 3) OrderUndefined
                            None None None))
    sample_data.

(** Two one-row stores with a single categorical column holding the code 0:
    the column is the second of two features in the first store and the
    first of two in the second, the other feature being unavailable. *)
Definition zero_column (id : N) : IColumn :=
  mkColumn id (TCompressedValuesHolderImpl (mkCompressedArray 1 32 [0]) (TFullSubset 1)).

Definition unavailable_first : TFeaturesLayout :=
  mkFeaturesLayout [] [mkFeatureMetaInfo false 0; mkFeatureMetaInfo true 1].

Definition unavailable_last : TFeaturesLayout :=
  mkFeaturesLayout [] [mkFeatureMetaInfo true 0; mkFeatureMetaInfo false 1].

Definition unavailable_first_provider : TQuantizedObjectsDataProvider :=
  provider_of 1 unavailable_first 0 [] [None; Some (zero_column 1)].

Definition unavailable_last_provider : TQuantizedObjectsDataProvider :=
  provider_of 1 unavailable_last 0 [] [Some (zero_column 0); None].

(* ------------------------------------------------------------------ *)
(** *** Many row orders of one multiset *)

(** [M + 1] rows, all 0 but the row of index [i], which holds 1. *)
Definition marker_block (M i : N) : list N :=
  repeat 0 (N.to_nat i) ++ 1 :: repeat 0 (N.to_nat (M - i)).

(** The [k]-th order of two 1s among [2 * M] 0s. *)
Definition order_column (M k : N) : list N :=
  marker_block M (k / (M + 1)) ++ marker_block M (k mod (M + 1)).

Definition one_float_layout : TFeaturesLayout :=
  mkFeaturesLayout [mkFeatureMetaInfo true 0] [].

(** The store of one float feature whose rows are [order_column M k],
    bit-packed as [LoadFeatures] packs a column. *)
Definition order_provider (M k : N) : TQuantizedObjectsDataProvider :=
  provider_of (2 * M + 2) one_float_layout 0
    [Some (LoadedColumn Float (mkColumn 0 (TOtherValuesHolder (order_column M k))))] [].

(** Two stores under one layout and one quantization metadata hold the same
    multiset of rows of decoded values, in different row order. *)
Definition SameValuesOtherOrder (p1 p2 : TQuantizedObjectsDataProvider) : Prop :=
  exists layout,
    FeaturesLayout (CommonData (Base p1)) = Some layout /\
    FeaturesLayout (CommonData (Base p2)) = Some layout /\
    QuantizedFeaturesInfo (Data p1) = QuantizedFeaturesInfo (Data p2) /\
    Permutation (DecodedRows layout (Data p1)) (DecodedRows layout (Data p2)) /\
    DecodedRows layout (Data p1) <> DecodedRows layout (Data p2).

(* ================================================================== *)
(** ** Further vocabulary for the statements below *)
(* ================================================================== *)

(** Timestamps that never decrease from a row to a later one. *)
Definition NonDecreasing (ts : list N) : Prop :=
  forall (i j : nat) (a b : N),
    (i < j)%nat -> nth_error ts i = Some a -> nth_error ts j = Some b -> a <= b.

(** Three rows whose timestamps repeat a value before they grow. *)
Definition repeated_timestamp_data : TCommonObjectsData :=
  mkCommonObjectsData (Some (mkFeaturesLayout [] [])) (TFullSubset 3) OrderUndefined
                      None None (Some [10; 10; 20]).

(** Five rows in three groups, with subgroups and timestamps. *)
Definition grouped_data : TCommonObjectsData :=
  mkCommonObjectsData (Some (mkFeaturesLayout [] [])) (TFullSubset 5) OrderUndefined
                      (Some [7; 7; 3; 9; 9]) (Some [1; 2; 1; 1; 2]) (Some [5; 4; 3; 2; 1]).

Definition grouped_data_grouping : TObjectsGrouping :=
  ExplicitGrouping [mkBounds 0 2; mkBounds 2 3; mkBounds 3 5].

(** The columns of one feature type fit a layout at [n] rows: one holder
    per feature of the layout, and at every available feature a column of
    [n] rows. *)
Definition ColumnsFitLayout (n : N) (layout : TFeaturesLayout) (type : EFeatureType)
    (data : list (option IColumn)) : Prop :=
  size data = GetFeatureCount layout type /\
  forall (idx : nat) (meta : TFeatureMetaInfo),
    nth_error (GetInternalFeatureMetaInfos layout type) idx = Some meta ->
    IsAvailable meta = true ->
    exists c, nth_error data idx = Some (Some c) /\ GetSize c = n.

(** What [LoadFeatures] leaves at the position of a feature: at an available
    one a bit-packed column that carries the feature's flat index and is seen
    through the subset given to the load, at an unavailable one nothing. *)
Definition LoadedShape (subsetIndexing : TArraySubsetIndexing) (meta : TFeatureMetaInfo)
    (holder : option IColumn) : Prop :=
  if IsAvailable meta
  then exists bitsPerKey storage,
         holder = Some (mkColumn (ExternalFeatureIdx meta)
                          (TCompressedValuesHolderImpl
                             (mkCompressedArray (Size subsetIndexing) bitsPerKey storage)
                             subsetIndexing))
  else holder = None.

(** The bytes [SaveNonSharedPart] writes for a store. *)
Definition StoreRecords (layout : TFeaturesLayout) (d : TQuantizedObjectsData) : list N :=
  FeatureRecords Float (FloatFeatures d) 0 (FloatFeatureMetaInfo layout)
    ++ FeatureRecords Categorical (CatFeatures d) 0 (CatFeatureMetaInfo layout).

(** The store [Load] builds from those bytes. *)
Definition ReloadedStore (info : TQuantizedFeaturesInfo) (d : TQuantizedObjectsData)
  : TQuantizedObjectsData :=
  mkQuantizedObjectsData
    (LoadedFeatures Float (FloatFeatures d) 0 (FloatFeatureMetaInfo (GetFeaturesLayout info)))
    (LoadedFeatures Categorical (CatFeatures d) 0
                    (CatFeatureMetaInfo (GetFeaturesLayout info)))
    (Some info).

(** A stream holding the record of one float column of three 8-bit codes,
    for a layout whose first float feature is unavailable, and the store
    [Load] builds from it. *)
Definition one_record_info : TQuantizedFeaturesInfo :=
  mkQuantizedFeaturesInfo
    (mkFeaturesLayout [mkFeatureMetaInfo false 0; mkFeatureMetaInfo true 1] []) 0.

Definition one_record_stream : list N :=
  [1; 0; 0; 0;  3; 0; 0; 0;  8; 0; 0; 0;  1; 0; 0; 0;  1; 2; 3;  0; 0; 0; 0; 0].

Definition one_record_store : TQuantizedObjectsData :=
  mkQuantizedObjectsData
    [None;
     Some (mkColumn 1 (TCompressedValuesHolderImpl (mkCompressedArray 3 8 [197121])
                                                   (TFullSubset 3)))]
    []
    (Some one_record_info).

(** Two stores hold, at every available feature of a layout, columns that
    decode to the same values. *)
Definition SameDecodedValues (layout : TFeaturesLayout) (d1 d2 : TQuantizedObjectsData)
  : Prop :=
  forall (type : EFeatureType) (idx : nat) (meta : TFeatureMetaInfo),
    nth_error (GetInternalFeatureMetaInfos layout type) idx = Some meta ->
    IsAvailable meta = true ->
    exists c1 c2,
      holder_at (FeaturesOf d1 type) idx = Some c1 /\
      holder_at (FeaturesOf d2 type) idx = Some c2 /\
      ExtractValues (ValueBytes type) c2 = ExtractValues (ValueBytes type) c1.

(** The values of [sample_data] in columns of other ids, widths and views. *)
Definition sample_data_repacked : TQuantizedObjectsData :=
  mkQuantizedObjectsData
    [Some (mkColumn 10 (TOtherValuesHolder [1; 0; 1]));
     None;
     Some (mkColumn 12 (TCompressedValuesHolderImpl (mkCompressedArray 3 8 [131331])
                                                    (TFullSubset 3)))]
    [Some (mkColumn 13 (TCompressedValuesHolderImpl
                          (mkCompressedArray 3 32 [2 + 3 * 2 ^ 32; 1])
                          (TIndexedSubset [2; 0; 1])))]
    (Some sample_info).

(** One available float feature and a store with a null holder for it. *)
Definition missing_column_data : TQuantizedObjectsData :=
  mkQuantizedObjectsData [None] [] (Some (mkQuantizedFeaturesInfo one_float_layout 0)).

(* ================================================================== *)
(** ** Group and subgroup identifiers given as strings *)
(* ================================================================== *)

(** [CommonData.GroupIds = ids] and [CommonData.SubgroupIds = ids]. *)
Definition set_GroupIds (d : TCommonObjectsData) (ids : option (list TGroupId))
  : TCommonObjectsData :=
  mkCommonObjectsData (FeaturesLayout d) (SubsetIndexing d) (Order d)
                      ids (SubgroupIds d) (Timestamp d).

Definition set_SubgroupIds (d : TCommonObjectsData) (ids : option (list N))
  : TCommonObjectsData :=
  mkCommonObjectsData (FeaturesLayout d) (SubsetIndexing d) (Order d)
                      (GroupIds d) ids (Timestamp d).

(** Modelled from the spec: [TObjectsDataProvider::GetObjectCount] (objects.h,
    not under src/): the "row count" of a dataset, the object count of the
    grouping it keeps, as the constructor reads it at line 244. *)
Definition Provider_GetObjectCount (p : TObjectsDataProvider) : N :=
  GetObjectCount (ObjectsGrouping p).

Section StringIds.

(** [CalcGroupIdFor] and [CalcSubgroupIdFor], the "string hashing
    collaborator", are not under src/: they are parameters. *)
Variable CalcGroupIdFor : string -> TGroupId.
Variable CalcSubgroupIdFor : string -> N.

(** [TRawObjectsDataProvider::SetGroupIds], lines 412-425, on the grouping
    and the common data of the provider; the loop of lines 417-419 maps the
    strings to their identifiers.  Nothing is assigned before the last call
    that can throw. *)
Definition SetGroupIds (p : TObjectsDataProvider) (groupStringIds : list string)
  : TResult TObjectsDataProvider :=
  CheckDataSize (size groupStringIds) (Provider_GetObjectCount p) "group Ids"
                false "" false ;;;
  let newGroupIds := map CalcGroupIdFor groupStringIds in
  grouping <- CreateObjectsGroupingFromGroupIds (Provider_GetObjectCount p)
                                                (Some newGroupIds) ;;
  Ok (mkObjectsDataProvider grouping (set_GroupIds (CommonData p) (Some newGroupIds))).

(** [TRawObjectsDataProvider::SetSubgroupIds], lines 427-440. *)
Definition SetSubgroupIds (p : TObjectsDataProvider) (subgroupStringIds : list string)
  : TResult TObjectsDataProvider :=
  CheckDataSize (size subgroupStringIds) (Provider_GetObjectCount p) "subgroup Ids"
                false "" false ;;;
  CB_ENSURE (is_some (GroupIds (CommonData p)))
            "non-empty subgroupStringIds when GroupIds is not defined" ;;;
  let newSubgroupIds := map CalcSubgroupIdFor subgroupStringIds in
  Ok (mkObjectsDataProvider (ObjectsGrouping p)
        (set_SubgroupIds (CommonData p) (Some newSubgroupIds))).

End StringIds.

(** An identifier function to compute examples with: the length of the string. *)
Definition sample_id (s : string) : N := N.of_nat (String.length s).

(** The provider of [grouped_data] under its grouping. *)
Definition grouped_provider : TObjectsDataProvider :=
  mkObjectsDataProvider grouped_data_grouping grouped_data.

(* ================================================================== *)
(** ** Preparing and subsetting the quantized column store *)
(* ================================================================== *)

(** Modelled from the spec: [TDataMetaInfo] (meta_info.h, not under src/),
    the "schema" a column store is prepared for: the one field of it that
    the preparation reads, a pointer to the features layout. *)
Record TDataMetaInfo : Type := mkDataMetaInfo {
  MetaFeaturesLayout : option TFeaturesLayout
}.

Section QuantizedStore.

(** The constructor of [TQuantizedFeaturesInfo] from a layout and
    binarization options is not under src/: it is a parameter. *)
Variable TBinarizationOptions : Type.
Variable MakeQuantizedFeaturesInfo :
  TFeaturesLayout -> TBinarizationOptions -> TQuantizedFeaturesInfo.

(** [TQuantizedObjectsData::PrepareForInitialization], lines 444-462:
    [clear] and [resize] leave one null holder per feature; the number of
    categorical features is kept in a [ui32]. *)
Definition QuantizedObjectsData_PrepareForInitialization (d : TQuantizedObjectsData)
    (metaInfo : TDataMetaInfo) (binarizationOptions : TBinarizationOptions)
  : TResult TQuantizedObjectsData :=
  layout <- deref (MetaFeaturesLayout metaInfo) ;;
  let floatFeatures := repeat None (N.to_nat (GetFeatureCount layout Float)) in
  let catFeatureCount := ui32 (GetFeatureCount layout Categorical) in
  let catFeatures := repeat None (N.to_nat catFeatureCount) in
  Ok (mkQuantizedObjectsData floatFeatures catFeatures
        (match QuantizedFeaturesInfo d with
         | Some info => Some info
         | None => Some (MakeQuantizedFeaturesInfo layout binarizationOptions)
         end)).

(** [CloneWithNewSubsetIndexing] is a virtual function of the column
    classes (columns.h, not under src/): it is a parameter. *)
Variable CloneWithNewSubsetIndexing : IColumn -> TArraySubsetIndexing -> IColumn.

(** [CreateSubsetFeatures] for holders of columns, lines 482-498. *)
Definition CreateSubsetFeatures (src : list (option IColumn))
    (subsetIndexing : TArraySubsetIndexing) : list (option IColumn) :=
  map (fun feature =>
         match feature with
         | Some srcDataPtr => Some (CloneWithNewSubsetIndexing srcDataPtr subsetIndexing)
         | None => None
         end)
      src.

(** [TQuantizedObjectsData::GetSubset], lines 500-517. *)
Definition QuantizedObjectsData_GetSubset (d : TQuantizedObjectsData)
    (subsetComposition : TArraySubsetIndexing) : TQuantizedObjectsData :=
  mkQuantizedObjectsData
    (CreateSubsetFeatures (FloatFeatures d) subsetComposition)
    (CreateSubsetFeatures (CatFeatures d) subsetComposition)
    (QuantizedFeaturesInfo d).

End QuantizedStore.

(** Modelled from the spec: [CloneWithNewSubsetIndexing] of the bit-packed
    holder class "clones each present column with the new index subset,
    sharing ... the same underlying bit-packed storage buffer"; a column of
    another class is cloned to the values it shows at the positions of the
    subset. *)
Definition CloneCompressed (c : IColumn) (subsetIndexing : TArraySubsetIndexing) : IColumn :=
  match Values c with
  | TCompressedValuesHolderImpl a _ =>
      mkColumn (GetId c) (TCompressedValuesHolderImpl a subsetIndexing)
  | TOtherValuesHolder vs =>
      mkColumn (GetId c)
        (TOtherValuesHolder (map (fun i => nth (N.to_nat i) vs 0)
                                 (SubsetIndices subsetIndexing)))
  end.

(** No feature of a layout is available. *)
Definition NoFeatureAvailable (layout : TFeaturesLayout) : Prop :=
  forall (type : EFeatureType) (meta : TFeatureMetaInfo),
    In meta (GetInternalFeatureMetaInfos layout type) -> IsAvailable meta = false.

(** A layout with an unavailable float feature only. *)
Definition unavailable_only_layout : TFeaturesLayout :=
  mkFeaturesLayout [mkFeatureMetaInfo false 0] [].

(* ================================================================== *)
(** ** The raw column store *)
(* ================================================================== *)

(** Modelled from the spec: [TArrayValuesHolder] (columns.h, not under
    src/), a raw column "carrying its own index-subset view into a shared
    backing array"; its constructor takes the feature id, the backing array
    and the index subset, as at lines 366-370.  A value is kept as the
    unsigned integer of its bits. *)
Record TArrayValuesHolder : Type := mkArrayValuesHolder {
  RawGetId : N;
  RawSrcData : list N;
  RawSubsetIndexing : TArraySubsetIndexing
}.

(** Modelled from the spec: [GetSize] of a raw column (columns.h, not under
    src/), the "column length", the number of rows its subset selects. *)
Definition RawGetSize (c : TArrayValuesHolder) : N := Size (RawSubsetIndexing c).

(** [CreateSubsetFeatures] for raw columns, lines 354-376. *)
Definition CreateSubsetFeatures_raw (src : list (option TArrayValuesHolder))
    (subsetIndexing : TArraySubsetIndexing) : list (option TArrayValuesHolder) :=
  map (fun feature =>
         match feature with
         | Some srcDataPtr =>
             Some (mkArrayValuesHolder (RawGetId srcDataPtr) (RawSrcData srcDataPtr)
                                       subsetIndexing)
         | None => None
         end)
      src.

Section CheckDataSizesTemplate.

(** [CheckDataSizes] is a template over the class of the columns, which it
    asks for [GetSize] only. *)
Context {TFeaturesColumn : Type}.
Variable GetSizeOf : TFeaturesColumn -> N.

Definition CheckDataSizesT_feature (objectCount : N) (featureType : EFeatureType)
    (featureIdx : N) (meta : TFeatureMetaInfo) (holder : option TFeaturesColumn)
  : TResult unit :=
  let dataDescription :=
    ("ObjectDataProvider's " ++ EFeatureType_ToString featureType ++ " feature #"
       ++ ToString featureIdx)%string in
  if IsAvailable meta then
    CB_ENSURE_INTERNAL (is_some holder)
      (dataDescription ++ " is null despite being available in featuresLayout") ;;;
    dataPtr <- deref holder ;;
    CheckDataSize (GetSizeOf dataPtr) objectCount dataDescription false "object count" true
  else Ok tt.

Fixpoint CheckDataSizesT_loop (objectCount : N) (layout : TFeaturesLayout)
    (featureType : EFeatureType) (featureIdx : N)
    (featuresData : list (option TFeaturesColumn)) : TResult unit :=
  match featuresData with
  | [] => Ok tt
  | holder :: rest =>
      meta <- at_index (GetInternalFeatureMetaInfos layout featureType) featureIdx ;;
      CheckDataSizesT_feature objectCount featureType featureIdx meta holder ;;;
      CheckDataSizesT_loop objectCount layout featureType (featureIdx + 1) rest
  end.

(** [CheckDataSizes], lines 271-308, for any class of columns. *)
Definition CheckDataSizesT (objectCount : N) (layout : TFeaturesLayout)
    (featureType : EFeatureType) (featuresData : list (option TFeaturesColumn))
  : TResult unit :=
  CheckDataSize (size featuresData) (GetFeatureCount layout featureType)
    ("ObjectDataProvider's " ++ EFeatureType_ToString featureType ++ " features")
    false
    ("featureLayout's " ++ EFeatureType_ToString featureType ++ " features size")
    true ;;;
  CheckDataSizesT_loop objectCount layout featureType 0 featuresData.

(** The columns of one feature type fit a layout at [n] rows. *)
Definition ColumnsFitLayoutT (n : N) (layout : TFeaturesLayout) (type : EFeatureType)
    (data : list (option TFeaturesColumn)) : Prop :=
  size data = GetFeatureCount layout type /\
  forall (idx : nat) (meta : TFeatureMetaInfo),
    nth_error (GetInternalFeatureMetaInfos layout type) idx = Some meta ->
    IsAvailable meta = true ->
    exists c, nth_error data idx = Some (Some c) /\ GetSizeOf c = n.

End CheckDataSizesTemplate.

(* ================================================================== *)
(** ** [TRawObjectsData]: preparation and check *)
(* ================================================================== *)

(** [TRawObjectsData]: one holder, possibly null, per feature of each type,
    and a pointer, possibly null, to the vector of the maps from hash value
    to string, one map per categorical feature. *)
Record TRawObjectsData : Type := mkRawObjectsData {
  RawFloatFeatures : list (option TArrayValuesHolder);
  RawCatFeatures : list (option TArrayValuesHolder);
  CatFeaturesHashToString : option (list (list (N * string)))
}.







Section RawCheck.

(** [Hex] (util/stream/format.h) and the text of the exception of
    [SafeIntegerCast] (util/generic/cast.h) are not under src/: they are
    parameters. *)
Variable Hex : N -> string.
Variable BadCastWhat : string.




End RawCheck.



(** Two rows of one float and one categorical feature; the categorical
    column shows the hash values 11 and 12 of a backing array of three. *)
Definition raw_layout : TFeaturesLayout :=
  mkFeaturesLayout [mkFeatureMetaInfo true 0] [mkFeatureMetaInfo true 1].

Definition raw_data : TRawObjectsData :=
  mkRawObjectsData
    [Some (mkArrayValuesHolder 0 [100; 200] (TFullSubset 2))]
    [Some (mkArrayValuesHolder 1 [11; 12; 13] (TIndexedSubset [1; 0]))]
    (Some [[(11, "a"); (12, "b")]]).

(* ================================================================== *)
(** ** Stores packed at the width of their value type *)
(* ================================================================== *)

(** A store of three rows under [sample_layout], its columns bit-packed at
    the width of the value type the checksum reads them with: float codes
    in 8 bits, categorical codes in 32 bits.  The rows are (1, 3, 1),
    (0, 1, 2) and (1, 2, 3). *)
Definition packed_provider : TQuantizedObjectsDataProvider :=
  provider_of 3 sample_layout 77
    [Some (mkColumn 0 (TCompressedValuesHolderImpl (mkCompressedArray 3 8 [65537])
                                                   (TFullSubset 3)));
     None;
     Some (mkColumn 2 (TCompressedValuesHolderImpl (mkCompressedArray 3 8 [131331])
                                                   (TFullSubset 3)))]
    [Some (mkColumn 3 (TCompressedValuesHolderImpl
                         (mkCompressedArray 3 32 [1 + 2 * 2 ^ 32; 3])
                         (TFullSubset 3)))].

(** The same rows in another order: the first row moved behind the last. *)
Definition packed_provider_rotated : TQuantizedObjectsDataProvider :=
  provider_of 3 sample_layout 77
    [Some (mkColumn 0 (TCompressedValuesHolderImpl (mkCompressedArray 3 8 [65792])
                                                   (TFullSubset 3)));
     None;
     Some (mkColumn 2 (TCompressedValuesHolderImpl (mkCompressedArray 3 8 [197121])
                                                   (TFullSubset 3)))]
    [Some (mkColumn 3 (TCompressedValuesHolderImpl
                         (mkCompressedArray 3 32 [2 + 3 * 2 ^ 32; 1])
                         (TFullSubset 3)))].

(** Every available feature of [metas], the first of which has the
    per-type index [idx], has in [data] a column of [n] decoded values. *)
Definition ColumnsSized (type : EFeatureType) (data : list (option IColumn)) (n idx : nat)
    (metas : list TFeatureMetaInfo) : Prop :=
  forall k meta, nth_error metas k = Some meta -> IsAvailable meta = true ->
                 exists c, holder_at data (idx + k) = Some c /\
                           length (ExtractValues (ValueBytes type) c) = n.

(* ================================================================== *)
(** ** Facts about runs, sorting and the scanning loop *)
(* ================================================================== *)

Example CreateObjectsGroupingFromGroupIds_ex1 :
  CreateObjectsGroupingFromGroupIds 5 (Some [7; 7; 3; 9; 9])
  = Ok (ExplicitGrouping [mkBounds 0 2; mkBounds 2 3; mkBounds 3 5]).
Proof. vm_compute. reflexivity. Qed.

Example CreateObjectsGroupingFromGroupIds_ex2 :
  CreateObjectsGroupingFromGroupIds 6 (Some [1; 1; 2; 2; 1; 1])
  = Throw "group Ids are not consecutive".
Proof. vm_compute. reflexivity. Qed.

Example CreateObjectsGroupingFromGroupIds_ex3 :
  CreateObjectsGroupingFromGroupIds 4 (Some [1; 1; 2])
  = Throw "group Ids data size (3) is not equal to expected (4)".
Proof. vm_compute. reflexivity. Qed.

Lemma Runs_cons_shape (x : TGroupId) (t : list TGroupId) :
  exists r rs, Runs (x :: t) = (x :: r) :: rs.
Proof.
  simpl. destruct (Runs t) as [|[|y r] rs]; eauto.
  destruct (x =? y); eauto.
Qed.

Lemma Runs_nonempty (l : list TGroupId) : Forall (fun r => r <> []) (Runs l).
Proof.
  induction l as [|x t IH]; simpl; auto.
  destruct (Runs t) as [|[|y r] rs]; try (repeat constructor; congruence).
  inversion IH; subst.
  destruct (x =? y); repeat constructor; auto; congruence.
Qed.

Lemma Runs_concat (l : list TGroupId) : concat (Runs l) = l.
Proof.
  induction l as [|x t IH]; simpl; auto.
  pose proof (Runs_nonempty t) as NE.
  destruct (Runs t) as [|[|y r] rs]; simpl in *.
  - now subst.
  - inversion NE; congruence.
  - destruct (x =? y); simpl; now rewrite IH.
Qed.

(** Every run repeats one value. *)
Lemma Runs_constant (l : list TGroupId) :
  Forall (fun r => forall y, In y r -> y = hd 0 r) (Runs l).
Proof.
  induction l as [|x t IH]; simpl; auto.
  destruct (Runs t) as [|[|y r] rs].
  - constructor; auto. simpl. intuition.
  - constructor; auto. simpl. intuition.
  - inversion IH as [|? ? Hr Hrs]; subst.
    destruct (x =? y) eqn:E.
    + apply N.eqb_eq in E; subst. constructor; auto.
      simpl. intros z [->|Hz]; [reflexivity | exact (Hr z Hz)].
    + constructor; auto. simpl. intuition.
Qed.

Lemma RunIds_cons (x : TGroupId) (t : list TGroupId) :
  exists ids, RunIds (x :: t) = x :: ids.
Proof.
  unfold RunIds. destruct (Runs_cons_shape x t) as (r & rs & ->). simpl. eauto.
Qed.

Lemma RunIds_step (x y : TGroupId) (t : list TGroupId) :
  RunIds (x :: y :: t) = if x =? y then RunIds (y :: t) else x :: RunIds (y :: t).
Proof.
  unfold RunIds. change (Runs (x :: y :: t)) with
    (match Runs (y :: t) with
     | (z :: r) :: rs => if x =? z then (x :: z :: r) :: rs else [x] :: (z :: r) :: rs
     | _ => [[x]]
     end).
  destruct (Runs_cons_shape y t) as (r & rs & ->).
  destruct (x =? y) eqn:E; simpl; auto.
  apply N.eqb_eq in E. now subst.
Qed.

Lemma RunIds_adjacent_distinct (l : list TGroupId) : AdjacentDistinct (RunIds l).
Proof.
  induction l as [|x [|y t] IH]; try exact I.
  rewrite RunIds_step. destruct (x =? y) eqn:E; auto.
  destruct (RunIds_cons y t) as (ids & Hids). rewrite Hids in *.
  split; auto. apply N.eqb_neq in E. exact E.
Qed.

(* ------------------------------------------------------------------ *)
(** *** [Sort] followed by [adjacent_find] detects a repeated value *)

Lemma insert_sorted_perm (x : N) (l : list N) : Permutation (insert_sorted x l) (x :: l).
Proof.
  induction l as [|y t IH]; simpl; auto.
  destruct (x <=? y); auto.
  rewrite IH. apply perm_swap.
Qed.

Lemma Sort_perm (l : list N) : Permutation (Sort l) l.
Proof.
  induction l as [|x t IH]; simpl; auto.
  rewrite insert_sorted_perm. now constructor.
Qed.

Lemma insert_sorted_Sorted (x : N) (l : list N) :
  Sorted N.le l -> Sorted N.le (insert_sorted x l).
Proof.
  induction l as [|y t IH]; simpl; intros S.
  - repeat constructor.
  - destruct (x <=? y) eqn:E.
    + constructor; auto. constructor. now apply N.leb_le.
    + apply N.leb_gt in E. inversion S as [|? ? St Hd]; subst.
      constructor; auto.
      destruct t as [|z t']; simpl.
      * constructor. lia.
      * destruct (x <=? z); constructor; [lia|].
        inversion Hd; subst. assumption.
Qed.

Lemma Sort_Sorted (l : list N) : Sorted N.le (Sort l).
Proof.
  induction l as [|x t IH]; simpl; [constructor | now apply insert_sorted_Sorted].
Qed.

Lemma adjacent_find_NoDup (s : list N) : NoDup s -> adjacent_find s = None.
Proof.
  induction s as [|x [|y t] IH]; intros ND; try reflexivity.
  inversion ND as [|? ? Hx ND']; subst.
  change (adjacent_find (x :: y :: t))
    with (if x =? y then Some 0%nat else option_map S (adjacent_find (y :: t))).
  destruct (x =? y) eqn:E.
  - apply N.eqb_eq in E. subst. exfalso. apply Hx. now left.
  - now rewrite IH.
Qed.

Lemma adjacent_find_sorted (s : list N) :
  StronglySorted N.le s -> adjacent_find s = None -> NoDup s.
Proof.
  induction 1 as [|x t St IH Hall]; intros AF; constructor.
  - intros Hin. destruct t as [|y t']; [inversion Hin|].
    change (adjacent_find (x :: y :: t'))
      with (if x =? y then Some 0%nat else option_map S (adjacent_find (y :: t'))) in AF.
    destruct (x =? y) eqn:E; [discriminate|]. apply N.eqb_neq in E.
    inversion Hall as [|? ? Hxy _]; subst.
    inversion St as [|? ? _ Hy]; subst.
    destruct Hin as [->|Hin]; [now apply E|].
    rewrite Forall_forall in Hy. specialize (Hy x Hin). lia.
  - apply IH. destruct t as [|y t']; [reflexivity|].
    change (adjacent_find (x :: y :: t'))
      with (if x =? y then Some 0%nat else option_map S (adjacent_find (y :: t'))) in AF.
    destruct (x =? y); [discriminate|].
    destruct (adjacent_find (y :: t')); [discriminate | reflexivity].
Qed.

Lemma adjacent_find_Sort (l : list N) :
  is_end (adjacent_find (Sort l)) = true <-> NoDup l.
Proof.
  split.
  - intros H. apply (Permutation_NoDup (Sort_perm l)).
    apply adjacent_find_sorted.
    + apply Sorted_StronglySorted; [intros a b c; apply N.le_trans | apply Sort_Sorted].
    + destruct (adjacent_find (Sort l)); [discriminate | reflexivity].
  - intros ND. rewrite adjacent_find_NoDup; [reflexivity|].
    apply (Permutation_NoDup (Permutation_sym (Sort_perm l)) ND).
Qed.

(** Two runs that repeat one value are never neighbours, so a value repeated
    by two separated runs is exactly a repeated entry of [RunIds]. *)
Lemma AdjacentDistinct_nth (l : list TGroupId) (i : nat) (a b : TGroupId) :
  AdjacentDistinct l -> nth_error l i = Some a -> nth_error l (S i) = Some b -> a <> b.
Proof.
  revert i. induction l as [|x [|y t] IH]; intros i AD Ha Hb.
  - destruct i; discriminate.
  - destruct i as [|[|i]]; discriminate.
  - destruct AD as [Hxy AD]. destruct i as [|i].
    + simpl in *. congruence.
    + apply (IH i AD); assumption.
Qed.

Lemma IdInSeparatedRuns_iff (l : list TGroupId) :
  IdInSeparatedRuns l <-> ~ NoDup (RunIds l).
Proof.
  split.
  - intros (i & j & a & Hij & Hi & Hj) ND.
    rewrite NoDup_nth_error in ND.
    assert (i = j) by (apply ND; [apply nth_error_Some; congruence | congruence]).
    lia.
  - intros HN. unfold IdInSeparatedRuns.
    assert (D : forall s : list TGroupId, AdjacentDistinct s -> ~ NoDup s ->
              exists i j a, (i + 1 < j)%nat /\ nth_error s i = Some a /\ nth_error s j = Some a).
    { clear. induction s as [|x t IH]; intros AD HN.
      - exfalso. apply HN. constructor.
      - destruct (in_dec N.eq_dec x t) as [Hin|Hnin].
        + apply In_nth_error in Hin. destruct Hin as [k Hk].
          destruct k as [|k].
          * exfalso. destruct t as [|y t']; [discriminate|].
            simpl in Hk. injection Hk as ->. destruct AD as [Hxy _]. now apply Hxy.
          * exists 0%nat, (S (S k)), x. repeat split; [lia | assumption].
        + assert (AD' : AdjacentDistinct t) by (destruct t; [exact I | apply AD]).
          destruct (IH AD') as (i & j & a & Hij & Hi & Hj).
          { intros ND. apply HN. now constructor. }
          exists (S i), (S j), a. repeat split; [lia | assumption | assumption]. }
    apply D; [apply RunIds_adjacent_distinct | assumption].
Qed.

(* ------------------------------------------------------------------ *)
(** *** The scanning loop computes the runs *)

Lemma size_app {A : Type} (l1 l2 : list A) : size (l1 ++ l2) = size l1 + size l2.
Proof. unfold size. rewrite length_app. lia. Qed.

Lemma size_cons {A : Type} (x : A) (l : list A) : size (x :: l) = 1 + size l.
Proof. unfold size. simpl length. lia. Qed.

Lemma nth_middle_N (pre rest : list TGroupId) (x : TGroupId) :
  nth (N.to_nat (size pre)) (pre ++ x :: rest) 0 = x.
Proof. unfold size. rewrite Nat2N.id. apply nth_middle. Qed.

Lemma scan_step_at (pre rest : list TGroupId) (x : TGroupId) (st : TScan) :
  scan_step (pre ++ x :: rest) st (size pre) =
  if x =? lastGroupId st then st
  else mkScan (size pre) x (groupGroupIds st ++ [x])
              (groupBounds st ++ [mkBounds (lastGroupBegin st) (size pre)]).
Proof.
  unfold scan_step. rewrite nth_middle_N.
  now destruct (x =? lastGroupId st).
Qed.

Lemma scan_loop_spec (rest pre : list TGroupId) (st : TScan) :
  let st' := fold_left (scan_step (pre ++ rest))
                       (map N.of_nat (seq (length pre) (length rest))) st in
  let r := scan_rest (lastGroupId st) (lastGroupBegin st) (size pre) rest in
  groupGroupIds st' = groupGroupIds st ++ fst r /\
  groupBounds st' ++ [mkBounds (lastGroupBegin st') (size pre + size rest)]
    = groupBounds st ++ snd r.
Proof.
  revert pre st. induction rest as [|x t IH]; intros pre st; cbn zeta.
  - simpl. rewrite app_nil_r. unfold size at 2. simpl. rewrite N.add_0_r. auto.
  - cbn [length seq map fold_left scan_rest].
    specialize (IH (pre ++ [x])).
    rewrite <- app_assoc in IH. cbn [app] in IH.
    rewrite length_app in IH. cbn [length] in IH. rewrite Nat.add_1_r in IH.
    rewrite size_app in IH. change (size [x]) with 1 in IH.
    rewrite size_cons. rewrite N.add_assoc.
    change (N.of_nat (length pre)) with (size pre).
    rewrite scan_step_at.
    destruct (x =? lastGroupId st) eqn:E.
    + apply IH.
    + specialize (IH (mkScan (size pre) x (groupGroupIds st ++ [x])
                        (groupBounds st ++ [mkBounds (lastGroupBegin st) (size pre)]))).
      cbn [lastGroupId lastGroupBegin groupGroupIds groupBounds] in IH.
      destruct (scan_rest x (size pre) (size pre + 1) t) as [ids bs].
      cbn [fst snd] in *. rewrite <- !app_assoc in IH. exact IH.
Qed.

Lemma scan_rest_Runs (t : list TGroupId) (x : TGroupId) (b p : N) :
  scan_rest x b (p + 1) t =
  (tl (RunIds (x :: t)),
   match Runs (x :: t) with
   | r0 :: rs => mkBounds b (p + size r0) :: bounds_from (p + size r0) rs
   | [] => []
   end).
Proof.
  revert x b p. induction t as [|y t' IH]; intros x b p.
  - reflexivity.
  - cbn [scan_rest]. rewrite RunIds_step.
    change (Runs (x :: y :: t')) with
      (match Runs (y :: t') with
       | (z :: r) :: rs => if x =? z then (x :: z :: r) :: rs else [x] :: (z :: r) :: rs
       | _ => [[x]]
       end).
    rewrite (N.eqb_sym y x).
    destruct (Runs_cons_shape y t') as (r & rs & HR). rewrite HR.
    destruct (x =? y) eqn:E.
    + apply N.eqb_eq in E. subst y. rewrite IH. rewrite HR.
      rewrite !size_cons.
      replace (p + 1 + (1 + size r)) with (p + (1 + (1 + size r))) by lia. reflexivity.
    + rewrite IH. rewrite HR. cbn [bounds_from].
      destruct (RunIds_cons y t') as (ids & Hids). rewrite Hids. cbn [tl].
      change (size [x]) with 1. reflexivity.
Qed.

Lemma xrange_from_1 (l : list TGroupId) (x : TGroupId) :
  size (x :: l) < 2 ^ 32 ->
  xrange (ui32 1) (ui32 (size (x :: l))) = map N.of_nat (seq (length [x]) (length l)).
Proof.
  intros H. unfold xrange, ui32.
  rewrite (N.mod_small 1) by (apply N.pow_gt_1; lia).
  rewrite N.mod_small by assumption.
  unfold size. rewrite Nat2N.id. simpl length.
  f_equal. f_equal. lia.
Qed.

(** What the function returns on a non-empty sequence of the announced
    length: the bounds of the runs, unless a run identifier is repeated. *)
Lemma CreateObjectsGroupingFromGroupIds_eq (objectCount : N) (x : TGroupId) (t : list TGroupId) :
  objectCount < 2 ^ 32 ->
  size (x :: t) = objectCount ->
  CreateObjectsGroupingFromGroupIds objectCount (Some (x :: t)) =
    CB_ENSURE (is_end (adjacent_find (Sort (RunIds (x :: t)))))
              "group Ids are not consecutive" ;;;
    Ok (ExplicitGrouping (RunBounds (x :: t))).
Proof.
  intros Hlt Hsz. unfold CreateObjectsGroupingFromGroupIds, CheckDataSize.
  rewrite Hsz, N.eqb_refl. cbn [orb CB_ENSURE bind nth_error].
  rewrite <- Hsz in Hlt |- *.
  rewrite (xrange_from_1 t x Hlt).
  pose proof (scan_loop_spec t [x] (mkScan 0 x [x] [])) as H.
  cbn zeta in H. cbn [lastGroupId lastGroupBegin groupGroupIds groupBounds] in H.
  change ([x] ++ t) with (x :: t) in H.
  change (size [x]) with (0 + 1) in H.
  rewrite scan_rest_Runs in H. cbn [fst snd] in H.
  destruct H as [Hids Hbs].
  set (st := fold_left _ _ _) in *.
  rewrite Hids.
  destruct (RunIds_cons x t) as (ids & Hr). rewrite Hr. cbn [tl app].
  assert (HB : groupBounds st ++ [mkBounds (lastGroupBegin st) (ui32 (size (x :: t)))]
               = RunBounds (x :: t)).
  { unfold ui32. rewrite N.mod_small by assumption.
    replace (size (x :: t)) with (0 + 1 + size t) by (rewrite size_cons; lia).
    rewrite Hbs. unfold RunBounds. cbn [app].
    destruct (Runs_cons_shape x t) as (r & rs & ->). cbn [bounds_from].
    reflexivity. }
  rewrite HB. reflexivity.
Qed.

(* ------------------------------------------------------------------ *)
(** *** The bounds of the runs partition the rows *)

Lemma bounds_from_length (rs : list (list TGroupId)) (start : N) :
  length (bounds_from start rs) = length rs.
Proof. revert start. induction rs; intros; simpl; auto. Qed.

Lemma bounds_from_Contiguous (rs : list (list TGroupId)) (start : N) :
  Forall (fun r => r <> []) rs ->
  Contiguous start (bounds_from start rs) (start + size (concat rs)).
Proof.
  revert start. induction rs as [|r rs IH]; intros start NE; simpl.
  - unfold size. simpl. lia.
  - inversion NE as [|? ? Hr Hrs]; subst. repeat split.
    + destruct r; [congruence|]. rewrite size_cons. lia.
    + rewrite size_app, N.add_assoc. now apply IH.
Qed.

Lemma bounds_from_cover (rs : list (list TGroupId)) (pre : list TGroupId)
    (i : nat) (b : TGroupBounds) (r : list TGroupId) :
  nth_error (bounds_from (size pre) rs) i = Some b ->
  nth_error rs i = Some r ->
  End b = Begin b + size r /\
  firstn (length r) (skipn (N.to_nat (Begin b)) (pre ++ concat rs)) = r.
Proof.
  revert pre i. induction rs as [|r0 rs IH]; intros pre i Hb Hr.
  - destruct i; discriminate.
  - destruct i as [|i]; simpl in Hb, Hr.
    + injection Hb as <-. injection Hr as ->. simpl. split; [reflexivity|].
      unfold size. rewrite Nat2N.id, skipn_app, skipn_all, Nat.sub_diag. simpl.
      rewrite firstn_app, firstn_all, Nat.sub_diag. simpl. apply app_nil_r.
    + rewrite <- size_app in Hb. simpl concat. rewrite app_assoc.
      now apply (IH (pre ++ r0) i).
Qed.

Lemma RunBounds_Contiguous (l : list TGroupId) : Contiguous 0 (RunBounds l) (size l).
Proof.
  pose proof (bounds_from_Contiguous (Runs l) 0 (Runs_nonempty l)) as H.
  now rewrite Runs_concat in H.
Qed.

Lemma RunBounds_cover (l : list TGroupId) (i : nat) (b : TGroupBounds) (r : list TGroupId) :
  nth_error (RunBounds l) i = Some b ->
  nth_error (Runs l) i = Some r ->
  End b = Begin b + size r /\
  firstn (length r) (skipn (N.to_nat (Begin b)) l) = r.
Proof.
  intros Hb Hr.
  pose proof (bounds_from_cover (Runs l) [] i b r Hb Hr) as H.
  simpl in H. now rewrite Runs_concat in H.
Qed.

(** X1: on a non-empty sequence of [n] rows made of [k] maximal runs, no
    identifier repeated by two separated runs, the function returns exactly
    [k] groups; their bounds follow one another from row 0 to row [n], and
    the i-th group covers exactly the i-th run. *)
Theorem CreateObjectsGroupingFromGroupIds_partition
    (objectCount : N) (l : list TGroupId) :
  objectCount < 2 ^ 32 ->
  size l = objectCount ->
  l <> [] ->
  ~ IdInSeparatedRuns l ->
  CreateObjectsGroupingFromGroupIds objectCount (Some l)
    = Ok (ExplicitGrouping (RunBounds l)) /\
  length (RunBounds l) = length (Runs l) /\
  Contiguous 0 (RunBounds l) objectCount /\
  (forall i b r,
      nth_error (RunBounds l) i = Some b ->
      nth_error (Runs l) i = Some r ->
      End b = Begin b + size r /\
      firstn (length r) (skipn (N.to_nat (Begin b)) l) = r).
Proof.
  intros Hlt Hsz Hne Hsep.
  destruct l as [|x t]; [congruence|].
  repeat split.
  - rewrite (CreateObjectsGroupingFromGroupIds_eq objectCount x t Hlt Hsz).
    assert (ND : NoDup (RunIds (x :: t))).
    { destruct (ListDec.NoDup_dec N.eq_dec (RunIds (x :: t))) as [ND|ND]; auto.
      exfalso. apply Hsep. now apply IdInSeparatedRuns_iff. }
    apply adjacent_find_Sort in ND. now rewrite ND.
  - apply bounds_from_length.
  - rewrite <- Hsz. apply RunBounds_Contiguous.
  - eapply RunBounds_cover; eassumption.
  - eapply RunBounds_cover; eassumption.
Qed.

Lemma CreateObjectsGroupingFromGroupIds_partition_witness :
  CreateObjectsGroupingFromGroupIds 5 (Some [7; 7; 3; 9; 9])
    = Ok (ExplicitGrouping [mkBounds 0 2; mkBounds 2 3; mkBounds 3 5]).
Proof.
  refine (proj1 (CreateObjectsGroupingFromGroupIds_partition 5 [7; 7; 3; 9; 9] _ _ _ _)).
  - reflexivity.
  - reflexivity.
  - discriminate.
  - intros H. apply IdInSeparatedRuns_iff in H. apply H.
    change (RunIds [7; 7; 3; 9; 9]) with [7; 3; 9].
    repeat constructor; simpl; intuition discriminate.
Defined.

(** C1, at no rows: for row count 0 the size check accepts the empty
    sequence, and the function then reads [groupIdsData[0]] outside the
    array; it does not return the grouping of 0 groups that the 0 runs of
    the empty sequence call for, and that the same call without group
    identifiers returns. *)
Theorem CreateObjectsGroupingFromGroupIds_no_rows :
  CheckDataSize (size (@nil TGroupId)) 0 "group Ids" false "" false = Ok tt /\
  CreateObjectsGroupingFromGroupIds 0 (Some []) = Undefined /\
  CreateObjectsGroupingFromGroupIds 0 None = Ok (TrivialGrouping 0) /\
  GetGroupCount (TrivialGrouping 0) = 0 /\
  length (Runs []) = 0%nat.
Proof. repeat split. Qed.

(** C3: a sequence in which some identifier is repeated by two runs that
    are not adjacent is refused with the input-validation error "group Ids
    are not consecutive"; no grouping is returned. *)
Theorem CreateObjectsGroupingFromGroupIds_not_consecutive
    (objectCount : N) (l : list TGroupId) :
  objectCount < 2 ^ 32 ->
  size l = objectCount ->
  IdInSeparatedRuns l ->
  CreateObjectsGroupingFromGroupIds objectCount (Some l)
    = Throw "group Ids are not consecutive" /\
  IsInternalError "group Ids are not consecutive" = false.
Proof.
  intros Hlt Hsz Hsep. split; [|reflexivity].
  destruct l as [|x t].
  - destruct Hsep as (i & j & a & _ & Hi & _). destruct i; discriminate.
  - rewrite (CreateObjectsGroupingFromGroupIds_eq objectCount x t Hlt Hsz).
    apply IdInSeparatedRuns_iff in Hsep.
    destruct (is_end (adjacent_find (Sort (RunIds (x :: t))))) eqn:E; [|reflexivity].
    exfalso. apply Hsep. now apply adjacent_find_Sort.
Qed.

Lemma CreateObjectsGroupingFromGroupIds_not_consecutive_witness :
  CreateObjectsGroupingFromGroupIds 6 (Some [1; 1; 2; 2; 1; 1])
    = Throw "group Ids are not consecutive" /\
  IsInternalError "group Ids are not consecutive" = false.
Proof.
  apply (CreateObjectsGroupingFromGroupIds_not_consecutive 6 [1; 1; 2; 2; 1; 1]).
  - reflexivity.
  - reflexivity.
  - exists 0%nat, 2%nat, 1. repeat split. lia.
Defined.

(* ================================================================== *)
(** ** [CheckGroupIds] against an existing grouping *)
(* ================================================================== *)

Example CheckGroupIds_ex1 :
  CheckGroupIds 5 (Some [7; 7; 3; 9; 9])
    (Some (ExplicitGrouping [mkBounds 0 2; mkBounds 2 3; mkBounds 3 5])) = Ok tt.
Proof. vm_compute. reflexivity. Qed.

Example CheckGroupIds_ex2 :
  CheckGroupIds 5 (Some [7; 7; 3; 9; 9])
    (Some (ExplicitGrouping [mkBounds 0 1; mkBounds 1 3; mkBounds 3 5]))
  = Throw (INTERNAL_ERROR_MSG ++
      "objectsGrouping and grouping by groupId have different ends for group #0")%string.
Proof. vm_compute. reflexivity. Qed.

Example CheckGroupIds_ex3 :
  CheckGroupIds 4 (Some [7; 7; 7; 7])
    (Some (ExplicitGrouping [mkBounds 0 2; mkBounds 2 4])) = Ok tt.
Proof. vm_compute. reflexivity. Qed.

Lemma prefix_app (s t : string) : String.prefix s (s ++ t) = true.
Proof.
  induction s as [|a s IH]; simpl.
  - now destruct t.
  - destruct (ascii_dec a a); [exact IH | congruence].
Qed.

Lemma CB_ENSURE_INTERNAL_false (msg : string) :
  exists w, CB_ENSURE_INTERNAL false msg = Throw w /\ IsInternalError w = true.
Proof.
  exists (INTERNAL_ERROR_MSG ++ msg)%string. split; [reflexivity | apply prefix_app].
Qed.

Lemma fold_check_Throw (og : option TObjectsGrouping) (l : list TGroupId)
    (idxs : list N) (w : string) :
  fold_left (fun acc objectIdx => s <- acc ;; check_step og l s objectIdx) idxs (Throw w)
  = Throw w.
Proof. induction idxs as [|i idxs IH]; simpl; auto. Qed.

Lemma fold_check_Undefined (og : option TObjectsGrouping) (l : list TGroupId) (idxs : list N) :
  fold_left (fun acc objectIdx => s <- acc ;; check_step og l s objectIdx) idxs Undefined
  = Undefined.
Proof. induction idxs as [|i idxs IH]; simpl; auto. Qed.

Lemma check_step_at (og : option TObjectsGrouping) (pre rest : list TGroupId)
    (x : TGroupId) (st : TCheckScan) :
  check_step og (pre ++ x :: rest) st (size pre) =
  if x =? checkLastGroupId st then Ok st
  else current <- check_boundary og (currentGroupBounds st)
                    (size (checkGroupGroupIds st)) (size pre) ;;
       Ok (mkCheckScan current x (checkGroupGroupIds st ++ [x])).
Proof.
  unfold check_step. rewrite nth_middle_N.
  now destruct (x =? checkLastGroupId st).
Qed.

Lemma check_loop_spec (og : option TObjectsGrouping) (rest pre : list TGroupId)
    (st : TCheckScan) :
  fmap checkGroupGroupIds
    (fold_left (fun acc objectIdx => s <- acc ;; check_step og (pre ++ rest) s objectIdx)
               (map N.of_nat (seq (length pre) (length rest))) (Ok st))
  = fmap (app (checkGroupGroupIds st))
      (check_rest og (currentGroupBounds st) (checkLastGroupId st)
                  (size (checkGroupGroupIds st)) (size pre) rest).
Proof.
  revert pre st. induction rest as [|x t IH]; intros pre st.
  - simpl. now rewrite app_nil_r.
  - cbn [length seq map fold_left check_rest].
    specialize (IH (pre ++ [x])).
    rewrite <- app_assoc in IH. cbn [app] in IH.
    rewrite length_app in IH. cbn [length] in IH. rewrite Nat.add_1_r in IH.
    rewrite size_app in IH. change (size [x]) with 1 in IH.
    change (N.of_nat (length pre)) with (size pre).
    cbn [bind]. rewrite check_step_at.
    destruct (x =? checkLastGroupId st) eqn:E.
    + apply IH.
    + destruct (check_boundary og (currentGroupBounds st)
                  (size (checkGroupGroupIds st)) (size pre)) as [c|w|]; cbn [bind].
      * rewrite IH. cbn [currentGroupBounds checkLastGroupId checkGroupGroupIds].
        rewrite size_app. change (size [x]) with 1.
        destruct (check_rest og c x (size (checkGroupGroupIds st) + 1) (size pre + 1) t);
          cbn [fmap bind]; try reflexivity.
        now rewrite <- app_assoc.
      * now rewrite fold_check_Throw.
      * now rewrite fold_check_Undefined.
Qed.

Lemma check_rest_None (rest : list TGroupId) (c : TGroupBounds) (gl : TGroupId)
    (cnt idx b : N) :
  check_rest None c gl cnt idx rest = Ok (fst (scan_rest gl b idx rest)).
Proof.
  revert c gl cnt idx b. induction rest as [|x t IH]; intros c gl cnt idx b.
  - reflexivity.
  - cbn [check_rest scan_rest]. destruct (x =? gl).
    + apply IH.
    + cbn [check_boundary bind]. rewrite (IH c x (cnt + 1) (idx + 1) idx).
      destruct (scan_rest x idx (idx + 1) t). reflexivity.
Qed.

Lemma GetGroup_first (g : TObjectsGrouping) :
  0 < GetObjectCount g -> exists c, GetGroup g 0 = Ok c.
Proof.
  destruct g as [n|b]; unfold GetGroup; simpl; intros H.
  - apply N.ltb_lt in H. rewrite H. simpl. eauto.
  - destruct b as [|b0 b']; [simpl in H; lia|].
    rewrite size_cons. replace (0 <? 1 + size b') with true by (symmetry; apply N.ltb_lt; lia).
    simpl. eauto.
Qed.

Lemma GetGroup_next (g : TObjectsGrouping) (j : nat) (c : TGroupBounds) :
  GetGroup g (N.of_nat j) = Ok c ->
  End c < GetObjectCount g ->
  exists c', GetGroup g (N.of_nat (S j)) = Ok c'.
Proof.
  destruct g as [n|b]; unfold GetGroup; simpl GetGroupCount; simpl GetObjectCount.
  - destruct (N.of_nat j <? n) eqn:E; [|discriminate]. cbn [CB_ENSURE bind].
    intros [= <-]. simpl End. intros H.
    replace (N.of_nat (S j) <? n) with true by (symmetry; apply N.ltb_lt; lia).
    cbn [CB_ENSURE bind]. eauto.
  - destruct (N.of_nat j <? size b) eqn:E; [|discriminate]. cbn [CB_ENSURE bind].
    rewrite Nat2N.id. destruct (nth_error b j) as [c0|] eqn:Hj; [|discriminate].
    intros [= ->] H.
    assert (Hlen : (S j < length b)%nat).
    { apply nth_error_split in Hj. destruct Hj as (l1 & l2 & -> & Hl1).
      destruct l2 as [|d l2].
      - rewrite last_last in H. lia.
      - rewrite length_app. simpl. lia. }
    replace (N.of_nat (S j) <? size b) with true
      by (symmetry; apply N.ltb_lt; unfold size; lia).
    cbn [CB_ENSURE bind]. rewrite Nat2N.id.
    destruct (nth_error b (S j)) eqn:E'; [eauto|].
    apply nth_error_None in E'. lia.
Qed.

(** With a grouping supplied, the scan either agrees with the scan without
    one (every change falls on the end of its group) or stops on the
    internal-consistency check. *)
Lemma check_rest_Some (g : TObjectsGrouping) (n : N) (rest : list TGroupId) :
  GetObjectCount g = n -> n < 2 ^ 32 ->
  forall (c : TGroupBounds) (gl : TGroupId) (j : nat) (idx : N),
    idx + size rest = n ->
    N.of_nat j < idx ->
    GetGroup g (N.of_nat j) = Ok c ->
    if ends_agree g j (changes gl idx rest)
    then check_rest (Some g) c gl (N.of_nat j + 1) idx rest
         = Ok (fst (scan_rest gl 0 idx rest))
    else exists w, check_rest (Some g) c gl (N.of_nat j + 1) idx rest = Throw w
                   /\ IsInternalError w = true.
Proof.
  intros Hg Hn. induction rest as [|x t IH]; intros c gl j idx Hsz Hj Hc.
  - reflexivity.
  - rewrite size_cons in Hsz. cbn [check_rest changes scan_rest].
    destruct (x =? gl) eqn:E.
    + apply IH; [lia | lia | assumption].
    + cbn [ends_agree]. rewrite Hc. cbn [check_boundary].
      rewrite (N.eqb_sym idx (End c)).
      destruct (End c =? idx) eqn:Eend; cbn [andb].
      * apply N.eqb_eq in Eend.
        destruct (GetGroup_next g j c Hc) as [c' Hc']; [lia|].
        cbn [CB_ENSURE_INTERNAL CB_ENSURE bind].
        unfold ui32. rewrite N.mod_small by lia.
        replace (N.of_nat j + 1) with (N.of_nat (S j)) by lia.
        rewrite Hc'. cbn [bind].
        specialize (IH c' x (S j) (idx + 1)).
        replace (N.of_nat (S j) + 1) with (N.of_nat (S j) + 1) in IH by reflexivity.
        destruct (ends_agree g (S j) (changes x (idx + 1) t)).
        -- rewrite IH by (try assumption; lia). cbn [bind].
           rewrite (surjective_pairing (scan_rest x idx (idx + 1) t)).
           pose proof (check_rest_None t c x 0 (idx + 1) 0) as H0.
           pose proof (check_rest_None t c x 0 (idx + 1) idx) as H1.
           rewrite H0 in H1. injection H1 as H1. rewrite H1. reflexivity.
        -- destruct IH as (w & Hw & Hi); try assumption; try lia.
           exists w. rewrite Hw. auto.
      * destruct (CB_ENSURE_INTERNAL_false
                    ("objectsGrouping and grouping by groupId have different ends for group #"
                       ++ ToString (N.of_nat j + 1 - 1))) as (w & Hw & Hi).
        exists w. rewrite Hw. auto.
Qed.

Lemma ChangePositions_changes_gen (rest pre0 : list TGroupId) (gl : TGroupId) :
  filter (fun p => negb (nth (N.to_nat p) (pre0 ++ gl :: rest) 0
                         =? nth (N.to_nat p - 1) (pre0 ++ gl :: rest) 0))
         (map N.of_nat (seq (S (length pre0)) (length rest)))
  = changes gl (size pre0 + 1) rest.
Proof.
  revert pre0 gl. induction rest as [|x t IH]; intros pre0 gl.
  - reflexivity.
  - cbn [length seq map filter changes].
    rewrite Nat2N.id.
    replace (nth (S (length pre0)) (pre0 ++ gl :: x :: t) 0) with x.
    2:{ change (pre0 ++ gl :: x :: t) with (pre0 ++ [gl] ++ x :: t).
        rewrite app_assoc.
        replace (S (length pre0)) with (length (pre0 ++ [gl]))
          by (rewrite length_app; simpl; lia).
        now rewrite nth_middle. }
    replace (S (length pre0) - 1)%nat with (length pre0) by lia.
    rewrite nth_middle.
    specialize (IH (pre0 ++ [gl]) x).
    rewrite <- app_assoc in IH. cbn [app] in IH.
    rewrite length_app in IH. cbn [length] in IH. rewrite Nat.add_1_r in IH.
    rewrite size_app in IH. change (size [gl]) with 1 in IH.
    replace (N.of_nat (S (length pre0))) with (size pre0 + 1) by (unfold size; lia).
    rewrite IH.
    destruct (x =? gl) eqn:E; cbn [negb]; [|reflexivity].
    apply N.eqb_eq in E. now subst.
Qed.

Lemma ChangePositions_changes (x : TGroupId) (t : list TGroupId) :
  ChangePositions (x :: t) = changes x 1 t.
Proof.
  unfold ChangePositions, xrange. rewrite size_cons.
  replace (N.to_nat (1 + size t) - N.to_nat 1)%nat with (length t) by (unfold size; lia).
  apply (ChangePositions_changes_gen t [] x).
Qed.

Lemma ends_agree_false (g : TObjectsGrouping) (ps : list N) (j : nat) :
  ends_agree g j ps = false <->
  exists (i : nat) (p : N),
    nth_error ps i = Some p /\
    forall b, GetGroup g (N.of_nat (j + i)) = Ok b -> End b <> p.
Proof.
  revert j. induction ps as [|p ps IH]; intros j; cbn [ends_agree].
  - split; [discriminate|]. intros (i & p & Hi & _). destruct i; discriminate.
  - split.
    + intros H. destruct (GetGroup g (N.of_nat j)) as [b| |] eqn:Hb.
      * destruct (End b =? p) eqn:E.
        -- cbn [andb] in H. apply IH in H. destruct H as (i & q & Hi & Hq).
           exists (S i), q. split; [exact Hi|].
           replace (j + S i)%nat with (S j + i)%nat by lia. exact Hq.
        -- exists 0%nat, p. split; [reflexivity|].
           rewrite Nat.add_0_r, Hb. intros b' [= <-]. now apply N.eqb_neq.
      * exists 0%nat, p. split; [reflexivity|]. rewrite Nat.add_0_r, Hb. discriminate.
      * exists 0%nat, p. split; [reflexivity|]. rewrite Nat.add_0_r, Hb. discriminate.
    + intros (i & q & Hi & Hq).
      destruct (GetGroup g (N.of_nat j)) as [b| |] eqn:Hb; try reflexivity.
      destruct i as [|i].
      * injection Hi as <-. rewrite Nat.add_0_r in Hq. specialize (Hq b Hb).
        apply N.eqb_neq in Hq. now rewrite Hq.
      * replace (ends_agree g (S j) ps) with false; [apply andb_false_r|].
        symmetry. apply IH. exists i, q. split; [exact Hi|].
        replace (S j + i)%nat with (j + S i)%nat by lia. exact Hq.
Qed.

Lemma BoundaryMismatch_iff (l : list TGroupId) (g : TObjectsGrouping) :
  BoundaryMismatch l g <-> ends_agree g 0 (ChangePositions l) = false.
Proof. symmetry. apply (ends_agree_false g (ChangePositions l) 0). Qed.

(** What [CheckGroupIds] returns when a grouping of the same object count
    is supplied with a non-empty identifier sequence. *)
Lemma CheckGroupIds_with_grouping (objectCount : N) (x : TGroupId) (t : list TGroupId)
    (g : TObjectsGrouping) :
  objectCount < 2 ^ 32 ->
  size (x :: t) = objectCount ->
  GetObjectCount g = objectCount ->
  if ends_agree g 0 (ChangePositions (x :: t))
  then CheckGroupIds objectCount (Some (x :: t)) (Some g)
       = CB_ENSURE (is_end (adjacent_find (Sort (RunIds (x :: t)))))
                   "group Ids are not consecutive"
  else exists w, CheckGroupIds objectCount (Some (x :: t)) (Some g) = Throw w
                 /\ IsInternalError w = true.
Proof.
  intros Hlt Hsz Hg. subst objectCount. unfold CheckGroupIds, CheckDataSize.
  rewrite Hg, N.eqb_refl. cbn [orb CB_ENSURE bind nth_error].
  destruct (GetGroup_first g) as [c Hc]; [rewrite Hg, size_cons; lia|].
  rewrite Hc. cbn [bind].
  rewrite (xrange_from_1 t x Hlt).
  pose proof (check_loop_spec (Some g) t [x] (mkCheckScan c x [x])) as HL.
  cbn [currentGroupBounds checkLastGroupId checkGroupGroupIds] in HL.
  change ([x] ++ t) with (x :: t) in HL. change (size [x]) with 1 in HL.
  pose proof (check_rest_Some g (size (x :: t)) t Hg Hlt c x 0%nat 1) as HS.
  rewrite ChangePositions_changes.
  change (N.of_nat 0 + 1) with 1 in HS.
  destruct (ends_agree g 0 (changes x 1 t)).
  - rewrite HS in HL by (try assumption; rewrite ?size_cons; reflexivity || lia).
    set (F := fold_left _ _ _) in *. destruct F as [st|w|]; cbn [fmap bind] in HL;
      try discriminate.
    injection HL as HL. cbn [bind]. rewrite HL.
    pose proof (scan_rest_Runs t x 0 0) as HR. change (0 + 1) with 1 in HR.
    rewrite HR. cbn [fst].
    destruct (RunIds_cons x t) as (ids & ->). reflexivity.
  - destruct HS as (w & Hw & Hi); try assumption;
      try (rewrite ?size_cons; reflexivity || lia).
    rewrite Hw in HL. set (F := fold_left _ _ _) in *.
    destruct F as [st|w'|]; cbn [fmap bind] in HL; try discriminate.
    injection HL as ->. exists w. auto.
Qed.

(** C7: called with an identifier sequence and an existing grouping of the
    same object count, [CheckGroupIds] raises an internal-consistency error
    whenever some change of identifier does not fall exactly on the end of
    the corresponding group; the error differs in kind from the
    input-validation error raised for non-consecutive identifiers. *)
Theorem CheckGroupIds_boundary_mismatch
    (objectCount : N) (l : list TGroupId) (g : TObjectsGrouping) :
  objectCount < 2 ^ 32 ->
  size l = objectCount ->
  GetObjectCount g = objectCount ->
  BoundaryMismatch l g ->
  exists w,
    CheckGroupIds objectCount (Some l) (Some g) = Throw w /\
    IsInternalError w = true /\
    IsInternalError "group Ids are not consecutive" = false.
Proof.
  intros Hlt Hsz Hg Hmis.
  destruct l as [|x t].
  - destruct Hmis as (i & p & Hi & _). destruct i; discriminate.
  - pose proof (CheckGroupIds_with_grouping objectCount x t g Hlt Hsz Hg) as H.
    apply BoundaryMismatch_iff in Hmis. rewrite Hmis in H.
    destruct H as (w & Hw & Hi). exists w. auto.
Qed.

Lemma CheckGroupIds_boundary_mismatch_witness :
  exists w,
    CheckGroupIds 5 (Some [7; 7; 3; 9; 9])
      (Some (ExplicitGrouping [mkBounds 0 2; mkBounds 2 4; mkBounds 4 5])) = Throw w /\
    IsInternalError w = true /\
    IsInternalError "group Ids are not consecutive" = false.
Proof.
  apply (CheckGroupIds_boundary_mismatch 5 [7; 7; 3; 9; 9]
           (ExplicitGrouping [mkBounds 0 2; mkBounds 2 4; mkBounds 4 5])).
  - reflexivity.
  - reflexivity.
  - reflexivity.
  - exists 1%nat, 3. split; [reflexivity|].
    intros b Hb. vm_compute in Hb. injection Hb as <-. discriminate.
Defined.

(** X2: when every change of identifier falls on the end of its group, the
    supplied grouping adds no failure: the outcome is the one of the
    consecutiveness check alone, never an internal-consistency error. *)
Theorem CheckGroupIds_boundaries_agree
    (objectCount : N) (l : list TGroupId) (g : TObjectsGrouping) :
  objectCount < 2 ^ 32 ->
  size l = objectCount ->
  GetObjectCount g = objectCount ->
  l <> [] ->
  ~ BoundaryMismatch l g ->
  CheckGroupIds objectCount (Some l) (Some g)
  = CB_ENSURE (is_end (adjacent_find (Sort (RunIds l)))) "group Ids are not consecutive".
Proof.
  intros Hlt Hsz Hg Hne Hmis.
  destruct l as [|x t]; [congruence|].
  pose proof (CheckGroupIds_with_grouping objectCount x t g Hlt Hsz Hg) as H.
  destruct (ends_agree g 0 (ChangePositions (x :: t))) eqn:E; [exact H|].
  exfalso. apply Hmis. now apply BoundaryMismatch_iff.
Qed.

Lemma CheckGroupIds_boundaries_agree_witness :
  CheckGroupIds 5 (Some [7; 7; 3; 9; 9])
    (Some (ExplicitGrouping [mkBounds 0 2; mkBounds 2 3; mkBounds 3 5]))
  = CB_ENSURE (is_end (adjacent_find (Sort (RunIds [7; 7; 3; 9; 9]))))
              "group Ids are not consecutive".
Proof.
  apply (CheckGroupIds_boundaries_agree 5 [7; 7; 3; 9; 9]
           (ExplicitGrouping [mkBounds 0 2; mkBounds 2 3; mkBounds 3 5])).
  - reflexivity.
  - reflexivity.
  - reflexivity.
  - discriminate.
  - intros H. apply BoundaryMismatch_iff in H. discriminate H.
Defined.

(* ================================================================== *)
(** ** Order promotion in the provider's constructor *)
(* ================================================================== *)

Example TObjectsDataProvider_new_ex1 :
  TObjectsDataProvider_new None
    (mkCommonObjectsData (Some (mkFeaturesLayout [] [])) (TFullSubset 3) OrderUndefined
                         None None (Some [10; 20; 30])) false
  = Ok (mkObjectsDataProvider (TrivialGrouping 3)
          (mkCommonObjectsData (Some (mkFeaturesLayout [] [])) (TFullSubset 3) Ordered
                               None None (Some [10; 20; 30]))).
Proof. vm_compute. reflexivity. Qed.

Example TObjectsDataProvider_new_ex2 :
  TObjectsDataProvider_new None
    (mkCommonObjectsData (Some (mkFeaturesLayout [] [])) (TFullSubset 3) OrderUndefined
                         None None (Some [10; 10; 10])) false
  = Ok (mkObjectsDataProvider (TrivialGrouping 3)
          (mkCommonObjectsData (Some (mkFeaturesLayout [] [])) (TFullSubset 3) OrderUndefined
                               None None (Some [10; 10; 10]))).
Proof. vm_compute. reflexivity. Qed.

Lemma is_sorted_increasing (ts : list N) : StrictlyIncreasing ts -> is_sorted ts = true.
Proof.
  induction ts as [|x [|y t] IH]; intros H; try reflexivity.
  change (is_sorted (x :: y :: t)) with (negb (y <? x) && is_sorted (y :: t)).
  apply andb_true_iff. split.
  - apply negb_true_iff, N.ltb_ge.
    apply N.lt_le_incl. apply (H 0%nat 1%nat); [lia | reflexivity | reflexivity].
  - apply IH. intros i j a b Hij Hi Hj. apply (H (S i) (S j)); [lia | exact Hi | exact Hj].
Qed.

Lemma front_back_increasing (ts : list N) :
  StrictlyIncreasing ts -> ~ AllEqual ts ->
  exists f b, front ts = Ok f /\ back ts = Ok b /\ f <> b.
Proof.
  intros Hinc Hne.
  destruct ts as [|x t].
  - exfalso. apply Hne. intros a b [].
  - destruct t as [|y t'].
    + exfalso. apply Hne. intros a b [<-|[]] [<-|[]]. reflexivity.
    + exists x, (last (x :: y :: t') 0). repeat split.
      assert (E : exists k, nth_error (x :: y :: t') (S k) = Some (last (x :: y :: t') 0)).
      { exists (length t').
        change (last (x :: y :: t') 0) with (last (y :: t') 0).
        change (nth_error (x :: y :: t') (S (length t'))) with (nth_error (y :: t') (length t')).
        destruct (@exists_last _ (y :: t')) as (l' & z & Hz); [discriminate|].
        rewrite Hz, last_last.
        assert (length t' = length l').
        { apply (f_equal (@length N)) in Hz. rewrite length_app in Hz. simpl in Hz. lia. }
        rewrite H. rewrite nth_error_app2 by lia. now rewrite Nat.sub_diag. }
      destruct E as [k Hk].
      pose proof (Hinc 0%nat (S k) x _ ltac:(lia) eq_refl Hk). lia.
Qed.

Lemma front_back_equal (ts : list N) :
  AllEqual ts -> ts <> [] -> exists f, front ts = Ok f /\ back ts = Ok f.
Proof.
  intros Heq Hne. destruct ts as [|x t]; [congruence|].
  exists x. split; [reflexivity|]. unfold back. f_equal.
  apply Heq; [|now left].
  destruct (@exists_last _ (x :: t)) as (l' & z & Hz); [discriminate|].
  rewrite Hz, last_last. apply in_or_app. right. now left.
Qed.

Lemma strictly_sorted_increasing (ts : list N) :
  strictly_sorted ts = true -> StrictlyIncreasing ts.
Proof.
  induction ts as [|x [|y t] IH]; intros H i j a b Hij Hi Hj.
  - destruct i; discriminate.
  - destruct j as [|[|j]]; try discriminate. lia.
  - change (strictly_sorted (x :: y :: t)) with ((x <? y) && strictly_sorted (y :: t)) in H.
    apply andb_true_iff in H. destruct H as [Hxy Hs]. apply N.ltb_lt in Hxy.
    specialize (IH Hs).
    destruct j as [|j]; [lia|]. destruct i as [|i].
    + injection Hi as <-. destruct j as [|j].
      * injection Hj as <-. exact Hxy.
      * apply N.lt_trans with y; [exact Hxy|].
        apply (IH 0%nat (S j)); [lia | reflexivity | exact Hj].
    + apply (IH i j); [lia | exact Hi | exact Hj].
Qed.

(** C4: a dataset built with no explicit order, at least 2 rows and
    timestamps that grow strictly (hence are not all equal) comes out
    [Ordered]; one whose timestamps are all equal is never promoted. *)
Theorem TObjectsDataProvider_order_promotion
    (objectsGrouping : option TObjectsGrouping) (commonData : TCommonObjectsData)
    (skipCheck : bool) (grouping : TObjectsGrouping) (timestamps : list N) :
  provider_grouping objectsGrouping commonData skipCheck = Ok grouping ->
  Order commonData = OrderUndefined ->
  Timestamp commonData = Some timestamps ->
  (2 <= GetObjectCount grouping ->
   StrictlyIncreasing timestamps -> ~ AllEqual timestamps ->
   TObjectsDataProvider_new objectsGrouping commonData skipCheck
   = Ok (mkObjectsDataProvider grouping (set_Order commonData Ordered))) /\
  (AllEqual timestamps ->
   (forall p, TObjectsDataProvider_new objectsGrouping commonData skipCheck = Ok p ->
              Order (CommonData p) = OrderUndefined) /\
   (size timestamps = GetObjectCount grouping ->
    TObjectsDataProvider_new objectsGrouping commonData skipCheck
    = Ok (mkObjectsDataProvider grouping commonData))).
Proof.
  intros Hg Ho Ht. unfold TObjectsDataProvider_new. rewrite Hg. cbn [bind].
  unfold promote_order. rewrite Ho, Ht. split.
  - intros Hn Hinc Hne.
    replace (1 <? GetObjectCount grouping) with true by (symmetry; apply N.ltb_lt; lia).
    rewrite (is_sorted_increasing timestamps Hinc).
    destruct (front_back_increasing timestamps Hinc Hne) as (f & b & -> & -> & Hfb).
    cbn [bind]. apply N.eqb_neq in Hfb. now rewrite Hfb.
  - intros Heq. split.
    + intros p Hp.
      destruct (1 <? GetObjectCount grouping);
        [|injection Hp as <-; exact Ho].
      destruct (is_sorted timestamps); [|injection Hp as <-; exact Ho].
      destruct timestamps as [|x t]; [discriminate|].
      destruct (front_back_equal (x :: t) Heq) as (f & Hf & Hb); [discriminate|].
      rewrite Hf, Hb in Hp. cbn [bind] in Hp. rewrite N.eqb_refl in Hp.
      injection Hp as <-. exact Ho.
    + intros Hsz.
      destruct (1 <? GetObjectCount grouping) eqn:E; [|reflexivity].
      destruct (is_sorted timestamps); [|reflexivity].
      destruct (front_back_equal timestamps Heq) as (f & Hf & Hb).
      { intros ->. apply N.ltb_lt in E. rewrite <- Hsz in E. unfold size in E. simpl in E. lia. }
      rewrite Hf, Hb. cbn [bind]. now rewrite N.eqb_refl.
Qed.

Lemma TObjectsDataProvider_order_promotion_witness :
  TObjectsDataProvider_new None
    (mkCommonObjectsData (Some (mkFeaturesLayout [] [])) (TFullSubset 3) OrderUndefined
                         None None (Some [10; 20; 30])) false
  = Ok (mkObjectsDataProvider (TrivialGrouping 3)
          (mkCommonObjectsData (Some (mkFeaturesLayout [] [])) (TFullSubset 3) Ordered
                               None None (Some [10; 20; 30]))).
Proof.
  refine (proj1 (TObjectsDataProvider_order_promotion None
            (mkCommonObjectsData (Some (mkFeaturesLayout [] [])) (TFullSubset 3)
                                 OrderUndefined None None (Some [10; 20; 30]))
            false (TrivialGrouping 3) [10; 20; 30] eq_refl eq_refl eq_refl) _ _ _).
  - vm_compute. discriminate.
  - apply strictly_sorted_increasing. reflexivity.
  - intros H. specialize (H 10 20). discriminate H; simpl; auto.
Defined.

(* ================================================================== *)
(** ** Little-endian bytes, packed words and their decoding *)
(* ================================================================== *)

Lemma le_bytes_length (n : nat) (v : N) : length (le_bytes n v) = n.
Proof. revert v. induction n; intros; simpl; auto. Qed.

Lemma le_bytes_range (n : nat) (v : N) : Forall (fun b => b < 256) (le_bytes n v).
Proof.
  revert v. induction n as [|n IH]; intros v; simpl; constructor; auto.
  apply N.mod_lt. discriminate.
Qed.

Lemma le_value_le_bytes (n : nat) (v : N) :
  le_value (le_bytes n v) = v mod 256 ^ N.of_nat n.
Proof.
  revert v. induction n as [|n IH]; intros v.
  - simpl. now rewrite N.mod_1_r.
  - cbn [le_bytes le_value]. rewrite IH.
    rewrite Nat2N.inj_succ, N.pow_succ_r'.
    rewrite N.Div0.mod_mul_r. reflexivity.
Qed.

Lemma le_value_div (j : nat) (bs : list N) :
  Forall (fun b => b < 256) bs ->
  le_value bs / 256 ^ N.of_nat j = le_value (skipn j bs).
Proof.
  revert bs. induction j as [|j IH]; intros bs Hr.
  - simpl. apply N.div_1_r.
  - destruct bs as [|b t].
    + simpl. apply N.Div0.div_0_l.
    + inversion Hr as [|? ? Hb Ht]; subst.
      cbn [le_value skipn]. rewrite Nat2N.inj_succ, N.pow_succ_r'.
      rewrite <- N.Div0.div_div.
      replace ((b + 256 * le_value t) / 256) with (le_value t).
      * now apply IH.
      * replace (b + 256 * le_value t) with (le_value t * 256 + b) by lia.
        rewrite N.div_add_l by discriminate.
        rewrite N.div_small by assumption. lia.
Qed.

Lemma le_value_mod (m : nat) (bs : list N) :
  Forall (fun b => b < 256) bs ->
  le_value bs mod 256 ^ N.of_nat m = le_value (firstn m bs).
Proof.
  revert bs. induction m as [|m IH]; intros bs Hr.
  - simpl. apply N.mod_1_r.
  - destruct bs as [|b t].
    + simpl. apply N.Div0.mod_0_l.
    + inversion Hr as [|? ? Hb Ht]; subst.
      cbn [le_value firstn]. rewrite Nat2N.inj_succ, N.pow_succ_r'.
      rewrite N.Div0.mod_mul_r.
      replace ((b + 256 * le_value t) / 256) with (le_value t).
      * rewrite IH by assumption. f_equal.
        replace (b + 256 * le_value t) with (b + le_value t * 256) by lia.
        rewrite N.Div0.mod_add. now apply N.mod_small.
      * replace (b + 256 * le_value t) with (le_value t * 256 + b) by lia.
        rewrite N.div_add_l by discriminate.
        rewrite N.div_small by assumption. lia.
Qed.

Lemma Forall_firstn {A : Type} (P : A -> Prop) (n : nat) (l : list A) :
  Forall P l -> Forall P (firstn n l).
Proof.
  intros H. rewrite Forall_forall in *. intros x Hx. apply H.
  rewrite <- (firstn_skipn n l). apply in_or_app. now left.
Qed.

Lemma Forall_skipn {A : Type} (P : A -> Prop) (n : nat) (l : list A) :
  Forall P l -> Forall P (skipn n l).
Proof.
  intros H. rewrite Forall_forall in *. intros x Hx. apply H.
  rewrite <- (firstn_skipn n l). apply in_or_app. now right.
Qed.

Lemma nth_words_of_bytes (count k : nat) (bs : list N) :
  (k < count)%nat ->
  nth k (words_of_bytes count bs) 0 = le_value (firstn 8 (skipn (8 * k) bs)).
Proof.
  revert k bs. induction count as [|count IH]; intros k bs Hk; [lia|].
  destruct k as [|k]; cbn [words_of_bytes nth].
  - reflexivity.
  - rewrite IH by lia. rewrite skipn_skipn. do 3 f_equal. lia.
Qed.

Lemma words_of_bytes_length (count : nat) (bs : list N) :
  length (words_of_bytes count bs) = count.
Proof. revert bs. induction count; intros; simpl; auto. Qed.

Lemma pow2_8 (x : N) : 2 ^ (8 * x) = 256 ^ x.
Proof. rewrite N.pow_mul_r. reflexivity. Qed.

(** Decoding the code of index [i] from words read from little-endian
    bytes: the [B] bytes at offset [B * i], when a word holds [E] codes of
    [B] bytes. *)
Lemma Extract_words_of_bytes (B E i W : nat) (bytes : list N) :
  (B * E = 8)%nat ->
  Forall (fun b => b < 256) bytes ->
  (i / E < W)%nat ->
  Extract (8 * N.of_nat B) (words_of_bytes W bytes) (N.of_nat i)
  = le_value (firstn B (skipn (B * i) bytes)).
Proof.
  intros HBE Hr HW.
  assert (HE : (E <> 0)%nat) by (intros ->; lia).
  assert (HB : (B <> 0)%nat) by (intros ->; lia).
  assert (HEN : EntriesPerType (8 * N.of_nat B) = N.of_nat E).
  { unfold EntriesPerType.
    replace 64 with (N.of_nat E * (8 * N.of_nat B)) by lia.
    apply N.div_mul. lia. }
  unfold Extract. cbn zeta. rewrite HEN.
  rewrite N.shiftr_div_pow2, N.land_ones.
  rewrite <- Nat2N.inj_div, Nat2N.id.
  rewrite nth_words_of_bytes by assumption.
  rewrite <- Nat2N.inj_mod.
  replace (N.of_nat (i mod E) * (8 * N.of_nat B))
    with (8 * N.of_nat (B * (i mod E))) by lia.
  rewrite !pow2_8.
  set (chunk := firstn 8 (skipn (8 * (i / E)) bytes)).
  assert (Hc : Forall (fun b => b < 256) chunk)
    by (apply Forall_firstn, Forall_skipn, Hr).
  rewrite le_value_div by assumption.
  rewrite le_value_mod by (apply Forall_skipn, Hc).
  f_equal. unfold chunk.
  pose proof (Nat.mod_upper_bound i E HE) as Hm.
  assert (Hfit : (B * (i mod E) + B <= 8)%nat) by nia.
  rewrite skipn_firstn_comm, firstn_firstn, skipn_skipn.
  rewrite Nat.min_l by lia.
  f_equal. f_equal.
  pose proof (Nat.div_mod_eq i E) as Hd. nia.
Qed.

Lemma skipn_flat_map_blocks (B i : nat) (vs pad : list N) :
  skipn (B * i) (flat_map (le_bytes B) vs ++ pad)
  = match (i ?= length vs)%nat with
    | Gt => skipn (B * (i - length vs)) pad
    | _ => flat_map (le_bytes B) (skipn i vs) ++ pad
    end.
Proof.
  revert vs. induction i as [|i IH]; intros vs.
  - rewrite Nat.mul_0_r. simpl. destruct vs; reflexivity.
  - destruct vs as [|v t].
    + simpl flat_map. simpl app. simpl length. rewrite Nat.sub_0_r. reflexivity.
    + cbn [flat_map length skipn]. rewrite <- app_assoc.
      replace (B * S i)%nat with (B * i + length (le_bytes B v))%nat
        by (rewrite le_bytes_length; lia).
      rewrite <- skipn_skipn.
      rewrite skipn_app, skipn_all, Nat.sub_diag. simpl app.
      simpl skipn at 2. rewrite IH.
      change (S i ?= S (length t))%nat with (i ?= length t)%nat.
      reflexivity.
Qed.

(** What the stored bytes decode to: the value written, for every row. *)
Lemma Extract_packed (B E i W : nat) (vs pad : list N) :
  (B * E = 8)%nat ->
  Forall (fun b => b < 256) pad ->
  (i < length vs)%nat ->
  (i / E < W)%nat ->
  Extract (8 * N.of_nat B)
          (words_of_bytes W (flat_map (le_bytes B) vs ++ pad)) (N.of_nat i)
  = nth i vs 0 mod 256 ^ N.of_nat B.
Proof.
  intros HBE Hpad Hi HW.
  assert (Hr : Forall (fun b => b < 256) (flat_map (le_bytes B) vs ++ pad)).
  { apply Forall_app. split; [|assumption].
    apply Forall_flat_map. rewrite Forall_forall. intros. apply le_bytes_range. }
  rewrite (Extract_words_of_bytes B E i W _ HBE Hr HW).
  rewrite skipn_flat_map_blocks.
  replace (i ?= length vs)%nat with Lt by (symmetry; now apply Nat.compare_lt_iff).
  destruct (skipn i vs) as [|v t] eqn:Es.
  - apply (f_equal (@length N)) in Es. rewrite length_skipn in Es. simpl in Es. lia.
  - assert (Hv : nth i vs 0 = v).
    { rewrite <- (firstn_skipn i vs) at 1. rewrite Es.
      rewrite app_nth2; rewrite length_firstn, Nat.min_l by lia; [|lia].
      now rewrite Nat.sub_diag. }
    cbn [flat_map]. rewrite <- app_assoc.
    rewrite firstn_app, le_bytes_length, Nat.sub_diag, firstn_all2
      by (rewrite le_bytes_length; lia).
    simpl firstn. rewrite app_nil_r, le_value_le_bytes, Hv. reflexivity.
Qed.

(* ================================================================== *)
(** ** The record written for one feature *)
(* ================================================================== *)

Example SaveFeatures_feature_ex1 :
  SaveFeatures_feature Float (Some (mkColumn 5 (TOtherValuesHolder [1; 2; 3]))) []
  = Ok [5; 0; 0; 0;  3; 0; 0; 0;  8; 0; 0; 0;  1; 0; 0; 0;  1; 2; 3;  0; 0; 0; 0; 0].
Proof. vm_compute. reflexivity. Qed.

Example SaveFeatures_feature_ex2 :
  SaveFeatures_feature Categorical (Some (mkColumn 2 (TOtherValuesHolder [258; 7; 1]))) []
  = Ok [2; 0; 0; 0;  3; 0; 0; 0;  32; 0; 0; 0;  2; 0; 0; 0;
        2; 1; 0; 0;  7; 0; 0; 0;  1; 0; 0; 0;  0; 0; 0; 0].
Proof. vm_compute. reflexivity. Qed.

Lemma firstn_paddingBuffer (k : nat) :
  (k <= 7)%nat -> firstn k paddingBuffer = repeat 0 k.
Proof.
  intros H. do 8 (destruct k as [|k]; [reflexivity|]). lia.
Qed.

Lemma ui32_small (x : N) : x < 2 ^ 32 -> ui32 x = x.
Proof. intros H. unfold ui32. now apply N.mod_small. Qed.

Lemma size_t_sub_small (a b : N) : b <= a -> a < 2 ^ 64 -> size_t_sub a b = a - b.
Proof.
  intros Hba Ha. unfold size_t_sub.
  rewrite (N.mod_small b) by lia.
  replace (a + 2 ^ 64 - b) with ((a - b) + 1 * 2 ^ 64) by lia.
  rewrite N.Div0.mod_add. apply N.mod_small. lia.
Qed.

(** The word count for [n] codes when a word holds [E] of them. *)
Lemma CeilDiv_bounds (n E : N) :
  0 < E -> n <= E * CeilDiv n E /\ E * CeilDiv n E < n + E.
Proof.
  intros HE. unfold CeilDiv.
  pose proof (N.div_mod (n + E - 1) E ltac:(lia)) as Hd.
  pose proof (N.mod_lt (n + E - 1) E ltac:(lia)) as Hm.
  set (q := (n + E - 1) / E) in *. set (r := (n + E - 1) mod E) in *.
  clearbody q r. nia.
Qed.

Lemma EntriesPerType_bytes (type : EFeatureType) :
  ValueBytes type * EntriesPerType (ValueBytes type * 8) = 8 /\
  0 < EntriesPerType (ValueBytes type * 8).
Proof. destruct type; split; reflexivity. Qed.

Lemma RecordWords_bounds (type : EFeatureType) (n : N) :
  ValueBytes type * n <= RecordWords type n * 8 /\
  RecordWords type n * 8 < ValueBytes type * n + 8.
Proof.
  unfold RecordWords, CompressedSize.
  destruct (EntriesPerType_bytes type) as [HBE HE].
  pose proof (CeilDiv_bounds n (EntriesPerType (ValueBytes type * 8)) HE) as [H1 H2].
  set (E := EntriesPerType (ValueBytes type * 8)) in *.
  set (B := ValueBytes type) in *.
  set (W := CeilDiv n E) in *.
  assert (HB : 0 < B) by (destruct type; reflexivity).
  split; nia.
Qed.

Lemma SaveFeatures_feature_eq (type : EFeatureType) (c : IColumn) (out : list N) :
  size (ExtractValues (ValueBytes type) c) < 2 ^ 32 ->
  SaveFeatures_feature type (Some c) out
  = Ok (out ++ le_bytes 4 (GetId c)
            ++ le_bytes 4 (size (ExtractValues (ValueBytes type) c))
            ++ le_bytes 4 (ValueBytes type * 8)
            ++ le_bytes 4 (RecordWords type (size (ExtractValues (ValueBytes type) c)))
            ++ flat_map (le_bytes (N.to_nat (ValueBytes type)))
                        (ExtractValues (ValueBytes type) c)
            ++ repeat 0 (N.to_nat (RecordPadding type
                                     (size (ExtractValues (ValueBytes type) c))))).
Proof.
  intros Hn. unfold SaveFeatures_feature. cbn [deref bind].
  set (values := ExtractValues (ValueBytes type) c) in *.
  set (n := size values) in *.
  assert (HB : ui32 (ValueBytes type) = ValueBytes type) by (destruct type; reflexivity).
  assert (Hbits : ui32 (ValueBytes type * 8) = ValueBytes type * 8)
    by (destruct type; reflexivity).
  rewrite HB, Hbits, (ui32_small n Hn).
  fold (RecordWords type n).
  destruct (RecordWords_bounds type n) as [Hlo Hhi].
  assert (HBle : ValueBytes type <= 4) by (destruct type; simpl; lia).
  assert (HW : RecordWords type n < 2 ^ 32) by nia.
  rewrite (ui32_small _ HW).
  rewrite size_t_sub_small by nia.
  fold (RecordPadding type n).
  unfold SaveMulti_ui32, SaveRawData. rewrite <- !app_assoc.
  assert (Hpad : RecordPadding type n < 8) by (unfold RecordPadding; lia).
  destruct (RecordPadding type n =? 0) eqn:E0.
  - apply N.eqb_eq in E0. rewrite E0. simpl repeat. now rewrite app_nil_r.
  - replace (RecordPadding type n <=? size paddingBuffer) with true
      by (symmetry; apply N.leb_le; change (size paddingBuffer) with 7; lia).
    rewrite firstn_paddingBuffer by lia. reflexivity.
Qed.

(** C8: in the record written for a feature, the word count is the least
    number of 8-byte words that hold [rowCount] codes of [bitsPerKey] bits,
    and the payload bytes plus the zero padding after them make exactly
    [8 * wordCount] bytes, the padding being shorter than a word. *)
Theorem SaveFeatures_feature_record (type : EFeatureType) (c : IColumn) (out : list N) :
  let values := ExtractValues (ValueBytes type) c in
  let rowCount := size values in
  let bitsPerKey := ValueBytes type * 8 in
  let payload := flat_map (le_bytes (N.to_nat (ValueBytes type))) values in
  rowCount < 2 ^ 32 ->
  exists (wordCount : N) (padding : list N),
    SaveFeatures_feature type (Some c) out
    = Ok (out ++ le_bytes 4 (GetId c) ++ le_bytes 4 rowCount ++ le_bytes 4 bitsPerKey
              ++ le_bytes 4 wordCount ++ payload ++ padding) /\
    rowCount * bitsPerKey <= wordCount * 64 /\
    (forall w, rowCount * bitsPerKey <= w * 64 -> wordCount <= w) /\
    Forall (fun b => b = 0) padding /\
    size payload + size padding = wordCount * 8 /\
    size padding < 8.
Proof.
  intros values rowCount bitsPerKey payload Hn.
  exists (RecordWords type rowCount), (repeat 0 (N.to_nat (RecordPadding type rowCount))).
  destruct (RecordWords_bounds type rowCount) as [Hlo Hhi].
  assert (Hpay : size payload = ValueBytes type * rowCount).
  { unfold payload, rowCount, size. clear. induction values as [|v t IH]; simpl.
    - lia.
    - rewrite length_app, le_bytes_length. lia. }
  repeat split.
  - apply SaveFeatures_feature_eq. exact Hn.
  - unfold bitsPerKey. lia.
  - intros w Hw. unfold bitsPerKey in Hw. lia.
  - apply Forall_forall. intros b Hb. now apply repeat_spec in Hb.
  - rewrite Hpay. unfold size at 1. rewrite repeat_length, N2Nat.id.
    unfold RecordPadding. lia.
  - unfold size. rewrite repeat_length, N2Nat.id. unfold RecordPadding. lia.
Qed.

Lemma SaveFeatures_feature_record_witness :
  exists (wordCount : N) (padding : list N),
    SaveFeatures_feature Categorical (Some (mkColumn 2 (TOtherValuesHolder [258; 7; 1]))) []
    = Ok ([] ++ le_bytes 4 2 ++ le_bytes 4 3 ++ le_bytes 4 32
              ++ le_bytes 4 wordCount
              ++ flat_map (le_bytes 4) [258; 7; 1] ++ padding) /\
    3 * 32 <= wordCount * 64 /\
    (forall w, 3 * 32 <= w * 64 -> wordCount <= w) /\
    Forall (fun b => b = 0) padding /\
    size (flat_map (le_bytes 4) [258; 7; 1]) + size padding = wordCount * 8 /\
    size padding < 8.
Proof.
  apply (SaveFeatures_feature_record Categorical
           (mkColumn 2 (TOtherValuesHolder [258; 7; 1])) []).
  reflexivity.
Defined.

(* ================================================================== *)
(** ** Validation while loading a feature record *)
(* ================================================================== *)

Example LoadFeatures_feature_ex1 :
  LoadFeatures_feature (TFullSubset 3) (mkFeatureMetaInfo true 5)
    [5; 0; 0; 0;  3; 0; 0; 0;  8; 0; 0; 0;  1; 0; 0; 0;  1; 2; 3;  0; 0; 0; 0; 0]
  = Ok (mkColumn 5 (TCompressedValuesHolderImpl
                      (mkCompressedArray 3 8 [197121]) (TFullSubset 3)), []).
Proof. vm_compute. reflexivity. Qed.

Example LoadFeatures_feature_ex2 :
  LoadFeatures_feature (TFullSubset 3) (mkFeatureMetaInfo true 6)
    [5; 0; 0; 0;  3; 0; 0; 0;  8; 0; 0; 0;  1; 0; 0; 0;  1; 2; 3;  0; 0; 0; 0; 0]
  = Throw (INTERNAL_ERROR_MSG
             ++ "deserialized feature id is not equal to expected flatFeatureIdx")%string.
Proof. vm_compute. reflexivity. Qed.

Lemma CheckDataSize_internal_mismatch (dataSize expectedSize : N)
    (dataName expectedSizeName : string) :
  dataSize <> expectedSize ->
  exists w, CheckDataSize dataSize expectedSize dataName false expectedSizeName true = Throw w
            /\ IsInternalError w = true.
Proof.
  intros H. unfold CheckDataSize. apply N.eqb_neq in H. rewrite H. cbn [orb andb CB_ENSURE].
  eexists. split; [reflexivity|]. apply prefix_app.
Qed.

Lemma LoadFeatures_feature_mismatch (subsetIndexing : TArraySubsetIndexing)
    (meta : TFeatureMetaInfo) (stream rest : list N) (id sz bitsPerKey : N) :
  LoadHeader stream = Ok (id, sz, bitsPerKey, rest) ->
  id <> ExternalFeatureIdx meta \/ sz <> Size subsetIndexing ->
  exists w, LoadFeatures_feature subsetIndexing meta stream = Throw w
            /\ IsInternalError w = true.
Proof.
  unfold LoadHeader, LoadFeatures_feature. intros Hh Hmis.
  destruct (LoadMulti_ui32 stream) as [[id' s1]| |]; cbn [bind fst snd] in *; try discriminate.
  destruct (LoadMulti_ui32 s1) as [[sz' s2]| |]; cbn [bind fst snd] in *; try discriminate.
  destruct (LoadMulti_ui32 s2) as [[b' s3]| |]; cbn [bind fst snd] in *; try discriminate.
  injection Hh as -> -> -> ->.
  destruct (ExternalFeatureIdx meta =? id) eqn:Eid.
  - cbn [CB_ENSURE_INTERNAL CB_ENSURE bind].
    destruct Hmis as [Hid|Hsz]; [apply N.eqb_eq in Eid; congruence|].
    destruct (CheckDataSize_internal_mismatch sz (Size subsetIndexing)
                "column data" "object count" Hsz) as (w & Hw & Hi).
    exists w. rewrite Hw. auto.
  - destruct (CB_ENSURE_INTERNAL_false
                "deserialized feature id is not equal to expected flatFeatureIdx")
      as (w & Hw & Hi).
    exists w. rewrite Hw. auto.
Qed.

Lemma LoadFeatures_loop_app (subsetIndexing : TArraySubsetIndexing)
    (pre post : list TFeatureMetaInfo) (featureIdx : N)
    (dst : list (option IColumn)) (stream : list N) :
  LoadFeatures_loop subsetIndexing featureIdx (pre ++ post) dst stream
  = r <- LoadFeatures_loop subsetIndexing featureIdx pre dst stream ;;
    LoadFeatures_loop subsetIndexing (featureIdx + size pre) post (fst r) (snd r).
Proof.
  revert featureIdx dst stream. induction pre as [|m pre IH]; intros featureIdx dst stream.
  - simpl. now rewrite N.add_0_r.
  - cbn [app LoadFeatures_loop]. rewrite size_cons.
    replace (featureIdx + (1 + size pre)) with (featureIdx + 1 + size pre) by lia.
    destruct (IsAvailable m).
    + destruct (LoadFeatures_feature subsetIndexing m stream) as [r| |]; cbn [bind]; auto.
    + apply IH.
Qed.

(** C6: while the columns of a feature type are loaded, at every available
    feature position that is reached, a decoded feature id different from
    the flat index expected there, or a decoded row count different from the
    size of the target subset, makes the load fail with an
    internal-consistency error; no column store is returned. *)
Theorem LoadFeatures_mismatch_is_internal_error
    (featureType : EFeatureType) (featuresLayout : TFeaturesLayout)
    (subsetIndexing : TArraySubsetIndexing) (stream : list N)
    (pre post : list TFeatureMetaInfo) (flatFeatureIdx : N)
    (dst : list (option IColumn)) (reached rest : list N) (id sz bitsPerKey : N) :
  GetInternalFeatureMetaInfos featuresLayout featureType
    = pre ++ mkFeatureMetaInfo true flatFeatureIdx :: post ->
  LoadFeatures_loop subsetIndexing 0 pre
    (repeat None (N.to_nat (GetFeatureCount featuresLayout featureType))) stream
    = Ok (dst, reached) ->
  LoadHeader reached = Ok (id, sz, bitsPerKey, rest) ->
  id <> flatFeatureIdx \/ sz <> Size subsetIndexing ->
  exists w,
    LoadFeatures featureType featuresLayout subsetIndexing stream = Throw w /\
    IsInternalError w = true.
Proof.
  intros Hl Hpre Hh Hmis. unfold LoadFeatures. rewrite Hl.
  rewrite LoadFeatures_loop_app, Hpre. cbn [bind fst snd LoadFeatures_loop IsAvailable].
  destruct (LoadFeatures_feature_mismatch subsetIndexing
              (mkFeatureMetaInfo true flatFeatureIdx) reached rest id sz bitsPerKey Hh Hmis)
    as (w & Hw & Hi).
  exists w. rewrite Hw. auto.
Qed.

Lemma LoadFeatures_mismatch_is_internal_error_witness :
  exists w,
    LoadFeatures Float
      (mkFeaturesLayout [mkFeatureMetaInfo false 0; mkFeatureMetaInfo true 1] [])
      (TFullSubset 3)
      [1; 0; 0; 0;  2; 0; 0; 0;  8; 0; 0; 0;  1; 0; 0; 0;  1; 2;  0; 0; 0; 0; 0; 0]
    = Throw w /\
    IsInternalError w = true.
Proof.
  apply (LoadFeatures_mismatch_is_internal_error Float
           (mkFeaturesLayout [mkFeatureMetaInfo false 0; mkFeatureMetaInfo true 1] [])
           (TFullSubset 3)
           [1; 0; 0; 0;  2; 0; 0; 0;  8; 0; 0; 0;  1; 0; 0; 0;  1; 2;  0; 0; 0; 0; 0; 0]
           [mkFeatureMetaInfo false 0] [] 1
           [None; None]
           [1; 0; 0; 0;  2; 0; 0; 0;  8; 0; 0; 0;  1; 0; 0; 0;  1; 2;  0; 0; 0; 0; 0; 0]
           [1; 0; 0; 0;  1; 2;  0; 0; 0; 0; 0; 0] 1 2 8).
  - reflexivity.
  - reflexivity.
  - reflexivity.
  - right. discriminate.
Defined.

(* ================================================================== *)
(** ** Reading back what was written *)
(* ================================================================== *)

Lemma read_bytes_app (bs rest : list N) :
  read_bytes (size bs) (bs ++ rest) = Ok (bs, rest).
Proof.
  unfold read_bytes. rewrite size_app.
  replace (size bs <=? size bs + size rest) with true by (symmetry; apply N.leb_le; lia).
  unfold size. rewrite Nat2N.id.
  rewrite firstn_app, firstn_all, Nat.sub_diag. simpl firstn. rewrite app_nil_r.
  rewrite skipn_app, skipn_all, Nat.sub_diag. reflexivity.
Qed.

Lemma LoadMulti_ui32_le_bytes (x : N) (rest : list N) :
  x < 2 ^ 32 -> LoadMulti_ui32 (le_bytes 4 x ++ rest) = Ok (x, rest).
Proof.
  intros Hx. unfold LoadMulti_ui32.
  pose proof (read_bytes_app (le_bytes 4 x) rest) as H.
  change (size (le_bytes 4 x)) with 4 in H. rewrite H. cbn [bind fst snd].
  rewrite le_value_le_bytes. change (256 ^ N.of_nat 4) with (2 ^ 32).
  now rewrite N.mod_small.
Qed.

Lemma LoadMulti_vector_ui64_le_bytes (W : N) (bs rest : list N) :
  W < 2 ^ 32 -> size bs = W * 8 ->
  LoadMulti_vector_ui64 (le_bytes 4 W ++ bs ++ rest)
  = Ok (words_of_bytes (N.to_nat W) bs, rest).
Proof.
  intros HW Hbs. unfold LoadMulti_vector_ui64.
  rewrite LoadMulti_ui32_le_bytes by assumption. cbn [bind fst snd].
  rewrite <- Hbs, read_bytes_app. reflexivity.
Qed.

Lemma ExtractValues_range (bytes : N) (c : IColumn) :
  Forall (fun v => v < 2 ^ (8 * bytes)) (ExtractValues bytes c).
Proof.
  assert (H : forall v, castT bytes v < 2 ^ (8 * bytes)).
  { intros v. unfold castT. apply N.mod_lt. apply N.pow_nonzero. discriminate. }
  unfold ExtractValues, ArrayDataElements.
  destruct (Values c); apply Forall_forall; intros x Hx;
    apply in_map_iff in Hx; destruct Hx as (y & <- & _); apply H.
Qed.

Lemma size_xrange_0 (n : N) : size (xrange 0 n) = n.
Proof. unfold size, xrange. rewrite length_map, length_seq. lia. Qed.

Lemma GetSize_ExtractValues (bytes : N) (c : IColumn) :
  size (ExtractValues bytes c) = GetSize c.
Proof.
  unfold ExtractValues, ArrayDataElements, GetSize.
  destruct (Values c) as [a [n|ix]|vs]; unfold size; rewrite length_map; try reflexivity.
  apply size_xrange_0.
Qed.

Lemma map_nth_seq_from (vs pre : list N) :
  map (fun i => nth i (pre ++ vs) 0) (seq (length pre) (length vs)) = vs.
Proof.
  revert pre. induction vs as [|v t IH]; intros pre; [reflexivity|].
  cbn [length seq map]. rewrite nth_middle. f_equal.
  specialize (IH (pre ++ [v])). rewrite <- app_assoc, length_app in IH.
  cbn [app length] in IH. rewrite Nat.add_1_r in IH. exact IH.
Qed.

Lemma map_nth_xrange (vs : list N) :
  map (fun i => nth (N.to_nat i) vs 0) (xrange 0 (size vs)) = vs.
Proof.
  unfold xrange, size. rewrite Nat2N.id. simpl N.to_nat. rewrite Nat.sub_0_r.
  rewrite map_map.
  rewrite (map_ext _ (fun i => nth i vs 0)) by (intros; now rewrite Nat2N.id).
  apply (map_nth_seq_from vs []).
Qed.

Lemma SaveFeatures_feature_FeatureRecord (type : EFeatureType) (c : IColumn) (out : list N) :
  size (ExtractValues (ValueBytes type) c) < 2 ^ 32 ->
  SaveFeatures_feature type (Some c) out = Ok (out ++ FeatureRecord type c).
Proof.
  intros H. rewrite SaveFeatures_feature_eq by assumption.
  unfold FeatureRecord, RecordPayload. cbn zeta. now rewrite <- ?app_assoc.
Qed.

Lemma RecordPayload_size (type : EFeatureType) (values : list N) :
  size (RecordPayload type values) = RecordWords type (size values) * 8.
Proof.
  unfold RecordPayload. rewrite size_app.
  destruct (RecordWords_bounds type (size values)) as [Hlo Hhi].
  assert (Hpay : size (flat_map (le_bytes (N.to_nat (ValueBytes type))) values)
                 = ValueBytes type * size values).
  { unfold size. clear. induction values as [|v t IH]; simpl.
    - lia.
    - rewrite length_app, le_bytes_length. lia. }
  assert (Hpad : size (repeat 0 (N.to_nat (RecordPadding type (size values))))
                 = RecordPadding type (size values)).
  { unfold size at 1. now rewrite repeat_length, N2Nat.id. }
  rewrite Hpay, Hpad. unfold RecordPadding. lia.
Qed.

(** The loaded column decodes to the values that were written. *)
Lemma ExtractValues_LoadedColumn (type : EFeatureType) (c : IColumn) :
  ExtractValues (ValueBytes type) (LoadedColumn type c)
  = ExtractValues (ValueBytes type) c.
Proof.
  pose proof (ExtractValues_range (ValueBytes type) c) as Hr.
  unfold LoadedColumn. cbn zeta.
  set (vs := ExtractValues (ValueBytes type) c) in *.
  unfold ExtractValues at 1. cbn [Values]. unfold ArrayDataElements.
  cbn [BitsPerKey Storage SubsetIndices].
  transitivity (map (fun i => nth (N.to_nat i) vs 0) (xrange 0 (size vs)));
    [|apply map_nth_xrange].
  apply map_ext_in. intros i Hi.
  unfold xrange in Hi. apply in_map_iff in Hi. destruct Hi as (k & <- & Hk).
  apply in_seq in Hk. simpl N.to_nat in Hk. unfold size in Hk.
  rewrite Nat2N.id in Hk. rewrite Nat2N.id.
  destruct (RecordWords_bounds type (size vs)) as [Hlo _].
  assert (Hv : nth k vs 0 < 2 ^ (8 * ValueBytes type)).
  { rewrite Forall_forall in Hr. apply Hr. apply nth_In. lia. }
  unfold RecordPayload.
  assert (Hpad : Forall (fun b => b < 256)
                   (repeat 0 (N.to_nat (RecordPadding type (size vs))))).
  { apply Forall_forall. intros b Hb. apply repeat_spec in Hb. subst. reflexivity. }
  assert (Hsz : size vs = N.of_nat (length vs)) by reflexivity.
  destruct type; cbn [ValueBytes] in *.
  - change (1 * 8) with (8 * N.of_nat 1). change (N.to_nat 1) with 1%nat.
    rewrite (Extract_packed 1 8 k) by
      (try assumption; try reflexivity; try lia;
       apply Nat.Div0.div_lt_upper_bound; lia).
    unfold castT. change (2 ^ (8 * 1)) with (256 ^ N.of_nat 1) in *.
    rewrite N.Div0.mod_mod. now apply N.mod_small.
  - change (4 * 8) with (8 * N.of_nat 4). change (N.to_nat 4) with 4%nat.
    rewrite (Extract_packed 4 2 k) by
      (try assumption; try reflexivity; try lia;
       apply Nat.Div0.div_lt_upper_bound; lia).
    unfold castT. change (2 ^ (8 * 4)) with (256 ^ N.of_nat 4) in *.
    rewrite N.Div0.mod_mod. now apply N.mod_small.
Qed.

(** One record read back: the column written, as a bit-packed column over
    the full range. *)
Lemma LoadFeatures_feature_FeatureRecord (type : EFeatureType) (c : IColumn)
    (meta : TFeatureMetaInfo) (n : N) (rest : list N) :
  size (ExtractValues (ValueBytes type) c) = n ->
  n < 2 ^ 32 ->
  GetId c = ExternalFeatureIdx meta ->
  GetId c < 2 ^ 32 ->
  LoadFeatures_feature (TFullSubset n) meta (FeatureRecord type c ++ rest)
  = Ok (LoadedColumn type c, rest).
Proof.
  intros Hn Hlt Hid Hidlt. unfold LoadFeatures_feature, FeatureRecord, LoadedColumn.
  cbn zeta. rewrite Hn. rewrite <- !app_assoc.
  rewrite (LoadMulti_ui32_le_bytes (GetId c)) by assumption. cbn [bind fst snd].
  rewrite (LoadMulti_ui32_le_bytes n) by assumption. cbn [bind fst snd].
  rewrite (LoadMulti_ui32_le_bytes (ValueBytes type * 8))
    by (destruct type; reflexivity).
  cbn [bind fst snd]. rewrite <- Hid, N.eqb_refl.
  cbn [CB_ENSURE_INTERNAL CB_ENSURE bind Size].
  unfold CheckDataSize. rewrite N.eqb_refl. cbn [orb CB_ENSURE bind].
  destruct (RecordWords_bounds type n) as [Hlo Hhi].
  assert (HW : RecordWords type n < 2 ^ 32)
    by (assert (ValueBytes type <= 4) by (destruct type; simpl; lia); nia).
  rewrite (LoadMulti_vector_ui64_le_bytes (RecordWords type n)
             (RecordPayload type (ExtractValues (ValueBytes type) c)) rest HW)
    by (rewrite RecordPayload_size, Hn; reflexivity).
  cbn [bind fst snd]. reflexivity.
Qed.

Lemma at_index_holder (src : list (option IColumn)) (idx : nat) (c : IColumn) :
  holder_at src idx = Some c -> at_index src (N.of_nat idx) = Ok (Some c).
Proof.
  unfold holder_at, at_index. rewrite Nat2N.id.
  destruct (nth_error src idx) as [h|]; [|discriminate]. now intros ->.
Qed.

Lemma Storable_tail (type : EFeatureType) (n : N) (src : list (option IColumn))
    (idx : nat) (meta : TFeatureMetaInfo) (rest : list TFeatureMetaInfo) :
  Storable type n src idx (meta :: rest) -> Storable type n src (S idx) rest.
Proof.
  intros H k m Hk Ha. specialize (H (S k) m Hk Ha).
  now rewrite Nat.add_succ_r in H.
Qed.

Lemma Storable_head (type : EFeatureType) (n : N) (src : list (option IColumn))
    (idx : nat) (meta : TFeatureMetaInfo) (rest : list TFeatureMetaInfo) :
  Storable type n src idx (meta :: rest) ->
  IsAvailable meta = true ->
  exists c, holder_at src idx = Some c /\
            size (ExtractValues (ValueBytes type) c) = n /\
            GetId c = ExternalFeatureIdx meta /\ GetId c < 2 ^ 32.
Proof.
  intros H Ha. specialize (H 0%nat meta eq_refl Ha). now rewrite Nat.add_0_r in H.
Qed.

Lemma SaveFeatures_loop_ok (type : EFeatureType) (n : N) (src : list (option IColumn))
    (metas : list TFeatureMetaInfo) (idx : nat) (out : list N) :
  n < 2 ^ 32 ->
  Storable type n src idx metas ->
  SaveFeatures_loop type src (N.of_nat idx) metas out
  = Ok (out ++ FeatureRecords type src idx metas).
Proof.
  intros Hn. revert idx out. induction metas as [|meta rest IH]; intros idx out HS.
  - simpl. now rewrite app_nil_r.
  - cbn [SaveFeatures_loop FeatureRecords].
    replace (N.of_nat idx + 1) with (N.of_nat (S idx)) by lia.
    pose proof (Storable_tail _ _ _ _ _ _ HS) as HT.
    destruct (IsAvailable meta) eqn:Ea.
    + destruct (Storable_head _ _ _ _ _ _ HS Ea) as (c & Hc & Hsz & _).
      rewrite (at_index_holder src idx c Hc), Hc. cbn [bind].
      rewrite SaveFeatures_feature_FeatureRecord by (rewrite Hsz; exact Hn).
      cbn [bind]. rewrite IH by assumption. now rewrite <- app_assoc.
    + cbn [bind app]. now apply IH.
Qed.

Lemma list_set_middle {A : Type} (pre t : list A) (x y : A) :
  list_set (pre ++ x :: t) (length pre) y = pre ++ y :: t.
Proof. induction pre as [|p pre IH]; simpl; [reflexivity | now rewrite IH]. Qed.

Lemma LoadFeatures_loop_ok (type : EFeatureType) (n : N) (src : list (option IColumn))
    (metas : list TFeatureMetaInfo) (pre : list (option IColumn)) (rest : list N) :
  n < 2 ^ 32 ->
  Storable type n src (length pre) metas ->
  LoadFeatures_loop (TFullSubset n) (N.of_nat (length pre)) metas
                    (pre ++ repeat None (length metas))
                    (FeatureRecords type src (length pre) metas ++ rest)
  = Ok (pre ++ LoadedFeatures type src (length pre) metas, rest).
Proof.
  intros Hn. revert pre. induction metas as [|meta ms IH]; intros pre HS.
  - reflexivity.
  - cbn [LoadFeatures_loop FeatureRecords LoadedFeatures length repeat].
    replace (N.of_nat (length pre) + 1) with (N.of_nat (S (length pre))) by lia.
    pose proof (Storable_tail _ _ _ _ _ _ HS) as HT.
    destruct (IsAvailable meta) eqn:Ea.
    + destruct (Storable_head _ _ _ _ _ _ HS Ea) as (c & Hc & Hsz & Hid & Hidlt).
      rewrite Hc. cbn [option_map]. rewrite <- app_assoc.
      rewrite (LoadFeatures_feature_FeatureRecord type c meta n _ Hsz Hn Hid Hidlt).
      cbn [bind fst snd]. rewrite Nat2N.id, list_set_middle.
      specialize (IH (pre ++ [Some (LoadedColumn type c)])).
      rewrite length_app in IH. cbn [length] in IH. rewrite Nat.add_1_r in IH.
      rewrite <- !app_assoc in IH. cbn [app] in IH. now apply IH.
    + cbn [app].
      specialize (IH (pre ++ [None])).
      rewrite length_app in IH. cbn [length] in IH. rewrite Nat.add_1_r in IH.
      rewrite <- !app_assoc in IH. cbn [app] in IH. now apply IH.
Qed.

Lemma LoadedFeatures_nth (type : EFeatureType) (src : list (option IColumn))
    (metas : list TFeatureMetaInfo) (idx k : nat) (meta : TFeatureMetaInfo) :
  nth_error metas k = Some meta ->
  nth_error (LoadedFeatures type src idx metas) k
  = Some (if IsAvailable meta
          then option_map (LoadedColumn type) (holder_at src (idx + k))
          else None).
Proof.
  revert idx k. induction metas as [|m ms IH]; intros idx k Hk.
  - destruct k; discriminate.
  - destruct k as [|k]; cbn [nth_error LoadedFeatures] in *.
    + injection Hk as ->. now rewrite Nat.add_0_r.
    + rewrite (IH (S idx) k Hk). now rewrite Nat.add_succ_r.
Qed.

(* ------------------------------------------------------------------ *)
(** *** What [Check] guarantees *)

Lemma CheckDataSize_ok (dataSize expectedSize : N) (dataName expectedSizeName : string)
    (internalCheck : bool) :
  CheckDataSize dataSize expectedSize dataName false expectedSizeName internalCheck = Ok tt ->
  dataSize = expectedSize.
Proof.
  unfold CheckDataSize. cbn [andb]. rewrite orb_false_r.
  destruct (dataSize =? expectedSize) eqn:E; [|discriminate].
  intros _. now apply N.eqb_eq.
Qed.

Lemma bind_Ok_inv {A B : Type} (r : TResult A) (k : A -> TResult B) (b : B) :
  bind r k = Ok b -> exists a, r = Ok a /\ k a = Ok b.
Proof. destruct r; simpl; intros H; try discriminate. eauto. Qed.

Lemma CheckDataSizes_loop_ok (n : N) (layout : TFeaturesLayout) (type : EFeatureType)
    (data : list (option IColumn)) (idx : nat) :
  CheckDataSizes_loop n layout type (N.of_nat idx) data = Ok tt ->
  forall (k : nat) (holder : option IColumn),
    nth_error data k = Some holder ->
    exists meta,
      nth_error (GetInternalFeatureMetaInfos layout type) (idx + k) = Some meta /\
      (IsAvailable meta = true -> exists c, holder = Some c /\ GetSize c = n).
Proof.
  revert idx. induction data as [|h rest IH]; intros idx H k holder Hk.
  - destruct k; discriminate.
  - cbn [CheckDataSizes_loop] in H.
    apply bind_Ok_inv in H. destruct H as (meta & Hm & H).
    apply bind_Ok_inv in H. destruct H as ([] & Hf & H).
    replace (N.of_nat idx + 1) with (N.of_nat (S idx)) in H by lia.
    destruct k as [|k].
    + injection Hk as <-. exists meta. rewrite Nat.add_0_r. split.
      * unfold at_index, deref in Hm. rewrite Nat2N.id in Hm.
        destruct (nth_error (GetInternalFeatureMetaInfos layout type) idx);
          [now injection Hm as -> | discriminate].
      * intros Ea. unfold CheckDataSizes_feature in Hf. rewrite Ea in Hf.
        apply bind_Ok_inv in Hf. destruct Hf as ([] & Hnn & Hf).
        destruct h as [c|]; [|discriminate].
        cbn [deref bind] in Hf. apply CheckDataSize_ok in Hf. eauto.
    + rewrite Nat.add_succ_r. apply (IH (S idx) H k holder Hk).
Qed.

Lemma CheckDataSizes_Storable (n : N) (info : TQuantizedFeaturesInfo)
    (d : TQuantizedObjectsData) (type : EFeatureType) :
  CheckDataSizes n (GetFeaturesLayout info) type (FeaturesOf d type) = Ok tt ->
  IdsMatchLayout (GetFeaturesLayout info) d ->
  Storable type n (FeaturesOf d type) 0
           (GetInternalFeatureMetaInfos (GetFeaturesLayout info) type).
Proof.
  unfold CheckDataSizes. intros H Hids.
  apply bind_Ok_inv in H. destruct H as ([] & Hsz & Hloop).
  apply CheckDataSize_ok in Hsz. unfold GetFeatureCount, size in Hsz.
  apply Nat2N.inj in Hsz.
  intros k meta Hk Ea. cbn [Nat.add].
  destruct (nth_error (FeaturesOf d type) k) as [holder|] eqn:Eh.
  - destruct (CheckDataSizes_loop_ok n (GetFeaturesLayout info) type
                (FeaturesOf d type) 0 Hloop k holder Eh) as (meta' & Hk' & Hav).
    cbn [Nat.add] in Hk'. rewrite Hk in Hk'. injection Hk' as <-.
    destruct (Hav Ea) as (c & -> & Hc).
    exists c. unfold holder_at. rewrite Eh.
    destruct (Hids type k meta c Hk Ea Eh) as [Hid Hlt].
    repeat split; try assumption. now rewrite GetSize_ExtractValues.
  - apply nth_error_None in Eh.
    assert (k < length (GetInternalFeatureMetaInfos (GetFeaturesLayout info) type))%nat
      by (apply nth_error_Some; congruence).
    lia.
Qed.

(* ------------------------------------------------------------------ *)
(** *** The checksum reads a column through its decoded values only *)

Section CheckSumOfValues.

Variable UpdateCheckSum : N -> N -> N -> N.

Lemma checksum_feature_available (type : EFeatureType) (data : list (option IColumn))
    (checkSum : N) (idx : nat) (meta : TFeatureMetaInfo) (c : IColumn) :
  IsAvailable meta = true ->
  holder_at data idx = Some c ->
  checksum_feature UpdateCheckSum type data checkSum (N.of_nat idx) meta
  = Ok (fold_left (update UpdateCheckSum (ValueBytes type))
                  (ExtractValues (ValueBytes type) c) checkSum).
Proof.
  intros Ea Hc. unfold checksum_feature. rewrite Ea.
  rewrite (at_index_holder data idx c Hc). cbn [bind].
  destruct c as [id [a s|vs]]; reflexivity.
Qed.

Lemma checksum_loop_same_values (type : EFeatureType) (data data' : list (option IColumn))
    (metas : list TFeatureMetaInfo) (idx : nat) (checkSum : N) :
  (forall k meta, nth_error metas k = Some meta -> IsAvailable meta = true ->
     exists c c', holder_at data (idx + k) = Some c /\
                  holder_at data' (idx + k) = Some c' /\
                  ExtractValues (ValueBytes type) c'
                  = ExtractValues (ValueBytes type) c) ->
  checksum_loop UpdateCheckSum type data' (N.of_nat idx) metas checkSum
  = checksum_loop UpdateCheckSum type data (N.of_nat idx) metas checkSum.
Proof.
  revert idx checkSum. induction metas as [|meta rest IH]; intros idx checkSum H.
  - reflexivity.
  - cbn [checksum_loop].
    replace (N.of_nat idx + 1) with (N.of_nat (S idx)) by lia.
    assert (HT : forall cs, checksum_loop UpdateCheckSum type data' (N.of_nat (S idx)) rest cs
                          = checksum_loop UpdateCheckSum type data (N.of_nat (S idx)) rest cs).
    { intros cs. apply IH. intros k m Hk Ea.
      specialize (H (S k) m Hk Ea). now rewrite Nat.add_succ_r in H. }
    destruct (IsAvailable meta) eqn:Ea.
    + destruct (H 0%nat meta eq_refl Ea) as (c & c' & Hc & Hc' & Hv).
      rewrite Nat.add_0_r in Hc, Hc'.
      rewrite (checksum_feature_available type data' checkSum idx meta c' Ea Hc').
      rewrite (checksum_feature_available type data checkSum idx meta c Ea Hc).
      rewrite Hv. cbn [bind]. apply HT.
    + unfold checksum_feature. rewrite Ea. cbn [bind]. apply HT.
Qed.

End CheckSumOfValues.

(* ------------------------------------------------------------------ *)
(** *** Round trip of a checked column store *)

Lemma LoadFeatures_ok (type : EFeatureType) (n : N) (layout : TFeaturesLayout)
    (src : list (option IColumn)) (rest : list N) :
  n < 2 ^ 32 ->
  Storable type n src 0 (GetInternalFeatureMetaInfos layout type) ->
  LoadFeatures type layout (TFullSubset n)
    (FeatureRecords type src 0 (GetInternalFeatureMetaInfos layout type) ++ rest)
  = Ok (LoadedFeatures type src 0 (GetInternalFeatureMetaInfos layout type), rest).
Proof.
  intros Hn HS. unfold LoadFeatures, GetFeatureCount, size. rewrite Nat2N.id.
  exact (LoadFeatures_loop_ok type n src _ [] rest Hn HS).
Qed.

(** C2, as the code has it: a column store that passes its [Check] for [n]
    rows and whose available columns carry the layout's flat feature index
    as id is written and read back whole; every available feature comes back
    with the same id and the same decoded values row by row, every
    unavailable position comes back empty, and the features checksum is
    unchanged, whatever the storage class or bit width of the columns
    written. *)
Theorem QuantizedObjectsData_roundtrip
    (d : TQuantizedObjectsData) (info : TQuantizedFeaturesInfo) (n : N) :
  QuantizedFeaturesInfo d = Some info ->
  n < 2 ^ 32 ->
  QuantizedObjectsData_Check d n (GetFeaturesLayout info) = Ok tt ->
  IdsMatchLayout (GetFeaturesLayout info) d ->
  exists (bytes : list N) (d' : TQuantizedObjectsData),
    SaveNonSharedPart d [] = Ok bytes /\
    QuantizedObjectsData_Load (TFullSubset n) (Some info) bytes = Ok (d', []) /\
    (forall (type : EFeatureType) (idx : nat) (meta : TFeatureMetaInfo),
        nth_error (GetInternalFeatureMetaInfos (GetFeaturesLayout info) type) idx
          = Some meta ->
        if IsAvailable meta
        then exists c c',
               nth_error (FeaturesOf d type) idx = Some (Some c) /\
               nth_error (FeaturesOf d' type) idx = Some (Some c') /\
               GetId c' = GetId c /\
               ExtractValues (ValueBytes type) c' = ExtractValues (ValueBytes type) c
        else nth_error (FeaturesOf d' type) idx = Some None) /\
    (forall (UpdateCheckSum : N -> N -> N -> N) (base : TObjectsDataProvider),
        FeaturesLayout (CommonData base) = Some (GetFeaturesLayout info) ->
        CalcFeaturesCheckSum UpdateCheckSum (mkQuantizedObjectsDataProvider base d')
        = CalcFeaturesCheckSum UpdateCheckSum (mkQuantizedObjectsDataProvider base d)).
Proof.
  intros Hinfo Hn Hcheck Hids.
  unfold QuantizedObjectsData_Check in Hcheck.
  apply bind_Ok_inv in Hcheck. destruct Hcheck as ([] & _ & Hcheck).
  apply bind_Ok_inv in Hcheck. destruct Hcheck as ([] & HF & HC).
  pose proof (CheckDataSizes_Storable n info d Float HF Hids) as SF.
  pose proof (CheckDataSizes_Storable n info d Categorical HC Hids) as SC.
  set (layout := GetFeaturesLayout info) in *.
  set (recF := FeatureRecords Float (FloatFeatures d) 0 (FloatFeatureMetaInfo layout)).
  set (recC := FeatureRecords Categorical (CatFeatures d) 0 (CatFeatureMetaInfo layout)).
  set (d' := mkQuantizedObjectsData
               (LoadedFeatures Float (FloatFeatures d) 0 (FloatFeatureMetaInfo layout))
               (LoadedFeatures Categorical (CatFeatures d) 0 (CatFeatureMetaInfo layout))
               (Some info)).
  assert (Hfeat : forall type k meta,
             nth_error (GetInternalFeatureMetaInfos layout type) k = Some meta ->
             IsAvailable meta = true ->
             exists c, holder_at (FeaturesOf d type) k = Some c /\
                       holder_at (FeaturesOf d' type) k = Some (LoadedColumn type c)).
  { intros type k meta Hk Ea.
    assert (HS : Storable type n (FeaturesOf d type) 0
                          (GetInternalFeatureMetaInfos layout type))
      by (destruct type; assumption).
    destruct (HS k meta Hk Ea) as (c & Hc & _). cbn [Nat.add] in Hc.
    exists c. split; [exact Hc|].
    unfold holder_at at 1.
    replace (FeaturesOf d' type)
      with (LoadedFeatures type (FeaturesOf d type) 0
                           (GetInternalFeatureMetaInfos layout type))
      by (destruct type; reflexivity).
    rewrite (LoadedFeatures_nth type (FeaturesOf d type) _ 0 k meta Hk).
    rewrite Ea. cbn [Nat.add]. now rewrite Hc. }
  exists (recF ++ recC), d'. repeat split.
  - unfold SaveNonSharedPart. rewrite Hinfo. cbn [deref bind]. unfold SaveFeatures.
    pose proof (SaveFeatures_loop_ok Float n (FloatFeatures d) _ 0 [] Hn SF) as HsF.
    pose proof (SaveFeatures_loop_ok Categorical n (CatFeatures d) _ 0 recF Hn SC) as HsC.
    change (N.of_nat 0) with 0 in HsF, HsC.
    fold layout. rewrite HsF. cbn [bind app]. exact HsC.
  - unfold QuantizedObjectsData_Load. cbn [deref bind]. fold layout.
    pose proof (LoadFeatures_ok Float n layout (FloatFeatures d) recC Hn SF) as HLF.
    pose proof (LoadFeatures_ok Categorical n layout (CatFeatures d) [] Hn SC) as HLC.
    rewrite app_nil_r in HLC.
    cbn [GetInternalFeatureMetaInfos] in HLF, HLC. fold recF in HLF. fold recC in HLC.
    rewrite HLF. cbn [bind fst snd]. rewrite HLC. reflexivity.
  - intros type idx meta Hk.
    destruct (IsAvailable meta) eqn:Ea.
    + destruct (Hfeat type idx meta Hk Ea) as (c & Hc & Hc').
      exists c, (LoadedColumn type c).
      unfold holder_at in Hc, Hc'.
      destruct (nth_error (FeaturesOf d type) idx) as [h|]; [|discriminate].
      destruct (nth_error (FeaturesOf d' type) idx) as [h'|]; [|discriminate].
      subst h h'. repeat split. apply ExtractValues_LoadedColumn.
    + replace (FeaturesOf d' type)
        with (LoadedFeatures type (FeaturesOf d type) 0
                             (GetInternalFeatureMetaInfos layout type))
        by (destruct type; reflexivity).
      rewrite (LoadedFeatures_nth type (FeaturesOf d type) _ 0 idx meta Hk).
      now rewrite Ea.
  - intros U base Hlayout. unfold CalcFeaturesCheckSum. cbn [Data Base].
    rewrite Hlayout. cbn [QuantizedFeaturesInfo d']. rewrite Hinfo. cbn [deref bind].
    unfold CalcFeatureValuesCheckSum.
    assert (HV : forall type cs,
               checksum_loop U type (FeaturesOf d' type) (N.of_nat 0)
                             (GetInternalFeatureMetaInfos layout type) cs
               = checksum_loop U type (FeaturesOf d type) (N.of_nat 0)
                               (GetInternalFeatureMetaInfos layout type) cs).
    { intros type cs. apply checksum_loop_same_values. intros k meta Hk Ea.
      cbn [Nat.add]. destruct (Hfeat type k meta Hk Ea) as (c & Hc & Hc').
      exists c, (LoadedColumn type c). repeat split; try assumption.
      apply ExtractValues_LoadedColumn. }
    pose proof (HV Float) as HVF. pose proof (HV Categorical) as HVC.
    cbn [FeaturesOf GetInternalFeatureMetaInfos N.of_nat] in HVF, HVC.
    fold layout. cbn [GetInternalFeatureMetaInfos]. rewrite HVF.
    destruct (checksum_loop U Float (FloatFeatures d) 0 (FloatFeatureMetaInfo layout)
                            (CalcCheckSum info)); cbn [bind]; try reflexivity.
    apply HVC.
Qed.

Lemma ids_match_sound (metas : list TFeatureMetaInfo) (src : list (option IColumn)) :
  ids_match metas src = true ->
  forall idx meta c,
    nth_error metas idx = Some meta -> IsAvailable meta = true ->
    nth_error src idx = Some (Some c) ->
    GetId c = ExternalFeatureIdx meta /\ GetId c < 2 ^ 32.
Proof.
  revert src. induction metas as [|m ms IH]; intros src H idx meta c Hm Ea Hc.
  - destruct idx; discriminate.
  - destruct src as [|h t]; [destruct idx; discriminate|].
    cbn [ids_match] in H. apply andb_true_iff in H. destruct H as [Hh Ht].
    destruct idx as [|idx]; cbn [nth_error] in Hm, Hc.
    + injection Hm as ->. injection Hc as ->. rewrite Ea in Hh.
      apply andb_true_iff in Hh. destruct Hh as [H1 H2].
      split; [now apply N.eqb_eq | now apply N.ltb_lt].
    + apply (IH t Ht idx meta c Hm Ea Hc).
Qed.

Lemma ids_match_IdsMatchLayout (layout : TFeaturesLayout) (d : TQuantizedObjectsData) :
  ids_match (FloatFeatureMetaInfo layout) (FloatFeatures d) = true ->
  ids_match (CatFeatureMetaInfo layout) (CatFeatures d) = true ->
  IdsMatchLayout layout d.
Proof.
  intros HF HC type idx meta c. destruct type; cbn [GetInternalFeatureMetaInfos FeaturesOf].
  - now apply ids_match_sound.
  - now apply ids_match_sound.
Qed.

Example sample_data_values :
  map (option_map (ExtractValues 1)) (FloatFeatures sample_data)
    = [Some [1; 0; 1]; None; Some [3; 1; 2]] /\
  map (option_map (ExtractValues 4)) (CatFeatures sample_data) = [Some [1; 2; 3]].
Proof. split; vm_compute; reflexivity. Qed.

Lemma QuantizedObjectsData_roundtrip_witness :
  exists (bytes : list N) (d' : TQuantizedObjectsData),
    SaveNonSharedPart sample_data [] = Ok bytes /\
    QuantizedObjectsData_Load (TFullSubset 3) (Some sample_info) bytes = Ok (d', []) /\
    map (option_map (ExtractValues 1)) (FloatFeatures d')
      = [Some [1; 0; 1]; None; Some [3; 1; 2]] /\
    map (option_map (ExtractValues 4)) (CatFeatures d') = [Some [1; 2; 3]].
Proof.
  destruct (QuantizedObjectsData_roundtrip sample_data sample_info 3)
    as (bytes & d' & Hs & Hl & _).
  - reflexivity.
  - reflexivity.
  - reflexivity.
  - apply ids_match_IdsMatchLayout; reflexivity.
  - exists bytes, d'. split; [exact Hs|]. split; [exact Hl|].
    vm_compute in Hs. injection Hs as <-.
    vm_compute in Hl. injection Hl as <-.
    split; vm_compute; reflexivity.
Defined.

(** C2, as stated, fails on a store that passes [Check]: the column of the
    available float feature of flat index 0 carries id 7; it is written, and
    reading it back stops on the internal-consistency check of the id. *)
Lemma QuantizedObjectsData_roundtrip_foreign_id :
  QuantizedObjectsData_Check foreign_id_data 3 foreign_id_layout = Ok tt /\
  exists bytes,
    SaveNonSharedPart foreign_id_data [] = Ok bytes /\
    QuantizedObjectsData_Load (TFullSubset 3) (Some foreign_id_info) bytes
    = Throw (INTERNAL_ERROR_MSG
               ++ "deserialized feature id is not equal to expected flatFeatureIdx")%string.
Proof.
  split; [reflexivity|].
  eexists. split; vm_compute; reflexivity.
Qed.

(* ================================================================== *)
(** ** The features checksum *)
(* ================================================================== *)

Section CheckSumFacts.

Variable UpdateCheckSum : N -> N -> N -> N.

Lemma checksum_loop_app (type : EFeatureType) (data : list (option IColumn))
    (pre post : list TFeatureMetaInfo) (idx checkSum : N) :
  checksum_loop UpdateCheckSum type data idx (pre ++ post) checkSum
  = before <- checksum_loop UpdateCheckSum type data idx pre checkSum ;;
    checksum_loop UpdateCheckSum type data (idx + size pre) post before.
Proof.
  revert idx checkSum. induction pre as [|m pre IH]; intros idx checkSum.
  - simpl. now rewrite N.add_0_r.
  - cbn [app checksum_loop]. rewrite size_cons.
    replace (idx + (1 + size pre)) with (idx + 1 + size pre) by lia.
    destruct (checksum_feature UpdateCheckSum type data checkSum idx m);
      cbn [bind]; auto.
Qed.

Lemma FoldCheckSum_pairs (bytes : N) (vs : list N) (checkSum : N) :
  FoldCheckSum UpdateCheckSum checkSum (map (pair bytes) vs)
  = fold_left (update UpdateCheckSum bytes) vs checkSum.
Proof.
  revert checkSum. induction vs as [|v t IH]; intros checkSum; [reflexivity|].
  cbn [map]. unfold FoldCheckSum in *. cbn [fold_left fst snd]. apply IH.
Qed.

Lemma FoldCheckSum_app (a b : list (N * N)) (checkSum : N) :
  FoldCheckSum UpdateCheckSum checkSum (a ++ b)
  = FoldCheckSum UpdateCheckSum (FoldCheckSum UpdateCheckSum checkSum a) b.
Proof. unfold FoldCheckSum. apply fold_left_app. Qed.

(** The loop folds, in order, exactly the values of [FoldedSequence]. *)
Lemma checksum_loop_FoldCheckSum (type : EFeatureType) (data : list (option IColumn))
    (metas : list TFeatureMetaInfo) (idx : nat) (checkSum : N) :
  (forall k meta, nth_error metas k = Some meta -> IsAvailable meta = true ->
                  exists c, holder_at data (idx + k) = Some c) ->
  checksum_loop UpdateCheckSum type data (N.of_nat idx) metas checkSum
  = Ok (FoldCheckSum UpdateCheckSum checkSum (FoldedSequence type data idx metas)).
Proof.
  revert idx checkSum. induction metas as [|meta rest IH]; intros idx checkSum H.
  - reflexivity.
  - cbn [checksum_loop FoldedSequence].
    replace (N.of_nat idx + 1) with (N.of_nat (S idx)) by lia.
    assert (HT : forall k m, nth_error rest k = Some m -> IsAvailable m = true ->
                             exists c, holder_at data (S idx + k) = Some c).
    { intros k m Hk Ea. specialize (H (S k) m Hk Ea).
      now rewrite Nat.add_succ_r in H. }
    rewrite FoldCheckSum_app. unfold FoldedValues.
    destruct (IsAvailable meta) eqn:Ea.
    + destruct (H 0%nat meta eq_refl Ea) as (c & Hc). rewrite Nat.add_0_r in Hc.
      rewrite (checksum_feature_available UpdateCheckSum type data checkSum idx meta c Ea Hc).
      rewrite Hc. cbn [bind]. rewrite (IH (S idx) _ HT).
      now rewrite FoldCheckSum_pairs.
    + unfold checksum_feature. rewrite Ea. cbn [bind].
      rewrite (IH (S idx) _ HT). reflexivity.
Qed.

Lemma FoldedSequence_app (type : EFeatureType) (data : list (option IColumn))
    (pre post : list TFeatureMetaInfo) (idx : nat) :
  FoldedSequence type data idx (pre ++ post)
  = FoldedSequence type data idx pre ++ FoldedSequence type data (idx + length pre) post.
Proof.
  revert idx. induction pre as [|m pre IH]; intros idx.
  - cbn [app FoldedSequence length]. now rewrite Nat.add_0_r.
  - cbn [app FoldedSequence length]. rewrite IH, <- app_assoc.
    now rewrite Nat.add_succ_r.
Qed.

(** The loop at an unavailable position: one update with the 4-byte 0,
    between the updates of the positions before and after it. *)
Lemma CalcFeatureValuesCheckSum_unavailable_eq
    (type : EFeatureType) (init : N) (layout : TFeaturesLayout)
    (data : list (option IColumn))
    (pre post : list TFeatureMetaInfo) (meta : TFeatureMetaInfo) :
  GetInternalFeatureMetaInfos layout type = pre ++ meta :: post ->
  IsAvailable meta = false ->
  CalcFeatureValuesCheckSum UpdateCheckSum type init layout data
  = before <- checksum_loop UpdateCheckSum type data 0 pre init ;;
    checksum_loop UpdateCheckSum type data (size pre + 1) post
                  (ui32 (UpdateCheckSum 4 before 0)).
Proof.
  intros Hl Ha. unfold CalcFeatureValuesCheckSum. rewrite Hl.
  rewrite checksum_loop_app. rewrite N.add_0_l.
  destruct (checksum_loop UpdateCheckSum type data 0 pre init) as [before| |];
    cbn [bind]; try reflexivity.
  cbn [checksum_loop]. unfold checksum_feature. rewrite Ha. cbn [bind].
  reflexivity.
Qed.

(** The features checksum is a function of the metadata checksum, the
    availability flags and the decoded values alone: it is the left fold of
    [UpdateCheckSum], from the metadata checksum, over the features in
    type-then-index order and the decoded values of each in row order. *)
Lemma CalcFeaturesCheckSum_fold
    (p : TQuantizedObjectsDataProvider) (info : TQuantizedFeaturesInfo)
    (layout : TFeaturesLayout) :
  QuantizedFeaturesInfo (Data p) = Some info ->
  FeaturesLayout (CommonData (Base p)) = Some layout ->
  AvailablePresent layout (Data p) ->
  CalcFeaturesCheckSum UpdateCheckSum p
  = Ok (FoldCheckSum UpdateCheckSum (CalcCheckSum info) (AllFoldedValues layout (Data p))).
Proof.
  intros Hi Hl Hp. unfold CalcFeaturesCheckSum, CalcFeatureValuesCheckSum.
  rewrite Hi, Hl. cbn [deref bind].
  pose proof (checksum_loop_FoldCheckSum Float (FloatFeatures (Data p))
                (FloatFeatureMetaInfo layout) 0 (CalcCheckSum info)) as HF.
  change (N.of_nat 0) with 0 in HF. cbn [GetInternalFeatureMetaInfos].
  rewrite HF by (intros k meta Hk Ea; exact (Hp Float k meta Hk Ea)).
  cbn [bind].
  pose proof (checksum_loop_FoldCheckSum Categorical (CatFeatures (Data p))
                (CatFeatureMetaInfo layout) 0) as HC.
  change (N.of_nat 0) with 0 in HC.
  rewrite HC by (intros k meta Hk Ea; exact (Hp Categorical k meta Hk Ea)).
  unfold AllFoldedValues. now rewrite FoldCheckSum_app.
Qed.

(** C10: a feature position declared unavailable contributes exactly one
    fold of the 4-byte constant 0 to the checksum of its feature type,
    between what the positions before it and the positions after it
    contribute, whatever the column vector holds there: it is not skipped.
    In the sequence of values folded it stands as the single item (4, 0).
    Availability patterns are not told apart by this: the two one-row
    stores [unavailable_first_provider] and [unavailable_last_provider]
    hold the same available data under different availability patterns,
    fold the same sequence of values and have the same checksum. *)
Theorem CalcFeatureValuesCheckSum_unavailable_feature
    (type : EFeatureType) (init : N) (layout : TFeaturesLayout)
    (data : list (option IColumn))
    (pre post : list TFeatureMetaInfo) (meta : TFeatureMetaInfo) :
  GetInternalFeatureMetaInfos layout type = pre ++ meta :: post ->
  IsAvailable meta = false ->
  CalcFeatureValuesCheckSum UpdateCheckSum type init layout data
  = (before <- checksum_loop UpdateCheckSum type data 0 pre init ;;
     checksum_loop UpdateCheckSum type data (size pre + 1) post
                   (ui32 (UpdateCheckSum 4 before 0))) /\
  FoldedSequence type data 0 (GetInternalFeatureMetaInfos layout type)
  = FoldedSequence type data 0 pre
      ++ (4, 0) :: FoldedSequence type data (S (length pre)) post /\
  (AvailableColumns unavailable_first (Data unavailable_first_provider)
   = AvailableColumns unavailable_last (Data unavailable_last_provider) /\
   AvailabilityPattern unavailable_first <> AvailabilityPattern unavailable_last /\
   AllFoldedValues unavailable_first (Data unavailable_first_provider)
   = AllFoldedValues unavailable_last (Data unavailable_last_provider) /\
   CalcFeaturesCheckSum UpdateCheckSum unavailable_first_provider
   = CalcFeaturesCheckSum UpdateCheckSum unavailable_last_provider).
Proof.
  intros Hl Ha. split; [exact (CalcFeatureValuesCheckSum_unavailable_eq type init layout data pre post
                   meta Hl Ha)|]. split.
  - rewrite Hl, FoldedSequence_app. cbn [FoldedSequence Nat.add].
    unfold FoldedValues. rewrite Ha. reflexivity.
  - split; [reflexivity|]. split; [discriminate|]. split; reflexivity.
Qed.

End CheckSumFacts.

Lemma CalcFeatureValuesCheckSum_unavailable_feature_witness :
  let data := FloatFeatures (Data packed_provider) in
  let pre := [mkFeatureMetaInfo true 0] in
  let post := [mkFeatureMetaInfo true 2] in
  CalcFeatureValuesCheckSum sample_update Float 77 sample_layout data
  = (before <- checksum_loop sample_update Float data 0 pre 77 ;;
     checksum_loop sample_update Float data (size pre + 1) post
                   (ui32 (sample_update 4 before 0))) /\
  FoldedSequence Float data 0 (GetInternalFeatureMetaInfos sample_layout Float)
  = FoldedSequence Float data 0 pre
      ++ (4, 0) :: FoldedSequence Float data (S (length pre)) post /\
  (AvailableColumns unavailable_first (Data unavailable_first_provider)
   = AvailableColumns unavailable_last (Data unavailable_last_provider) /\
   AvailabilityPattern unavailable_first <> AvailabilityPattern unavailable_last /\
   AllFoldedValues unavailable_first (Data unavailable_first_provider)
   = AllFoldedValues unavailable_last (Data unavailable_last_provider) /\
   CalcFeaturesCheckSum sample_update unavailable_first_provider
   = CalcFeaturesCheckSum sample_update unavailable_last_provider).
Proof.
  apply (CalcFeatureValuesCheckSum_unavailable_feature sample_update Float 77 sample_layout
           (FloatFeatures (Data packed_provider))
           [mkFeatureMetaInfo true 0] [mkFeatureMetaInfo true 2]
           (mkFeatureMetaInfo false 1)); reflexivity.
Defined.

(** The folds of that store, computed: the unavailable float feature of
    index 1 stands as (4, 0) between the values of features 0 and 2. *)
Example packed_provider_folds :
  AllFoldedValues sample_layout (Data packed_provider)
  = [(1, 1); (1, 0); (1, 1); (4, 0); (1, 3); (1, 1); (1, 2); (4, 1); (4, 2); (4, 3)] /\
  CalcFeaturesCheckSum sample_update packed_provider
  = Ok (FoldCheckSum sample_update 77
          [(1, 1); (1, 0); (1, 1); (4, 0); (1, 3); (1, 1); (1, 2);
           (4, 1); (4, 2); (4, 3)]).
Proof. split; vm_compute; reflexivity. Qed.

Lemma Check_AvailablePresent (d : TQuantizedObjectsData) (n : N) (layout : TFeaturesLayout) :
  QuantizedObjectsData_Check d n layout = Ok tt -> AvailablePresent layout d.
Proof.
  unfold QuantizedObjectsData_Check. intros H.
  apply bind_Ok_inv in H. destruct H as ([] & _ & H).
  apply bind_Ok_inv in H. destruct H as ([] & HF & HC).
  assert (G : forall type, CheckDataSizes n layout type (FeaturesOf d type) = Ok tt)
    by (intros []; assumption).
  intros type idx meta Hk Ea. specialize (G type). unfold CheckDataSizes in G.
  apply bind_Ok_inv in G. destruct G as ([] & Hsz & Hloop).
  apply CheckDataSize_ok in Hsz. unfold GetFeatureCount, size in Hsz.
  apply Nat2N.inj in Hsz.
  destruct (nth_error (FeaturesOf d type) idx) as [holder|] eqn:Eh.
  - destruct (CheckDataSizes_loop_ok n layout type (FeaturesOf d type) 0 Hloop idx holder Eh)
      as (meta' & Hk' & Hav).
    cbn [Nat.add] in Hk'. rewrite Hk in Hk'. injection Hk' as <-.
    destruct (Hav Ea) as (c & -> & _). exists c. unfold holder_at. now rewrite Eh.
  - apply nth_error_None in Eh.
    assert (idx < length (GetInternalFeatureMetaInfos layout type))%nat
      by (apply nth_error_Some; congruence).
    lia.
Qed.

(** C10, as stated, fails: the two stores hold the same available data (one
    categorical column with the single code 0) under different availability
    patterns, and their checksums are equal whatever [UpdateCheckSum] is. *)
Lemma CalcFeaturesCheckSum_availability_collision :
  AvailableColumns unavailable_first (Data unavailable_first_provider)
    = AvailableColumns unavailable_last (Data unavailable_last_provider) /\
  AvailabilityPattern unavailable_first <> AvailabilityPattern unavailable_last /\
  forall UpdateCheckSum : N -> N -> N -> N,
    CalcFeaturesCheckSum UpdateCheckSum unavailable_first_provider
      = Ok (ui32 (UpdateCheckSum 4 (ui32 (UpdateCheckSum 4 0 0)) 0)) /\
    CalcFeaturesCheckSum UpdateCheckSum unavailable_last_provider
      = Ok (ui32 (UpdateCheckSum 4 (ui32 (UpdateCheckSum 4 0 0)) 0)).
Proof.
  split; [reflexivity|]. split; [discriminate|].
  intros U. split; reflexivity.
Qed.

(* ================================================================== *)
(** ** A 32-bit checksum cannot tell all row orders apart *)
(* ================================================================== *)

Lemma bounded_search (f : N -> N) (v n : N) :
  (exists i, i <= n /\ f i = v) \/ (forall i, i <= n -> f i <> v).
Proof.
  induction n as [|n IH] using N.peano_ind.
  - destruct (N.eq_dec (f 0) v) as [E|E].
    + left. exists 0. split; [lia | exact E].
    + right. intros i Hi. replace i with 0 by lia. exact E.
  - destruct IH as [(i & Hi & E)|H].
    + left. exists i. split; [lia | exact E].
    + destruct (N.eq_dec (f (N.succ n)) v) as [E|E].
      * left. exists (N.succ n). split; [lia | exact E].
      * right. intros i Hi. destruct (N.eq_dec i (N.succ n)) as [->|Hne]; [exact E|].
        apply H. lia.
Qed.

(** [n + 1] arguments, values below [n]: two arguments share a value. *)
Lemma pigeonhole (n : N) :
  forall f : N -> N,
    (forall k, k <= n -> f k < n) ->
    exists i j, i < j /\ j <= n /\ f i = f j.
Proof.
  induction n as [|n IH] using N.peano_ind; intros f Hf.
  - specialize (Hf 0 ltac:(lia)). lia.
  - destruct (bounded_search f (f (N.succ n)) n) as [(i & Hi & E)|Hne].
    + exists i, (N.succ n). repeat split; [lia | lia | exact E].
    + pose proof (Hf (N.succ n) ltac:(lia)) as Hv.
      set (v := f (N.succ n)) in *.
      destruct (IH (fun k => if f k <? v then f k else f k - 1)) as (i & j & Hij & Hj & E).
      { intros k Hk. pose proof (Hne k Hk). pose proof (Hf k ltac:(lia)).
        destruct (f k <? v) eqn:El;
          [apply N.ltb_lt in El | apply N.ltb_ge in El]; lia. }
      exists i, j. repeat split; [lia | lia |].
      pose proof (Hne i ltac:(lia)). pose proof (Hne j ltac:(lia)).
      cbv beta in E.
      destruct (f i <? v) eqn:E1; destruct (f j <? v) eqn:E2;
        rewrite ?N.ltb_lt, ?N.ltb_ge in *; lia.
Qed.

Section RowOrders.

Variable M : N.

Lemma marker_block_length (i : N) :
  i <= M -> length (marker_block M i) = S (N.to_nat M).
Proof.
  intros Hi. unfold marker_block. rewrite length_app. cbn [length].
  rewrite !repeat_length. lia.
Qed.

Lemma marker_position (a b : nat) (x y : list N) :
  repeat 0 a ++ 1 :: x = repeat 0 b ++ 1 :: y -> a = b.
Proof.
  revert b. induction a as [|a IH]; intros [|b] H; simpl in H;
    try discriminate; try reflexivity.
  injection H as H. f_equal. now apply IH.
Qed.

Lemma marker_block_inj (i j : N) :
  i <= M -> j <= M -> marker_block M i = marker_block M j -> i = j.
Proof.
  intros Hi Hj H. apply marker_position in H. lia.
Qed.

Lemma marker_block_perm (i : N) :
  i <= M -> Permutation (marker_block M i) (1 :: repeat 0 (N.to_nat M)).
Proof.
  intros Hi. unfold marker_block. symmetry.
  replace (N.to_nat M) with (N.to_nat i + N.to_nat (M - i))%nat by lia.
  rewrite repeat_app. apply Permutation_middle.
Qed.

Lemma marker_block_range (i : N) : Forall (fun v => v < 256) (marker_block M i).
Proof.
  unfold marker_block. apply Forall_app. split; [|constructor; [reflexivity|]];
    apply Forall_forall; intros v Hv; apply repeat_spec in Hv; subst; reflexivity.
Qed.

Lemma app_inv_same_length {A : Type} (a a' b b' : list A) :
  length a = length a' -> a ++ b = a' ++ b' -> a = a' /\ b = b'.
Proof.
  revert a'. induction a as [|x a IH]; intros [|x' a'] Hl H; simpl in *;
    try discriminate; auto.
  injection H as -> H. injection Hl as Hl.
  destruct (IH a' Hl H) as [-> ->]. auto.
Qed.

Hypothesis HM : 2 ^ 32 < (M + 1) * (M + 1).

Lemma order_index_bounds (k : N) :
  k <= 2 ^ 32 -> k / (M + 1) <= M /\ k mod (M + 1) <= M.
Proof.
  intros Hk. split.
  - assert (k / (M + 1) < M + 1) by (apply N.Div0.div_lt_upper_bound; lia). lia.
  - pose proof (N.mod_lt k (M + 1) ltac:(lia)). lia.
Qed.

Lemma order_column_inj (k1 k2 : N) :
  k1 <= 2 ^ 32 -> k2 <= 2 ^ 32 -> order_column M k1 = order_column M k2 -> k1 = k2.
Proof.
  intros H1 H2 H. unfold order_column in H.
  destruct (order_index_bounds k1 H1) as [Hq1 Hr1].
  destruct (order_index_bounds k2 H2) as [Hq2 Hr2].
  apply app_inv_same_length in H;
    [|now rewrite !marker_block_length by assumption].
  destruct H as [Hq Hr].
  apply marker_block_inj in Hq; [|assumption|assumption].
  apply marker_block_inj in Hr; [|assumption|assumption].
  rewrite (N.div_mod k1 (M + 1)) by lia. rewrite (N.div_mod k2 (M + 1)) by lia.
  now rewrite Hq, Hr.
Qed.

Lemma order_column_perm (k1 k2 : N) :
  k1 <= 2 ^ 32 -> k2 <= 2 ^ 32 ->
  Permutation (order_column M k1) (order_column M k2).
Proof.
  intros H1 H2. unfold order_column.
  destruct (order_index_bounds k1 H1) as [Hq1 Hr1].
  destruct (order_index_bounds k2 H2) as [Hq2 Hr2].
  apply Permutation_app.
  - rewrite (marker_block_perm _ Hq1). symmetry. now apply marker_block_perm.
  - rewrite (marker_block_perm _ Hr1). symmetry. now apply marker_block_perm.
Qed.

Lemma order_column_range (k : N) : Forall (fun v => v < 256) (order_column M k).
Proof. apply Forall_app. split; apply marker_block_range. Qed.

Lemma order_column_nonempty (k : N) : order_column M k <> [].
Proof. unfold order_column, marker_block. now destruct (repeat 0 (N.to_nat (k / (M + 1)))). Qed.

(** The column of [order_provider] decodes to [order_column]. *)
Lemma order_provider_values (k : N) :
  ExtractValues 1 (LoadedColumn Float (mkColumn 0 (TOtherValuesHolder (order_column M k))))
  = order_column M k.
Proof.
  change 1 with (ValueBytes Float). rewrite ExtractValues_LoadedColumn.
  unfold ExtractValues. cbn [Values ValueBytes].
  pose proof (order_column_range k) as Hr.
  induction (order_column M k) as [|v t IH]; [reflexivity|].
  inversion Hr as [|? ? Hv Ht]; subst. cbn [map]. rewrite (IH Ht). f_equal.
  unfold castT. apply N.mod_small. exact Hv.
Qed.

Lemma order_provider_rows (k : N) :
  DecodedRows one_float_layout (Data (order_provider M k))
  = map (fun v => [v]) (order_column M k).
Proof.
  unfold DecodedRows, AvailableColumns, order_provider, provider_of.
  cbn [Data FloatFeatures CatFeatures one_float_layout FloatFeatureMetaInfo
       CatFeatureMetaInfo DecodedColumns IsAvailable holder_at nth_error app ValueBytes].
  rewrite order_provider_values.
  set (w := order_column M k).
  transitivity (map (fun v => [v])
                    (map (fun i => nth i ([] ++ w) 0) (seq (length (@nil N)) (length w)))).
  - rewrite map_map. reflexivity.
  - now rewrite map_nth_seq_from.
Qed.

Lemma order_column_size (k : N) :
  k <= 2 ^ 32 -> size (order_column M k) = 2 * M + 2.
Proof.
  intros Hk. destruct (order_index_bounds k Hk) as [Hq Hr].
  unfold size, order_column. rewrite length_app, !marker_block_length by assumption. lia.
Qed.

(** Every store of the family is well formed: it passes [Check] at its row
    count. *)
Lemma order_provider_Check (k : N) :
  k <= 2 ^ 32 ->
  QuantizedObjectsData_Check (Data (order_provider M k)) (2 * M + 2) one_float_layout = Ok tt.
Proof.
  intros Hk. unfold QuantizedObjectsData_Check, order_provider, provider_of.
  cbn [Data QuantizedFeaturesInfo is_some CB_ENSURE bind FloatFeatures CatFeatures].
  set (c := LoadedColumn Float (mkColumn 0 (TOtherValuesHolder (order_column M k)))).
  assert (Hc : GetSize c = 2 * M + 2).
  { rewrite <- (GetSize_ExtractValues 1 c). unfold c. rewrite order_provider_values.
    now apply order_column_size. }
  assert (HF : CheckDataSizes (2 * M + 2) one_float_layout Float [Some c] = Ok tt).
  { unfold CheckDataSizes, CheckDataSize at 1. cbn [size length GetFeatureCount one_float_layout
      GetInternalFeatureMetaInfos FloatFeatureMetaInfo N.of_nat].
    cbn [N.eqb Pos.eqb orb CB_ENSURE bind CheckDataSizes_loop at_index
         GetInternalFeatureMetaInfos FloatFeatureMetaInfo one_float_layout N.to_nat
         nth_error deref].
    unfold CheckDataSizes_feature. cbn [IsAvailable is_some CB_ENSURE_INTERNAL CB_ENSURE
      bind deref].
    rewrite Hc. unfold CheckDataSize. now rewrite N.eqb_refl. }
  rewrite HF. reflexivity.
Qed.

(** Any two stores of the family hold the same rows in different orders. *)
Lemma order_providers_same_values (i j : N) :
  i < j -> j <= 2 ^ 32 ->
  SameValuesOtherOrder (order_provider M i) (order_provider M j).
Proof.
  intros Hij Hj. exists one_float_layout. repeat split.
  - rewrite !order_provider_rows. apply Permutation_map.
    apply order_column_perm; lia.
  - rewrite !order_provider_rows. intros H.
    assert (Hc : order_column M i = order_column M j).
    { apply (f_equal (map (fun r => hd 0 r))) in H.
      rewrite !map_map in H. cbn [hd] in H. now rewrite !map_id in H. }
    apply order_column_inj in Hc; lia.
Qed.

Section OneUpdate.

Variable UpdateCheckSum : N -> N -> N -> N.

Lemma fold_update_range (bytes : N) (l : list N) (checkSum : N) :
  l <> [] -> fold_left (update UpdateCheckSum bytes) l checkSum < 2 ^ 32.
Proof.
  intros Hne.
  destruct (@exists_last _ l Hne) as (l' & x & ->).
  rewrite fold_left_app. cbn [fold_left]. unfold update, ui32.
  apply N.mod_lt. discriminate.
Qed.

Lemma order_provider_checksum (k : N) :
  CalcFeaturesCheckSum UpdateCheckSum (order_provider M k)
  = Ok (fold_left (update UpdateCheckSum 1) (order_column M k) 0).
Proof.
  unfold CalcFeaturesCheckSum, CalcFeatureValuesCheckSum, order_provider, provider_of.
  cbn [Data Base CommonData FeaturesLayout QuantizedFeaturesInfo deref bind
       CalcCheckSum FloatFeatures CatFeatures GetInternalFeatureMetaInfos
       one_float_layout FloatFeatureMetaInfo CatFeatureMetaInfo checksum_loop].
  set (c := LoadedColumn Float (mkColumn 0 (TOtherValuesHolder (order_column M k)))).
  pose proof (checksum_feature_available UpdateCheckSum Float [Some c] 0 0%nat
                (mkFeatureMetaInfo true 0) c eq_refl eq_refl) as H.
  change (N.of_nat 0) with 0 in H. rewrite H.
  cbn [bind ValueBytes]. unfold c. now rewrite order_provider_values.
Qed.

(** Two of the [2^32 + 1] row orders have the same checksum. *)
Lemma order_providers_collide :
  exists i j,
    i < j /\ j <= 2 ^ 32 /\
    SameValuesOtherOrder (order_provider M i) (order_provider M j) /\
    CalcFeaturesCheckSum UpdateCheckSum (order_provider M i)
    = CalcFeaturesCheckSum UpdateCheckSum (order_provider M j).
Proof.
  destruct (pigeonhole (2 ^ 32)
              (fun k => fold_left (update UpdateCheckSum 1) (order_column M k) 0))
    as (i & j & Hij & Hj & E).
  { intros k _. apply fold_update_range. apply order_column_nonempty. }
  cbv beta in E. exists i, j.
  split; [exact Hij|]. split; [exact Hj|].
  split; [now apply order_providers_same_values|].
  rewrite !order_provider_checksum. now rewrite E.
Qed.

End OneUpdate.

End RowOrders.


(* ------------------------------------------------------------------ *)
(** *** The values folded and the rows of a store *)

(** What [Check] guarantees of the columns the checksum reads: every
    available feature has a column of [objectCount] values. *)
Lemma Check_columns_sized (d : TQuantizedObjectsData) (n : N) (layout : TFeaturesLayout) :
  QuantizedObjectsData_Check d n layout = Ok tt ->
  forall (type : EFeatureType) (idx : nat) (meta : TFeatureMetaInfo),
    nth_error (GetInternalFeatureMetaInfos layout type) idx = Some meta ->
    IsAvailable meta = true ->
    exists c, holder_at (FeaturesOf d type) idx = Some c /\
              length (ExtractValues (ValueBytes type) c) = N.to_nat n.
Proof.
  unfold QuantizedObjectsData_Check. intros H.
  apply bind_Ok_inv in H. destruct H as ([] & _ & H).
  apply bind_Ok_inv in H. destruct H as ([] & HF & HC).
  assert (G : forall type, CheckDataSizes n layout type (FeaturesOf d type) = Ok tt)
    by (intros []; assumption).
  intros type idx meta Hk Ea. specialize (G type). unfold CheckDataSizes in G.
  apply bind_Ok_inv in G. destruct G as ([] & Hsz & Hloop).
  apply CheckDataSize_ok in Hsz. unfold GetFeatureCount, size in Hsz.
  apply Nat2N.inj in Hsz.
  destruct (nth_error (FeaturesOf d type) idx) as [holder|] eqn:Eh.
  - destruct (CheckDataSizes_loop_ok n layout type (FeaturesOf d type) 0 Hloop idx holder Eh)
      as (meta' & Hk' & Hav).
    cbn [Nat.add] in Hk'. rewrite Hk in Hk'. injection Hk' as <-.
    destruct (Hav Ea) as (c & -> & Hc). exists c. unfold holder_at. rewrite Eh.
    split; [reflexivity|].
    rewrite <- (GetSize_ExtractValues (ValueBytes type) c) in Hc. unfold size in Hc. lia.
  - apply nth_error_None in Eh.
    assert (idx < length (GetInternalFeatureMetaInfos layout type))%nat
      by (apply nth_error_Some; congruence).
    lia.
Qed.

Lemma sized_tail (type : EFeatureType) (data : list (option IColumn)) (n idx : nat)
    (meta : TFeatureMetaInfo) (rest : list TFeatureMetaInfo) :
  ColumnsSized type data n idx (meta :: rest) -> ColumnsSized type data n (S idx) rest.
Proof.
  intros H k m Hk Ea. specialize (H (S k) m Hk Ea). now rewrite Nat.add_succ_r in H.
Qed.

Lemma pair_map_inj (bytes : N) (v1 v2 : list N) :
  map (pair bytes) v1 = map (pair bytes) v2 -> v1 = v2.
Proof.
  intros H. apply (f_equal (map snd)) in H. rewrite !map_map in H.
  cbn [snd] in H. now rewrite !map_id in H.
Qed.

Section TwoStores.

Variable type : EFeatureType.
Variables d1 d2 : list (option IColumn).
Variable n : nat.

Lemma FoldedSequence_length (metas : list TFeatureMetaInfo) (idx : nat) :
  ColumnsSized type d1 n idx metas -> ColumnsSized type d2 n idx metas ->
  length (FoldedSequence type d1 idx metas) = length (FoldedSequence type d2 idx metas).
Proof.
  revert idx. induction metas as [|meta rest IH]; intros idx H1 H2; [reflexivity|].
  cbn [FoldedSequence]. rewrite !length_app.
  rewrite (IH (S idx) (sized_tail _ _ _ _ _ _ H1) (sized_tail _ _ _ _ _ _ H2)).
  f_equal. unfold FoldedValues. destruct (IsAvailable meta) eqn:Ea; [|reflexivity].
  destruct (H1 0%nat meta eq_refl Ea) as (c1 & Hc1 & L1).
  destruct (H2 0%nat meta eq_refl Ea) as (c2 & Hc2 & L2).
  rewrite Nat.add_0_r in Hc1, Hc2. rewrite Hc1, Hc2, !length_map. congruence.
Qed.

Lemma DecodedColumns_length (metas : list TFeatureMetaInfo) (idx : nat) :
  ColumnsSized type d1 n idx metas -> ColumnsSized type d2 n idx metas ->
  length (DecodedColumns type d1 idx metas) = length (DecodedColumns type d2 idx metas).
Proof.
  revert idx. induction metas as [|meta rest IH]; intros idx H1 H2; [reflexivity|].
  cbn [DecodedColumns]. rewrite !length_app.
  rewrite (IH (S idx) (sized_tail _ _ _ _ _ _ H1) (sized_tail _ _ _ _ _ _ H2)).
  f_equal. destruct (IsAvailable meta) eqn:Ea; [|reflexivity].
  destruct (H1 0%nat meta eq_refl Ea) as (c1 & Hc1 & L1).
  destruct (H2 0%nat meta eq_refl Ea) as (c2 & Hc2 & L2).
  rewrite Nat.add_0_r in Hc1, Hc2. now rewrite Hc1, Hc2.
Qed.

(** The values folded for one feature type determine the decoded columns,
    and the decoded columns determine the values folded. *)
Lemma FoldedSequence_columns (metas : list TFeatureMetaInfo) (idx : nat) :
  ColumnsSized type d1 n idx metas -> ColumnsSized type d2 n idx metas ->
  (FoldedSequence type d1 idx metas = FoldedSequence type d2 idx metas <->
   DecodedColumns type d1 idx metas = DecodedColumns type d2 idx metas).
Proof.
  revert idx. induction metas as [|meta rest IH]; intros idx H1 H2; [now split|].
  specialize (IH (S idx) (sized_tail _ _ _ _ _ _ H1) (sized_tail _ _ _ _ _ _ H2)).
  cbn [FoldedSequence DecodedColumns]. unfold FoldedValues.
  destruct (IsAvailable meta) eqn:Ea.
  - destruct (H1 0%nat meta eq_refl Ea) as (c1 & Hc1 & L1).
    destruct (H2 0%nat meta eq_refl Ea) as (c2 & Hc2 & L2).
    rewrite Nat.add_0_r in Hc1, Hc2. rewrite Hc1, Hc2. split; intros H.
    + apply app_inv_same_length in H; [|rewrite !length_map; congruence].
      destruct H as [Hv Hr]. apply pair_map_inj in Hv. rewrite Hv.
      cbn [app]. f_equal. now apply IH.
    + cbn [app] in H. injection H as Hv Hr. rewrite Hv. f_equal. now apply IH.
  - cbn [app]. split; intros H.
    + injection H as H. now apply IH.
    + f_equal. now apply IH.
Qed.

Lemma DecodedColumns_sized (metas : list TFeatureMetaInfo) (idx : nat) :
  ColumnsSized type d1 n idx metas ->
  Forall (fun column => length column = n) (DecodedColumns type d1 idx metas).
Proof.
  revert idx. induction metas as [|meta rest IH]; intros idx H1; [constructor|].
  cbn [DecodedColumns]. apply Forall_app. split.
  - destruct (IsAvailable meta) eqn:Ea; [|constructor].
    destruct (H1 0%nat meta eq_refl Ea) as (c1 & Hc1 & L1).
    rewrite Nat.add_0_r in Hc1. rewrite Hc1. constructor; [exact L1 | constructor].
  - apply IH. exact (sized_tail _ _ _ _ _ _ H1).
Qed.

End TwoStores.

(** Columns of one length are the same when their rows are. *)
Lemma columns_of_rows (n : nat) (columns1 columns2 : list (list N)) :
  length columns1 = length columns2 ->
  Forall (fun column => length column = n) columns1 ->
  Forall (fun column => length column = n) columns2 ->
  (forall row, (row < n)%nat ->
     map (fun column => nth row column 0) columns1
     = map (fun column => nth row column 0) columns2) ->
  columns1 = columns2.
Proof.
  revert columns2. induction columns1 as [|c1 t1 IH]; intros [|c2 t2] Hl F1 F2 H;
    try discriminate; [reflexivity|].
  inversion F1 as [|? ? L1 F1']; subst. inversion F2 as [|? ? L2 F2']; subst.
  f_equal.
  - apply (nth_ext c1 c2 0 0); [congruence|].
    intros row Hr. specialize (H row Hr). cbn [map] in H. now injection H.
  - apply IH; [now injection Hl | assumption | assumption |].
    intros row Hr. specialize (H row Hr). cbn [map] in H. now injection H.
Qed.

Lemma map_seq_ext {A : Type} (f g : nat -> A) (n : nat) :
  map f (seq 0 n) = map g (seq 0 n) -> forall row, (row < n)%nat -> f row = g row.
Proof.
  intros H row Hr.
  assert (E : nth_error (map f (seq 0 n)) row = nth_error (map g (seq 0 n)) row)
    by now rewrite H.
  rewrite !nth_error_map, nth_error_seq in E.
  destruct (Nat.ltb_spec row n) as [_|Hge]; [|lia].
  cbn [option_map Nat.add] in E. now injection E.
Qed.

(** For two stores which pass [Check] under one layout and at one row
    count, the sequences folded, the decoded columns and the decoded rows
    are equal together. *)
Lemma AllFoldedValues_rows (layout : TFeaturesLayout) (d1 d2 : TQuantizedObjectsData)
    (objectCount : N) :
  QuantizedObjectsData_Check d1 objectCount layout = Ok tt ->
  QuantizedObjectsData_Check d2 objectCount layout = Ok tt ->
  AllFoldedValues layout d1 = AllFoldedValues layout d2 <->
  DecodedRows layout d1 = DecodedRows layout d2.
Proof.
  intros C1 C2.
  pose proof (Check_columns_sized d1 objectCount layout C1) as S1.
  pose proof (Check_columns_sized d2 objectCount layout C2) as S2.
  assert (SF1 := S1 Float). assert (SC1 := S1 Categorical).
  assert (SF2 := S2 Float). assert (SC2 := S2 Categorical).
  cbn [GetInternalFeatureMetaInfos FeaturesOf ValueBytes] in SF1, SC1, SF2, SC2.
  pose proof (FoldedSequence_columns Float (FloatFeatures d1) (FloatFeatures d2) _ _ 0
                SF1 SF2) as EF.
  pose proof (FoldedSequence_columns Categorical (CatFeatures d1) (CatFeatures d2) _ _ 0
                SC1 SC2) as EC.
  assert (Hcols : AllFoldedValues layout d1 = AllFoldedValues layout d2 <->
                  AvailableColumns layout d1 = AvailableColumns layout d2).
  { unfold AllFoldedValues, AvailableColumns. split; intros H.
    - apply app_inv_same_length in H;
        [|exact (FoldedSequence_length Float _ _ _ _ 0 SF1 SF2)].
      destruct H as [HF HC]. f_equal; [now apply EF | now apply EC].
    - apply app_inv_same_length in H;
        [|exact (DecodedColumns_length Float _ _ _ _ 0 SF1 SF2)].
      destruct H as [HF HC]. f_equal; [now apply EF | now apply EC]. }
  rewrite Hcols. split; intros H.
  - unfold DecodedRows. now rewrite H.
  - assert (F1 : Forall (fun column => length column = N.to_nat objectCount)
                        (AvailableColumns layout d1)).
    { apply Forall_app. split;
        [exact (DecodedColumns_sized Float _ _ _ 0 SF1)
        |exact (DecodedColumns_sized Categorical _ _ _ 0 SC1)]. }
    assert (F2 : Forall (fun column => length column = N.to_nat objectCount)
                        (AvailableColumns layout d2)).
    { apply Forall_app. split;
        [exact (DecodedColumns_sized Float _ _ _ 0 SF2)
        |exact (DecodedColumns_sized Categorical _ _ _ 0 SC2)]. }
    assert (HL : length (AvailableColumns layout d1) = length (AvailableColumns layout d2)).
    { unfold AvailableColumns. rewrite !length_app.
      rewrite (DecodedColumns_length Float _ _ _ _ 0 SF1 SF2).
      now rewrite (DecodedColumns_length Categorical _ _ _ _ 0 SC1 SC2). }
    apply (columns_of_rows (N.to_nat objectCount)); try assumption.
    unfold DecodedRows in H.
    destruct (AvailableColumns layout d1) as [|c1 t1] eqn:E1;
      destruct (AvailableColumns layout d2) as [|c2 t2] eqn:E2; try discriminate.
    + intros row _. reflexivity.
    + inversion F1 as [|? ? L1 _]; subst. inversion F2 as [|? ? L2 _]; subst.
      rewrite L1, L2 in H.
      exact (map_seq_ext _ _ _ H).
Qed.

(** C5: the features checksum is a function of the dataset: the left fold
    of [UpdateCheckSum], from the checksum of the quantization metadata,
    over the features in type-then-index order and the decoded values of
    each in row order, an unavailable feature folding the constant 0.  Of
    two stores which pass [Check] under one layout and at one row count,
    the sequences folded are equal exactly when the rows of decoded values
    are equal in their order: the same rows in another order fold another
    sequence, and equal rows give equal checksums.  Checksums of different
    row orders need not differ: whatever [UpdateCheckSum] is, two of the
    stores [order_provider 65536 k], [k <= 2^32], which hold one multiset
    of rows in pairwise different orders, have the same checksum. *)
Theorem CalcFeaturesCheckSum_row_order
    (UpdateCheckSum : N -> N -> N -> N)
    (p1 p2 : TQuantizedObjectsDataProvider) (info : TQuantizedFeaturesInfo)
    (layout : TFeaturesLayout) (objectCount : N) :
  QuantizedFeaturesInfo (Data p1) = Some info ->
  QuantizedFeaturesInfo (Data p2) = Some info ->
  FeaturesLayout (CommonData (Base p1)) = Some layout ->
  FeaturesLayout (CommonData (Base p2)) = Some layout ->
  QuantizedObjectsData_Check (Data p1) objectCount layout = Ok tt ->
  QuantizedObjectsData_Check (Data p2) objectCount layout = Ok tt ->
  (CalcFeaturesCheckSum UpdateCheckSum p1
   = Ok (FoldCheckSum UpdateCheckSum (CalcCheckSum info) (AllFoldedValues layout (Data p1))) /\
   CalcFeaturesCheckSum UpdateCheckSum p2
   = Ok (FoldCheckSum UpdateCheckSum (CalcCheckSum info) (AllFoldedValues layout (Data p2)))) /\
  (AllFoldedValues layout (Data p1) = AllFoldedValues layout (Data p2) <->
   DecodedRows layout (Data p1) = DecodedRows layout (Data p2)) /\
  (DecodedRows layout (Data p1) = DecodedRows layout (Data p2) ->
   CalcFeaturesCheckSum UpdateCheckSum p1 = CalcFeaturesCheckSum UpdateCheckSum p2) /\
  (exists i j,
     i < j /\ j <= 2 ^ 32 /\
     SameValuesOtherOrder (order_provider 65536 i) (order_provider 65536 j) /\
     CalcFeaturesCheckSum UpdateCheckSum (order_provider 65536 i)
     = CalcFeaturesCheckSum UpdateCheckSum (order_provider 65536 j)).
Proof.
  intros I1 I2 L1 L2 C1 C2.
  pose proof (CalcFeaturesCheckSum_fold UpdateCheckSum p1 info layout I1 L1
                (Check_AvailablePresent _ _ _ C1)) as F1.
  pose proof (CalcFeaturesCheckSum_fold UpdateCheckSum p2 info layout I2 L2
                (Check_AvailablePresent _ _ _ C2)) as F2.
  pose proof (AllFoldedValues_rows layout (Data p1) (Data p2) objectCount C1 C2) as R.
  split; [now split|]. split; [exact R|]. split.
  - intros H. apply R in H. now rewrite F1, F2, H.
  - exact (order_providers_collide 65536 ltac:(reflexivity) UpdateCheckSum).
Qed.

Lemma CalcFeaturesCheckSum_row_order_witness :
  let p1 := packed_provider in
  let p2 := packed_provider_rotated in
  (CalcFeaturesCheckSum sample_update p1
   = Ok (FoldCheckSum sample_update 77 (AllFoldedValues sample_layout (Data p1))) /\
   CalcFeaturesCheckSum sample_update p2
   = Ok (FoldCheckSum sample_update 77 (AllFoldedValues sample_layout (Data p2)))) /\
  (AllFoldedValues sample_layout (Data p1) = AllFoldedValues sample_layout (Data p2) <->
   DecodedRows sample_layout (Data p1) = DecodedRows sample_layout (Data p2)) /\
  (DecodedRows sample_layout (Data p1) = DecodedRows sample_layout (Data p2) ->
   CalcFeaturesCheckSum sample_update p1 = CalcFeaturesCheckSum sample_update p2) /\
  (exists i j,
     i < j /\ j <= 2 ^ 32 /\
     SameValuesOtherOrder (order_provider 65536 i) (order_provider 65536 j) /\
     CalcFeaturesCheckSum sample_update (order_provider 65536 i)
     = CalcFeaturesCheckSum sample_update (order_provider 65536 j)).
Proof.
  exact (CalcFeaturesCheckSum_row_order sample_update packed_provider packed_provider_rotated
           sample_info sample_layout 3 eq_refl eq_refl eq_refl eq_refl eq_refl eq_refl).
Defined.

(** The two stores of the example hold the same three rows, the second
    with the first row moved behind the last; the sequences folded differ,
    and so do the checksums under [sample_update]. *)
Example packed_provider_rotated_folds :
  DecodedRows sample_layout (Data packed_provider) = [[1; 3; 1]; [0; 1; 2]; [1; 2; 3]] /\
  DecodedRows sample_layout (Data packed_provider_rotated)
  = [[0; 1; 2]; [1; 2; 3]; [1; 3; 1]] /\
  SameValuesOtherOrder packed_provider packed_provider_rotated /\
  AllFoldedValues sample_layout (Data packed_provider_rotated)
  = [(1, 0); (1, 1); (1, 1); (4, 0); (1, 1); (1, 2); (1, 3); (4, 2); (4, 3); (4, 1)] /\
  CalcFeaturesCheckSum sample_update packed_provider
  <> CalcFeaturesCheckSum sample_update packed_provider_rotated.
Proof.
  split; [vm_compute; reflexivity|]. split; [vm_compute; reflexivity|]. split.
  - exists sample_layout. split; [reflexivity|]. split; [reflexivity|].
    split; [reflexivity|]. split.
    + change (Permutation ([[1; 3; 1]] ++ [[0; 1; 2]; [1; 2; 3]])
                          ([[0; 1; 2]; [1; 2; 3]] ++ [[1; 3; 1]])).
      apply Permutation_app_comm.
    + vm_compute. discriminate.
  - split; [vm_compute; reflexivity|]. vm_compute. discriminate.
Qed.

(** C5, second half as stated, fails for every [UpdateCheckSum].  The
    stores [order_provider 65536 k], [k <= 2^32], have one float feature
    and 131074 rows, two of them holding 1 and the others 0, the 1s at rows
    [k / 65537] and [65537 + k mod 65537]; each passes [Check], and any two
    of them hold the same multiset of rows in different orders.  They are
    [2^32 + 1] stores with 32-bit checksums: two of them have the same
    checksum, so no [UpdateCheckSum] separates all row orders. *)
Lemma CalcFeaturesCheckSum_row_orders_collide :
  (forall k, k <= 2 ^ 32 ->
     QuantizedObjectsData_Check (Data (order_provider 65536 k)) 131074 one_float_layout
     = Ok tt) /\
  (forall i j, i < j -> j <= 2 ^ 32 ->
     SameValuesOtherOrder (order_provider 65536 i) (order_provider 65536 j)) /\
  (forall UpdateCheckSum : N -> N -> N -> N,
     exists i j,
       i < j /\ j <= 2 ^ 32 /\
       CalcFeaturesCheckSum UpdateCheckSum (order_provider 65536 i)
       = CalcFeaturesCheckSum UpdateCheckSum (order_provider 65536 j)) /\
  ~ (exists UpdateCheckSum : N -> N -> N -> N,
       forall p1 p2,
         SameValuesOtherOrder p1 p2 ->
         CalcFeaturesCheckSum UpdateCheckSum p1 <> CalcFeaturesCheckSum UpdateCheckSum p2).
Proof.
  split; [|split; [|split]].
  - intros k Hk. exact (order_provider_Check 65536 ltac:(reflexivity) k Hk).
  - intros i j Hij Hj. exact (order_providers_same_values 65536 ltac:(reflexivity) i j Hij Hj).
  - intros U.
    destruct (order_providers_collide 65536 ltac:(reflexivity) U) as (i & j & Hij & Hj & _ & E).
    exists i, j. auto.
  - intros (U & H).
    destruct (order_providers_collide 65536 ltac:(reflexivity) U) as (i & j & _ & _ & Hs & E).
    exact (H _ _ Hs E).
Qed.

(* ================================================================== *)
(** ** The representation check of the CPU-specialised provider *)
(* ================================================================== *)

Example QuantizedForCPU_Check_ex1 :
  QuantizedForCPU_Check foreign_class_data
  = Throw ("Incompatible with TQuantizedForCPUObjectsDataProvider: "
           ++ INTERNAL_ERROR_MSG
           ++ "Data.FloatFeatures[1] is not of type TQuantizedFloatValuesHolder")%string.
Proof. vm_compute. reflexivity. Qed.

Example QuantizedForCPU_Check_ex2 :
  QuantizedForCPU_Check sample_data
  = Throw ("Incompatible with TQuantizedForCPUObjectsDataProvider: "
           ++ INTERNAL_ERROR_MSG
           ++ "Can't interpret TCompressedArray's data as raw array because elements are of different size")%string.
Proof. vm_compute. reflexivity. Qed.

Example QuantizedForCPU_Check_ex3 :
  QuantizedForCPU_Check foreign_id_data = Ok tt.
Proof. vm_compute. reflexivity. Qed.

Lemma CheckIsRequiredType_feature_eq (featureType : EFeatureType) (rawBytes : N)
    (requiredTypeName : string) (idx : N) (c : IColumn) :
  CheckIsRequiredType_feature featureType rawBytes requiredTypeName idx (Some c)
  = if IsRequiredRepresentation rawBytes c then Ok tt
    else Throw (offender_what featureType requiredTypeName idx c).
Proof.
  unfold CheckIsRequiredType_feature, IsRequiredRepresentation, offender_what,
    dynamic_cast_compressed, CheckIfCanBeInterpretedAsRawArray.
  destruct (Values c) as [a s|vs]; cbn [is_some deref bind CB_ENSURE_INTERNAL CB_ENSURE].
  - destruct (BitsPerKey a =? rawBytes * 8); reflexivity.
  - reflexivity.
Qed.

Lemma CheckIsRequiredType_loop_eq (featureType : EFeatureType) (rawBytes : N)
    (requiredTypeName : string) (data : list (option IColumn)) (idx : N) :
  CheckIsRequiredType_loop featureType rawBytes requiredTypeName idx data
  = match first_offender rawBytes idx data with
    | Some (i, c) => Throw (offender_what featureType requiredTypeName i c)
    | None => Ok tt
    end.
Proof.
  revert idx. induction data as [|[c|] rest IH]; intros idx.
  - reflexivity.
  - cbn [CheckIsRequiredType_loop first_offender].
    rewrite CheckIsRequiredType_feature_eq.
    destruct (IsRequiredRepresentation rawBytes c); cbn [bind]; [apply IH | reflexivity].
  - cbn [CheckIsRequiredType_loop first_offender CheckIsRequiredType_feature bind]. apply IH.
Qed.

Lemma first_offender_None (rawBytes : N) (data : list (option IColumn)) (idx : N) :
  first_offender rawBytes idx data = None <->
  forall c, In (Some c) data -> IsRequiredRepresentation rawBytes c = true.
Proof.
  revert idx. induction data as [|[c|] rest IH]; intros idx; cbn [first_offender].
  - split; [intros _ c [] | reflexivity].
  - destruct (IsRequiredRepresentation rawBytes c) eqn:E.
    + rewrite IH. split.
      * intros H c' [[= <-]|Hin]; [exact E | now apply H].
      * intros H c' Hin. apply H. now right.
    + split; [discriminate|]. intros H. specialize (H c (or_introl eq_refl)). congruence.
  - rewrite IH. split.
    + intros H c' [Hd|Hin]; [discriminate | now apply H].
    + intros H c' Hin. apply H. now right.
Qed.

Lemma first_offender_Some (rawBytes : N) (data : list (option IColumn)) (idx i : N)
    (c : IColumn) :
  first_offender rawBytes idx data = Some (i, c) ->
  idx <= i /\ nth_error data (N.to_nat (i - idx)) = Some (Some c) /\
  IsRequiredRepresentation rawBytes c = false.
Proof.
  revert idx. induction data as [|[c0|] rest IH]; intros idx H; cbn [first_offender] in H.
  - discriminate.
  - destruct (IsRequiredRepresentation rawBytes c0) eqn:E.
    + destruct (IH (idx + 1) H) as (Hle & Hn & Hr).
      repeat split; [lia | | exact Hr].
      replace (N.to_nat (i - idx)) with (S (N.to_nat (i - (idx + 1)))) by lia. exact Hn.
    + injection H as <- <-. rewrite N.sub_diag. repeat split; [lia | exact E].
  - destruct (IH (idx + 1) H) as (Hle & Hn & Hr).
    repeat split; [lia | | exact Hr].
    replace (N.to_nat (i - idx)) with (S (N.to_nat (i - (idx + 1)))) by lia. exact Hn.
Qed.

(** The verdict of the check, by the first offending column. *)
Lemma QuantizedForCPU_Check_eq (d : TQuantizedObjectsData) :
  QuantizedForCPU_Check d
  = match first_offender 1 0 (FloatFeatures d) with
    | Some (idx, c) =>
        Throw (IncompatiblePrefix
                 ++ offender_what Float "TQuantizedFloatValuesHolder" idx c)
    | None =>
        match first_offender 4 0 (CatFeatures d) with
        | Some (idx, c) =>
            Throw (IncompatiblePrefix
                     ++ offender_what Categorical "TQuantizedCatValuesHolder" idx c)
        | None => Ok tt
        end
    end.
Proof.
  unfold QuantizedForCPU_Check, CheckIsRequiredType.
  rewrite !CheckIsRequiredType_loop_eq.
  destruct (first_offender 1 0 (FloatFeatures d)) as [[i c]|]; cbn [bind]; [reflexivity|].
  destruct (first_offender 4 0 (CatFeatures d)) as [[i c]|]; reflexivity.
Qed.

(** The check succeeds exactly on the stores whose present columns all have
    the required representation. *)
Lemma QuantizedForCPU_Check_Ok_iff (d : TQuantizedObjectsData) :
  QuantizedForCPU_Check d = Ok tt <->
  (forall c, In (Some c) (FloatFeatures d) -> IsRequiredRepresentation 1 c = true) /\
  (forall c, In (Some c) (CatFeatures d) -> IsRequiredRepresentation 4 c = true).
Proof.
  rewrite QuantizedForCPU_Check_eq.
  rewrite <- (first_offender_None 1 (FloatFeatures d) 0).
  rewrite <- (first_offender_None 4 (CatFeatures d) 0).
  destruct (first_offender 1 0 (FloatFeatures d)) as [[i c]|];
    [split; [discriminate | intros [H _]; discriminate]|].
  destruct (first_offender 4 0 (CatFeatures d)) as [[i c]|];
    [split; [discriminate | intros [_ H]; discriminate]|].
  split; auto.
Qed.

(** The error of a bit-packed column of the wrong code width is the same
    wherever the column stands. *)
Lemma QuantizedForCPU_Check_width_error (featureIdx : nat) :
  QuantizedForCPU_Check (wide_float_data featureIdx)
  = Throw (IncompatiblePrefix ++ INTERNAL_ERROR_MSG
             ++ "Can't interpret TCompressedArray's data as raw array because elements are of different size")%string.
Proof.
  rewrite QuantizedForCPU_Check_eq. unfold wide_float_data. cbn [FloatFeatures].
  assert (H : forall idx,
             first_offender 1 idx (repeat None featureIdx ++ [Some wide_float_column])
             = Some (idx + N.of_nat featureIdx, wide_float_column)).
  { induction featureIdx as [|k IH]; intros idx.
    - cbn. now rewrite N.add_0_r.
    - cbn [repeat app first_offender]. rewrite IH. do 2 f_equal. lia. }
  rewrite H. reflexivity.
Qed.

Lemma string_app_assoc (a b c : string) : ((a ++ b) ++ c = a ++ (b ++ c))%string.
Proof. induction a as [|x a IH]; simpl; [reflexivity | now rewrite IH]. Qed.

Lemma Mentions_prefix (needle hay : string) :
  String.prefix needle hay = true -> Mentions needle hay = true.
Proof. intros H. destruct hay; cbn [Mentions]; rewrite H; reflexivity. Qed.

Lemma Mentions_app_l (needle a hay : string) :
  Mentions needle hay = true -> Mentions needle (a ++ hay) = true.
Proof.
  intros H. induction a as [|x a IH]; [exact H|].
  cbn [append Mentions]. rewrite IH. apply orb_true_r.
Qed.

Lemma Mentions_middle (needle a b : string) :
  Mentions needle (a ++ needle ++ b) = true.
Proof. apply Mentions_app_l, Mentions_prefix, prefix_app. Qed.

(** The error of an offending column: an internal-consistency error which,
    once wrapped, names the provider class, and names the feature type and
    index when the column is not of the bit-packed class. *)
Lemma offender_what_names (featureType : EFeatureType) (requiredTypeName : string)
    (idx : N) (c : IColumn) :
  IsInternalError (offender_what featureType requiredTypeName idx c) = true /\
  Mentions "TQuantizedForCPUObjectsDataProvider"
           (IncompatiblePrefix ++ offender_what featureType requiredTypeName idx c) = true /\
  (dynamic_cast_compressed c = None ->
   Mentions (EFeatureType_ToString featureType ++ "Features[" ++ ToString idx ++ "]")
            (IncompatiblePrefix ++ offender_what featureType requiredTypeName idx c) = true).
Proof.
  split; [|split].
  - apply prefix_app.
  - apply (Mentions_middle "TQuantizedForCPUObjectsDataProvider" "Incompatible with "
             (": " ++ offender_what featureType requiredTypeName idx c)).
  - intros Hc. unfold offender_what. rewrite Hc.
    set (needle := (EFeatureType_ToString featureType ++ "Features[" ++ ToString idx ++ "]")%string).
    replace (IncompatiblePrefix ++ INTERNAL_ERROR_MSG ++ "Data."
               ++ EFeatureType_ToString featureType ++ "Features[" ++ ToString idx
               ++ "] is not of type " ++ requiredTypeName)%string
      with ((IncompatiblePrefix ++ INTERNAL_ERROR_MSG ++ "Data.") ++ needle
              ++ (" is not of type " ++ requiredTypeName))%string.
    + apply Mentions_middle.
    + unfold needle. rewrite !string_app_assoc. reflexivity.
Qed.

(** The outcome of the check, for every column store: it returns nothing
    but its verdict, a function of the store.  It succeeds exactly when
    every present float column is bit-packed with 1-byte codes and every
    present categorical column is bit-packed with 4-byte codes.  Otherwise
    it throws the error of the first offending column, floats first, with
    the name of the provider class in front: an internal-consistency error
    which names the feature type and index when the column is not of the
    bit-packed class. *)
Theorem QuantizedForCPU_Check_outcome (d : TQuantizedObjectsData) :
  (QuantizedForCPU_Check d = Ok tt <->
   (forall c, In (Some c) (FloatFeatures d) -> IsRequiredRepresentation 1 c = true) /\
   (forall c, In (Some c) (CatFeatures d) -> IsRequiredRepresentation 4 c = true)) /\
  QuantizedForCPU_Check d
  = match first_offender 1 0 (FloatFeatures d) with
    | Some (idx, c) =>
        Throw (IncompatiblePrefix
                 ++ offender_what Float "TQuantizedFloatValuesHolder" idx c)
    | None =>
        match first_offender 4 0 (CatFeatures d) with
        | Some (idx, c) =>
            Throw (IncompatiblePrefix
                     ++ offender_what Categorical "TQuantizedCatValuesHolder" idx c)
        | None => Ok tt
        end
    end /\
  (forall featureType requiredTypeName idx c,
      IsInternalError (offender_what featureType requiredTypeName idx c) = true /\
      Mentions "TQuantizedForCPUObjectsDataProvider"
               (IncompatiblePrefix ++ offender_what featureType requiredTypeName idx c)
        = true /\
      (dynamic_cast_compressed c = None ->
       Mentions (EFeatureType_ToString featureType ++ "Features[" ++ ToString idx ++ "]")
                (IncompatiblePrefix ++ offender_what featureType requiredTypeName idx c)
         = true)).
Proof.
  split; [apply QuantizedForCPU_Check_Ok_iff|].
  split; [apply QuantizedForCPU_Check_eq|].
  intros. apply offender_what_names.
Qed.

(** C9: on a bit-packed column of the wrong code width the check does not
    name the feature.  The float column of index 3 of [wide_float_data 3]
    is bit-packed with 16-bit codes, which is not the representation the
    provider requires.  The check throws the array's own size complaint
    behind the name of the provider class: that text contains neither the
    index 3 nor any [Features[...]] position, and it is the very text thrown
    when the column stands at index 0.  The other test of the same loop,
    lines 731-734, does name the position: a column of another holder class
    at index 1 is reported as [Data.FloatFeatures[1]]. *)
Theorem QuantizedForCPU_Check_width_error_names_no_index :
  nth_error (FloatFeatures (wide_float_data 3)) 3 = Some (Some wide_float_column) /\
  IsRequiredRepresentation 1 wide_float_column = false /\
  (exists w,
     QuantizedForCPU_Check (wide_float_data 3) = Throw w /\
     Mentions "TQuantizedForCPUObjectsDataProvider" w = true /\
     Mentions (ToString 3) w = false /\
     Mentions "Features[" w = false /\
     QuantizedForCPU_Check (wide_float_data 0) = Throw w) /\
  (exists w',
     QuantizedForCPU_Check foreign_class_data = Throw w' /\
     Mentions "TQuantizedForCPUObjectsDataProvider" w' = true /\
     Mentions ("FloatFeatures[" ++ ToString 1 ++ "]") w' = true).
Proof.
  split; [reflexivity|]. split; [reflexivity|]. split.
  - eexists. split; [apply QuantizedForCPU_Check_width_error|].
    split; [vm_compute; reflexivity|]. split; [vm_compute; reflexivity|].
    split; [vm_compute; reflexivity|].
    apply QuantizedForCPU_Check_width_error.
  - eexists. split; [vm_compute; reflexivity|].
    split; vm_compute; reflexivity.
Qed.

(* ================================================================== *)
(** ** More on [CheckGroupIds] and [CreateObjectsGroupingFromGroupIds] *)
(* ================================================================== *)

(** Without a grouping the loop of [CheckGroupIds] cannot fail, and it
    collects the identifiers that the loop of
    [CreateObjectsGroupingFromGroupIds] collects. *)
Lemma check_scan_simulation (l : list TGroupId) (idxs : list N)
    (st : TScan) (cst : TCheckScan) :
  checkLastGroupId cst = lastGroupId st ->
  checkGroupGroupIds cst = groupGroupIds st ->
  exists cst',
    fold_left (fun acc objectIdx => s <- acc ;; check_step None l s objectIdx)
              idxs (Ok cst) = Ok cst' /\
    checkGroupGroupIds cst' = groupGroupIds (fold_left (scan_step l) idxs st).
Proof.
  revert st cst. induction idxs as [|i idxs IH]; intros st cst Hl Hg.
  - exists cst. split; [reflexivity | exact Hg].
  - cbn [fold_left bind]. unfold check_step at 2, scan_step at 2.
    rewrite Hl.
    destruct (negb (nth (N.to_nat i) l 0 =? lastGroupId st)).
    + cbn [check_boundary bind]. apply IH; cbn; [reflexivity | now rewrite Hg].
    + apply IH; assumption.
Qed.

Lemma CheckGroupIds_without_grouping_eq
    (objectCount : N) (groupIds : option (list TGroupId)) :
  CheckGroupIds objectCount groupIds None
  = fmap (fun _ => tt) (CreateObjectsGroupingFromGroupIds objectCount groupIds).
Proof.
  destruct groupIds as [l|]; [|reflexivity].
  unfold CheckGroupIds, CreateObjectsGroupingFromGroupIds, fmap.
  destruct (CheckDataSize (size l) objectCount "group Ids" false "" false)
    as [[]|w|]; cbn [bind]; try reflexivity.
  destruct (nth_error l 0) as [first|]; [|reflexivity].
  destruct (check_scan_simulation l (xrange (ui32 1) (ui32 (size l)))
              (mkScan 0 first [first] []) (mkCheckScan (mkBounds 0 0) first [first])
              eq_refl eq_refl) as (cst' & -> & Hids).
  cbn [bind]. rewrite Hids.
  destruct (is_end _); reflexivity.
Qed.

(** X3: called without a grouping, [CheckGroupIds] accepts, rejects or is
    undefined on exactly the inputs on which
    [CreateObjectsGroupingFromGroupIds] returns, throws or is undefined, and
    it throws the same exception. *)
Theorem CheckGroupIds_without_grouping
    (objectCount : N) (groupIds : option (list TGroupId)) :
  CheckGroupIds objectCount groupIds None
  = fmap (fun _ => tt) (CreateObjectsGroupingFromGroupIds objectCount groupIds).
Proof. apply CheckGroupIds_without_grouping_eq. Qed.

(* ------------------------------------------------------------------ *)
(** *** A derived grouping agrees with the identifiers it was derived from *)

Lemma Contiguous_last (bs : list TGroupBounds) (start stop : N) (d : TGroupBounds) :
  Contiguous start bs stop -> bs <> [] -> End (last bs d) = stop.
Proof.
  revert start. induction bs as [|b t IH]; intros start HC Hne; [congruence|].
  destruct HC as (_ & _ & HC).
  destruct t as [|b' t'].
  - cbn in *. congruence.
  - change (last (b :: b' :: t') d) with (last (b' :: t') d).
    eapply IH; [exact HC | discriminate].
Qed.

Lemma RunBounds_nonempty (x : TGroupId) (t : list TGroupId) : RunBounds (x :: t) <> [].
Proof.
  intros H. apply (f_equal (@length _)) in H.
  unfold RunBounds in H. rewrite bounds_from_length in H.
  destruct (Runs_cons_shape x t) as (r & rs & Hr). rewrite Hr in H. discriminate.
Qed.

Lemma GetObjectCount_RunBounds (x : TGroupId) (t : list TGroupId) :
  GetObjectCount (ExplicitGrouping (RunBounds (x :: t))) = size (x :: t).
Proof.
  cbn [GetObjectCount].
  apply (Contiguous_last _ 0); [apply RunBounds_Contiguous | apply RunBounds_nonempty].
Qed.

Lemma RunBounds_scan_rest (x : TGroupId) (t : list TGroupId) :
  RunBounds (x :: t) = snd (scan_rest x 0 1 t).
Proof.
  pose proof (scan_rest_Runs t x 0 0) as HR. change (0 + 1) with 1 in HR.
  rewrite HR. cbn [snd]. unfold RunBounds.
  destruct (Runs (x :: t)) as [|r0 rs]; reflexivity.
Qed.

Lemma GetGroup_explicit_middle (pre post : list TGroupBounds) (b : TGroupBounds) :
  GetGroup (ExplicitGrouping (pre ++ b :: post)) (N.of_nat (length pre)) = Ok b.
Proof.
  unfold GetGroup. cbn [GetGroupCount].
  assert (H : (N.of_nat (length pre) <? size (pre ++ b :: post)) = true).
  { apply N.ltb_lt. unfold size. rewrite length_app. cbn [length]. lia. }
  rewrite H. cbn [CB_ENSURE bind]. rewrite Nat2N.id.
  rewrite nth_error_app2 by lia. now rewrite Nat.sub_diag.
Qed.

(** Every change of identifier falls on the end of the run it closes. *)
Lemma ends_agree_scan_rest (rest : list TGroupId) (gl : TGroupId) (b idx : N)
    (pre : list TGroupBounds) :
  ends_agree (ExplicitGrouping (pre ++ snd (scan_rest gl b idx rest)))
             (length pre) (changes gl idx rest) = true.
Proof.
  revert gl b idx pre. induction rest as [|x t IH]; intros gl b idx pre.
  - reflexivity.
  - cbn [scan_rest changes]. destruct (x =? gl).
    + apply IH.
    + destruct (scan_rest x idx (idx + 1) t) as [ids bs] eqn:E.
      cbn [snd ends_agree]. rewrite GetGroup_explicit_middle. cbn [End].
      rewrite N.eqb_refl. cbn [andb].
      specialize (IH x idx (idx + 1) (pre ++ [mkBounds b idx])).
      rewrite E in IH. cbn [snd] in IH.
      rewrite <- app_assoc, length_app, Nat.add_comm in IH. exact IH.
Qed.

Lemma ends_agree_RunBounds (x : TGroupId) (t : list TGroupId) :
  ends_agree (ExplicitGrouping (RunBounds (x :: t))) 0 (ChangePositions (x :: t)) = true.
Proof.
  rewrite ChangePositions_changes, RunBounds_scan_rest.
  exact (ends_agree_scan_rest t x 0 1 []).
Qed.

(** What a successful derivation says about its input. *)
Lemma CreateObjectsGroupingFromGroupIds_Ok_inv
    (objectCount : N) (l : list TGroupId) (g : TObjectsGrouping) :
  objectCount < 2 ^ 32 ->
  CreateObjectsGroupingFromGroupIds objectCount (Some l) = Ok g ->
  exists x t, l = x :: t /\ size l = objectCount /\
              g = ExplicitGrouping (RunBounds l) /\ NoDup (RunIds l).
Proof.
  intros Hlt H.
  assert (Hsz : size l = objectCount).
  { unfold CreateObjectsGroupingFromGroupIds in H.
    destruct (CheckDataSize (size l) objectCount "group Ids" false "" false)
      as [[]|w|] eqn:E; try discriminate.
    eapply CheckDataSize_ok; eassumption. }
  destruct l as [|x t].
  - unfold CreateObjectsGroupingFromGroupIds in H.
    destruct (CheckDataSize _ _ _ _ _ _) as [[]|w|]; discriminate.
  - exists x, t. rewrite (CreateObjectsGroupingFromGroupIds_eq objectCount x t Hlt Hsz) in H.
    destruct (is_end (adjacent_find (Sort (RunIds (x :: t))))) eqn:E;
      cbn [CB_ENSURE bind] in H; [|discriminate].
    injection H as <-. repeat split; auto.
    now apply adjacent_find_Sort.
Qed.

Lemma CheckGroupIds_derived
    (objectCount : N) (l : list TGroupId) (g : TObjectsGrouping) :
  objectCount < 2 ^ 32 ->
  CreateObjectsGroupingFromGroupIds objectCount (Some l) = Ok g ->
  CheckGroupIds objectCount (Some l) (Some g) = Ok tt.
Proof.
  intros Hlt H.
  destruct (CreateObjectsGroupingFromGroupIds_Ok_inv objectCount l g Hlt H)
    as (x & t & -> & Hsz & -> & ND).
  pose proof (CheckGroupIds_with_grouping objectCount x t
                (ExplicitGrouping (RunBounds (x :: t))) Hlt Hsz) as HC.
  rewrite ends_agree_RunBounds in HC.
  rewrite HC by (rewrite GetObjectCount_RunBounds; exact Hsz).
  apply adjacent_find_Sort in ND. now rewrite ND.
Qed.

(** X4: a grouping derived from a sequence of group identifiers passes the
    check of that sequence against it. *)
Theorem CheckGroupIds_accepts_derived_grouping
    (objectCount : N) (l : list TGroupId) (g : TObjectsGrouping) :
  objectCount < 2 ^ 32 ->
  CreateObjectsGroupingFromGroupIds objectCount (Some l) = Ok g ->
  CheckGroupIds objectCount (Some l) (Some g) = Ok tt.
Proof. apply CheckGroupIds_derived. Qed.

Lemma CheckGroupIds_accepts_derived_grouping_witness :
  CheckGroupIds 5 (Some [7; 7; 3; 9; 9])
    (Some (ExplicitGrouping [mkBounds 0 2; mkBounds 2 3; mkBounds 3 5])) = Ok tt.
Proof.
  apply (CheckGroupIds_accepts_derived_grouping 5 [7; 7; 3; 9; 9]).
  - reflexivity.
  - reflexivity.
Defined.

(* ------------------------------------------------------------------ *)
(** *** Sizes that do not match *)

Lemma CheckDataSize_mismatch (dataSize expectedSize : N)
    (dataName expectedSizeName : string) (internalCheck : bool) :
  dataSize <> expectedSize ->
  exists w,
    CheckDataSize dataSize expectedSize dataName false expectedSizeName internalCheck
      = Throw w /\
    (internalCheck = true -> IsInternalError w = true).
Proof.
  intros Hne. unfold CheckDataSize.
  apply N.eqb_neq in Hne. rewrite Hne. cbn [orb andb CB_ENSURE].
  eexists. split; [reflexivity|].
  intros ->. apply prefix_app.
Qed.

(** X5: a sequence of group identifiers whose length is not the object
    count is refused with an input-validation error, whatever grouping is
    supplied; one of the right length given with a grouping of another
    object count is refused with an internal-consistency error. *)
Theorem CheckGroupIds_size_mismatch
    (objectCount : N) (l : list TGroupId) (og : option TObjectsGrouping) :
  (size l <> objectCount ->
   exists w, CheckGroupIds objectCount (Some l) og = Throw w /\
             IsInternalError w = false) /\
  (forall g, og = Some g -> size l = objectCount -> GetObjectCount g <> objectCount ->
   exists w, CheckGroupIds objectCount (Some l) og = Throw w /\
             IsInternalError w = true).
Proof.
  split.
  - intros Hne. unfold CheckGroupIds, CheckDataSize.
    apply N.eqb_neq in Hne. rewrite Hne. cbn [orb andb CB_ENSURE bind].
    eexists. split; [reflexivity|]. reflexivity.
  - intros g -> Hsz Hne. unfold CheckGroupIds.
    unfold CheckDataSize at 1. rewrite Hsz, N.eqb_refl. cbn [orb CB_ENSURE bind].
    destruct (CheckDataSize_mismatch objectCount (GetObjectCount g) "group Ids"
                "objectGrouping's object count" true) as (w & Hw & Hi); [congruence|].
    rewrite Hw. cbn [bind]. exists w. auto.
Qed.

Lemma CheckGroupIds_size_mismatch_witness :
  (exists w, CheckGroupIds 4 (Some [1; 1; 2]) None = Throw w /\
             IsInternalError w = false) /\
  (exists w, CheckGroupIds 3 (Some [1; 1; 2])
               (Some (ExplicitGrouping [mkBounds 0 2; mkBounds 2 4])) = Throw w /\
             IsInternalError w = true).
Proof.
  split.
  - apply (proj1 (CheckGroupIds_size_mismatch 4 [1; 1; 2] None)). discriminate.
  - apply (proj2 (CheckGroupIds_size_mismatch 3 [1; 1; 2]
                    (Some (ExplicitGrouping [mkBounds 0 2; mkBounds 2 4])))
             (ExplicitGrouping [mkBounds 0 2; mkBounds 2 4]) eq_refl).
    + reflexivity.
    + discriminate.
Defined.

(* ------------------------------------------------------------------ *)
(** *** Identifiers that are all different, or all the same *)

Lemma Runs_NoDup (l : list TGroupId) :
  NoDup l -> Runs l = map (fun x => [x]) l.
Proof.
  induction l as [|x t IH]; intros ND; [reflexivity|].
  inversion ND as [|? ? Hx ND']; subst.
  cbn [Runs map]. rewrite (IH ND').
  destruct t as [|y t']; [reflexivity|].
  cbn [map]. destruct (N.eqb_spec x y) as [->|_]; [|reflexivity].
  exfalso. apply Hx. now left.
Qed.

Lemma bounds_from_singletons (l : list TGroupId) (start : nat) :
  bounds_from (N.of_nat start) (map (fun x => [x]) l)
  = map (fun i => mkBounds i (i + 1)) (map N.of_nat (seq start (length l))).
Proof.
  revert start. induction l as [|x t IH]; intros start; [reflexivity|].
  cbn [map bounds_from length seq]. change (size [x]) with 1.
  f_equal. replace (N.of_nat start + 1) with (N.of_nat (S start)) by lia.
  apply IH.
Qed.

Lemma xrange_0 (n : N) : xrange 0 n = map N.of_nat (seq 0 (N.to_nat n)).
Proof. unfold xrange. change (N.to_nat 0) with 0%nat. now rewrite Nat.sub_0_r. Qed.

(** X6: when no identifier occurs twice, the derived grouping has one
    group per row, and looking up a group gives what the trivial grouping
    of that many rows gives. *)
Theorem CreateObjectsGroupingFromGroupIds_distinct_ids
    (objectCount : N) (l : list TGroupId) :
  objectCount < 2 ^ 32 ->
  size l = objectCount ->
  l <> [] ->
  NoDup l ->
  exists g,
    CreateObjectsGroupingFromGroupIds objectCount (Some l) = Ok g /\
    GetGroupCount g = objectCount /\
    GetObjectCount g = objectCount /\
    forall groupIdx, GetGroup g groupIdx = GetGroup (TrivialGrouping objectCount) groupIdx.
Proof.
  intros Hlt Hsz Hne ND.
  destruct l as [|x t]; [congruence|].
  exists (ExplicitGrouping (RunBounds (x :: t))).
  assert (HR : RunBounds (x :: t)
               = map (fun i => mkBounds i (i + 1)) (xrange 0 objectCount)).
  { unfold RunBounds. rewrite (Runs_NoDup _ ND).
    pose proof (bounds_from_singletons (x :: t) 0) as HB.
    change (N.of_nat 0) with 0 in HB. rewrite HB, xrange_0, <- Hsz.
    unfold size. now rewrite Nat2N.id. }
  assert (HG : GetGroupCount (ExplicitGrouping (RunBounds (x :: t))) = objectCount).
  { cbn [GetGroupCount]. rewrite HR. unfold size.
    rewrite length_map, xrange_0, length_map, length_seq. lia. }
  repeat split.
  - rewrite (CreateObjectsGroupingFromGroupIds_eq objectCount x t Hlt Hsz).
    assert (ND' : NoDup (RunIds (x :: t))).
    { unfold RunIds. rewrite (Runs_NoDup _ ND), map_map. cbn [hd].
      now rewrite map_id. }
    apply adjacent_find_Sort in ND'. now rewrite ND'.
  - exact HG.
  - rewrite GetObjectCount_RunBounds. exact Hsz.
  - intros groupIdx. unfold GetGroup. rewrite HG. cbn [GetGroupCount].
    destruct (groupIdx <? objectCount) eqn:E; cbn [CB_ENSURE bind]; [|reflexivity].
    apply N.ltb_lt in E. rewrite HR, xrange_0.
    rewrite nth_error_map, nth_error_map.
    rewrite nth_error_seq.
    destruct (Nat.ltb_spec (N.to_nat groupIdx) (N.to_nat objectCount)) as [_|Hge]; [|lia].
    cbn [option_map]. now rewrite Nat.add_0_l, N2Nat.id.
Qed.

Lemma CreateObjectsGroupingFromGroupIds_distinct_ids_witness :
  exists g,
    CreateObjectsGroupingFromGroupIds 3 (Some [5; 2; 9]) = Ok g /\
    GetGroupCount g = 3 /\
    GetObjectCount g = 3 /\
    forall groupIdx, GetGroup g groupIdx = GetGroup (TrivialGrouping 3) groupIdx.
Proof.
  apply (CreateObjectsGroupingFromGroupIds_distinct_ids 3 [5; 2; 9]).
  - reflexivity.
  - reflexivity.
  - discriminate.
  - repeat constructor; simpl; intuition discriminate.
Defined.

Lemma Runs_repeat (x : TGroupId) (k : nat) : Runs (repeat x (S k)) = [repeat x (S k)].
Proof.
  induction k as [|k IH]; [reflexivity|].
  change (repeat x (S (S k))) with (x :: repeat x (S k)).
  cbn [Runs]. rewrite IH. cbn [repeat]. now rewrite N.eqb_refl.
Qed.

(** X7: when every row carries the same identifier, the derived grouping
    is the single group of all rows. *)
Theorem CreateObjectsGroupingFromGroupIds_one_id (objectCount : N) (id : TGroupId) :
  0 < objectCount ->
  objectCount < 2 ^ 32 ->
  CreateObjectsGroupingFromGroupIds objectCount (Some (repeat id (N.to_nat objectCount)))
  = Ok (ExplicitGrouping [mkBounds 0 objectCount]).
Proof.
  intros Hpos Hlt.
  destruct (N.to_nat objectCount) as [|k] eqn:E; [lia|].
  assert (Hsz : size (repeat id (S k)) = objectCount).
  { unfold size. rewrite repeat_length. lia. }
  change (repeat id (S k)) with (id :: repeat id k) in *.
  rewrite (CreateObjectsGroupingFromGroupIds_eq objectCount id (repeat id k) Hlt Hsz).
  change (id :: repeat id k) with (repeat id (S k)) in *.
  unfold RunIds, RunBounds. rewrite Runs_repeat.
  cbn [map bounds_from]. rewrite Hsz. reflexivity.
Qed.

Lemma CreateObjectsGroupingFromGroupIds_one_id_witness :
  CreateObjectsGroupingFromGroupIds 4 (Some [6; 6; 6; 6])
  = Ok (ExplicitGrouping [mkBounds 0 4]).
Proof.
  apply (CreateObjectsGroupingFromGroupIds_one_id 4 6).
  - reflexivity.
  - reflexivity.
Defined.

(* ================================================================== *)
(** ** More on the checks of the common data and on the constructor *)
(* ================================================================== *)

Lemma CheckDataSize_eq (n : N) (dataName expectedSizeName : string)
    (dataCanBeEmpty internalCheck : bool) :
  CheckDataSize n n dataName dataCanBeEmpty expectedSizeName internalCheck = Ok tt.
Proof. unfold CheckDataSize. now rewrite N.eqb_refl. Qed.

Lemma CheckAllExceptGroupIds_full (d : TCommonObjectsData) :
  (CheckAllExceptGroupIds d = Ok tt <->
   (forall s, SubgroupIds d = Some s ->
              exists g, GroupIds d = Some g /\ size s = size g) /\
   (forall ts, Timestamp d = Some ts -> size ts = Size (SubsetIndexing d))) /\
  (forall w, CheckAllExceptGroupIds d = Throw w -> IsInternalError w = false) /\
  CheckAllExceptGroupIds d <> Undefined.
Proof.
  unfold CheckAllExceptGroupIds.
  destruct (SubgroupIds d) as [s|]; destruct (GroupIds d) as [g|];
    destruct (Timestamp d) as [ts|]; cbn [is_some CB_ENSURE bind];
    unfold CheckDataSize;
    repeat match goal with
           | |- context [?a =? ?b] => destruct (N.eqb_spec a b)
           end;
    cbn [orb andb CB_ENSURE bind];
    (split; [split|split]);
    try discriminate; try reflexivity;
    try (intros [H1 H2]);
    try (intros w Hw; injection Hw as <-; reflexivity);
    try (intros _; split; intros ? [=]; subst; eauto; fail);
    try (exfalso;
         (destruct (H1 s eq_refl) as (g' & Hg' & Hs'); (discriminate || (injection Hg' as <-; congruence)))
         || (specialize (H2 ts eq_refl); congruence)).
Qed.

Lemma CheckAllExceptGroupIds_spec (d : TCommonObjectsData) :
  CheckAllExceptGroupIds d = Ok tt <->
  (forall s, SubgroupIds d = Some s ->
             exists g, GroupIds d = Some g /\ size s = size g) /\
  (forall ts, Timestamp d = Some ts -> size ts = Size (SubsetIndexing d)).
Proof. apply CheckAllExceptGroupIds_full. Qed.

(** X8: [CheckAllExceptGroupIds] returns exactly when subgroup identifiers,
    if any, come with as many group identifiers, and timestamps, if any, are
    as many as the rows of the subset; what it throws otherwise is an
    input-validation error, and it reads nothing that is not there. *)
Theorem CheckAllExceptGroupIds_outcome (d : TCommonObjectsData) :
  (CheckAllExceptGroupIds d = Ok tt <->
   (forall s, SubgroupIds d = Some s ->
              exists g, GroupIds d = Some g /\ size s = size g) /\
   (forall ts, Timestamp d = Some ts -> size ts = Size (SubsetIndexing d))) /\
  (forall w, CheckAllExceptGroupIds d = Throw w -> IsInternalError w = false) /\
  CheckAllExceptGroupIds d <> Undefined.
Proof. apply CheckAllExceptGroupIds_full. Qed.

(* ------------------------------------------------------------------ *)
(** *** What [TCommonObjectsData::Check] establishes *)

Lemma CheckGroupIds_empty_not_Ok (objectCount : N) (og : option TObjectsGrouping) :
  CheckGroupIds objectCount (Some []) og <> Ok tt.
Proof.
  unfold CheckGroupIds.
  destruct (CheckDataSize _ _ _ _ _ _) as [[]|w|]; cbn [bind]; try discriminate.
  destruct og as [g|]; cbn [bind nth_error]; [|discriminate].
  destruct (CheckDataSize _ _ _ _ _ _) as [[]|w|]; cbn [bind]; try discriminate.
  destruct (GetGroup g 0); discriminate.
Qed.

Lemma CommonData_Check_spec (d : TCommonObjectsData) (g : TObjectsGrouping) :
  Size (SubsetIndexing d) < 2 ^ 32 ->
  (CommonData_Check d (Some g) = Ok tt <->
   FeaturesLayout d <> None /\
   GetObjectCount g = Size (SubsetIndexing d) /\
   (forall l, GroupIds d = Some l ->
      l <> [] /\ size l = Size (SubsetIndexing d) /\
      ~ BoundaryMismatch l g /\ ~ IdInSeparatedRuns l) /\
   CheckAllExceptGroupIds d = Ok tt).
Proof.
  intros Hlt. unfold CommonData_Check. split.
  - intros H.
    destruct (FeaturesLayout d) as [layout|]; [|discriminate].
    cbn [is_some CB_ENSURE_INTERNAL CB_ENSURE bind] in H.
    destruct (CheckDataSize (GetObjectCount g) _ _ _ _ _) as [[]|w|] eqn:E1;
      cbn [bind] in H; try discriminate.
    apply CheckDataSize_ok in E1.
    destruct (CheckGroupIds _ (GroupIds d) (Some g)) as [[]|w|] eqn:E2;
      cbn [bind] in H; try discriminate.
    repeat split; try assumption; try discriminate.
    + intros ->. rewrite H0 in E2. now apply CheckGroupIds_empty_not_Ok in E2.
    + rewrite H0 in E2. unfold CheckGroupIds in E2.
      destruct (CheckDataSize (size l) _ _ _ _ _) as [[]|w|] eqn:E3;
        cbn [bind] in E2; try discriminate.
      eapply CheckDataSize_ok; eassumption.
    + rewrite H0 in E2. destruct l as [|x t].
      { now apply CheckGroupIds_empty_not_Ok in E2. }
      assert (Hsz : size (x :: t) = Size (SubsetIndexing d)).
      { unfold CheckGroupIds in E2.
        destruct (CheckDataSize (size (x :: t)) _ _ _ _ _) as [[]|w|] eqn:E3;
          cbn [bind] in E2; try discriminate.
        eapply CheckDataSize_ok; eassumption. }
      pose proof (CheckGroupIds_with_grouping _ x t g Hlt Hsz E1) as HC.
      intros Hm. apply BoundaryMismatch_iff in Hm. rewrite Hm in HC.
      destruct HC as (w & Hw & _). congruence.
    + rewrite H0 in E2. destruct l as [|x t].
      { now apply CheckGroupIds_empty_not_Ok in E2. }
      assert (Hsz : size (x :: t) = Size (SubsetIndexing d)).
      { unfold CheckGroupIds in E2.
        destruct (CheckDataSize (size (x :: t)) _ _ _ _ _) as [[]|w|] eqn:E3;
          cbn [bind] in E2; try discriminate.
        eapply CheckDataSize_ok; eassumption. }
      pose proof (CheckGroupIds_with_grouping _ x t g Hlt Hsz E1) as HC.
      destruct (ends_agree g 0 (ChangePositions (x :: t))).
      * rewrite HC in E2.
        destruct (is_end (adjacent_find (Sort (RunIds (x :: t))))) eqn:E4;
          [|discriminate].
        apply adjacent_find_Sort in E4.
        intros Hs. now apply IdInSeparatedRuns_iff in Hs.
      * destruct HC as (w & Hw & _). congruence.
  - intros (HL & HG & HI & HA).
    destruct (FeaturesLayout d) as [layout|]; [|congruence].
    cbn [is_some CB_ENSURE_INTERNAL CB_ENSURE bind].
    rewrite HG, CheckDataSize_eq. cbn [bind].
    destruct (GroupIds d) as [l|].
    + destruct (HI l eq_refl) as (Hne & Hsz & Hm & Hs).
      destruct l as [|x t]; [congruence|].
      pose proof (CheckGroupIds_with_grouping _ x t g Hlt Hsz HG) as HC.
      destruct (ends_agree g 0 (ChangePositions (x :: t))) eqn:E.
      * rewrite HC.
        assert (ND : NoDup (RunIds (x :: t))).
        { destruct (ListDec.NoDup_dec N.eq_dec (RunIds (x :: t))) as [ND|ND]; auto.
          exfalso. apply Hs. now apply IdInSeparatedRuns_iff. }
        apply adjacent_find_Sort in ND. rewrite ND. cbn [CB_ENSURE bind]. exact HA.
      * exfalso. apply Hm. now apply BoundaryMismatch_iff.
    + cbn [CheckGroupIds bind]. exact HA.
Qed.



(* ------------------------------------------------------------------ *)
(** *** The order a provider comes out with *)

Lemma NonDecreasing_tail (x : N) (t : list N) : NonDecreasing (x :: t) -> NonDecreasing t.
Proof.
  intros H i j a b Hij Hi Hj. apply (H (S i) (S j)); [lia | exact Hi | exact Hj].
Qed.

Lemma is_sorted_NonDecreasing (ts : list N) : is_sorted ts = true <-> NonDecreasing ts.
Proof.
  induction ts as [|x [|y t] IH].
  - split; [|reflexivity]. intros _ i j a b _ Hi. destruct i; discriminate.
  - split; [|reflexivity]. intros _ i j a b Hij Hi Hj.
    destruct j as [|[|j]]; try discriminate. lia.
  - change (is_sorted (x :: y :: t)) with (negb (y <? x) && is_sorted (y :: t)).
    rewrite andb_true_iff, negb_true_iff, N.ltb_ge, IH. split.
    + intros [Hxy Ht] i j a b Hij Hi Hj.
      destruct j as [|j]; [lia|]. destruct i as [|i].
      * injection Hi as <-. destruct j as [|j].
        -- injection Hj as <-. exact Hxy.
        -- apply N.le_trans with y; [exact Hxy|].
           apply (Ht 0%nat (S j)); [lia | reflexivity | exact Hj].
      * apply (Ht i j); [lia | exact Hi | exact Hj].
    + intros H. split.
      * apply (H 0%nat 1%nat); [lia | reflexivity | reflexivity].
      * eapply NonDecreasing_tail; exact H.
Qed.

Lemma nth_error_last (l : list N) (x : N) :
  nth_error (x :: l) (length l) = Some (last (x :: l) 0).
Proof.
  destruct (@exists_last _ (x :: l)) as (l' & z & Hz); [discriminate|].
  rewrite Hz, last_last.
  assert (length l = length l').
  { apply (f_equal (@length N)) in Hz. rewrite length_app in Hz. simpl in Hz. lia. }
  rewrite H, nth_error_app2 by lia. now rewrite Nat.sub_diag.
Qed.

(** In a sequence that never decreases, equal ends leave room for one value
    only. *)
Lemma NonDecreasing_ends (x : N) (t : list N) :
  NonDecreasing (x :: t) -> (x = last (x :: t) 0 <-> AllEqual (x :: t)).
Proof.
  intros HN. split.
  - intros He.
    assert (Hall : forall a, In a (x :: t) -> a = x).
    { intros a Ha. apply In_nth_error in Ha. destruct Ha as [i Hi].
      assert (Hlen : (i < length (x :: t))%nat).
      { apply nth_error_Some. congruence. }
      cbn [length] in Hlen.
      assert (x <= a).
      { destruct i as [|i]; [injection Hi as <-; lia|].
        apply (HN 0%nat (S i)); [lia | reflexivity | exact Hi]. }
      assert (a <= last (x :: t) 0).
      { destruct (Nat.eq_dec i (length t)) as [->|Hne].
        - rewrite nth_error_last in Hi. injection Hi as Hi. rewrite <- Hi.
          apply N.le_refl.
        - apply (HN i (length t)); [lia | exact Hi | apply nth_error_last]. }
      lia. }
    intros a b Ha Hb. rewrite (Hall a Ha), (Hall b Hb). reflexivity.
  - intros Heq. apply Heq; [now left|].
    destruct (@exists_last _ (x :: t)) as (l' & z & Hz); [discriminate|].
    rewrite Hz, last_last. apply in_or_app. right. now left.
Qed.

Lemma set_Order_same (d : TCommonObjectsData) : set_Order d (Order d) = d.
Proof. now destruct d. Qed.

Lemma promote_order_outcome (g : TObjectsGrouping) (d d' : TCommonObjectsData) :
  promote_order g d = Ok d' ->
  d' = set_Order d (Order d') /\
  (Order d' = Ordered <->
   Order d = Ordered \/
   (Order d = OrderUndefined /\
    exists ts, Timestamp d = Some ts /\ 2 <= GetObjectCount g /\
               NonDecreasing ts /\ ~ AllEqual ts)) /\
  (Order d' = RandomShuffled <-> Order d = RandomShuffled).
Proof.
  unfold promote_order. intros H.
  assert (Same : d' = d ->
            (Order d = OrderUndefined ->
             forall ts, Timestamp d = Some ts -> 2 <= GetObjectCount g ->
                        NonDecreasing ts -> ~ AllEqual ts -> False) ->
            d' = set_Order d (Order d') /\
            (Order d' = Ordered <->
             Order d = Ordered \/
             (Order d = OrderUndefined /\
              exists ts, Timestamp d = Some ts /\ 2 <= GetObjectCount g /\
                         NonDecreasing ts /\ ~ AllEqual ts)) /\
            (Order d' = RandomShuffled <-> Order d = RandomShuffled)).
  { intros -> Hno. split; [now rewrite set_Order_same|]. split; [|reflexivity].
    split; [now left|].
    intros [Ho|(Ho & ts & Ht & Hc & Hn & Ha)]; [exact Ho|].
    exfalso. eapply Hno; eassumption. }
  destruct (Order d) eqn:Ho.
  - injection H as <-. apply Same; [reflexivity | discriminate].
  - injection H as <-. apply Same; [reflexivity | discriminate].
  - destruct (Timestamp d) as [ts|] eqn:Ht.
    2:{ injection H as <-. apply Same; [reflexivity|]. intros _ ts [=]. }
    destruct (1 <? GetObjectCount g) eqn:Hc.
    2:{ injection H as <-. apply Same; [reflexivity|].
        intros _ ts' _ Hc'. apply N.ltb_ge in Hc. lia. }
    destruct (is_sorted ts) eqn:Hs.
    2:{ injection H as <-. apply Same; [reflexivity|].
        intros _ ts' [= <-] _ Hn. apply is_sorted_NonDecreasing in Hn. congruence. }
    destruct ts as [|x t]; [discriminate|].
    cbn [front back bind] in H.
    apply is_sorted_NonDecreasing in Hs.
    destruct (N.eqb_spec x (last (x :: t) 0)) as [He|Hne]; cbn [negb] in H;
      injection H as <-.
    + apply Same; [reflexivity|].
      intros _ ts' [= <-] _ _ Ha. apply Ha. now apply NonDecreasing_ends.
    + cbn [set_Order Order]. split; [reflexivity|]. split.
      * split; [|reflexivity]. intros _. right. split; [reflexivity|].
        exists (x :: t). apply N.ltb_lt in Hc. repeat split; try assumption; try lia.
        intros Ha. apply Hne. now apply NonDecreasing_ends.
      * split; discriminate.
Qed.

(** X10: the order a provider is built with.  Nothing of the common data
    but the order is altered; the order comes out [Ordered] exactly when
    it was given so, or was left undefined with at least 2 objects and
    timestamps that never decrease and are not all equal; it comes out
    [RandomShuffled] exactly when it was given so. *)
Theorem TObjectsDataProvider_order_criterion
    (objectsGrouping : option TObjectsGrouping) (commonData : TCommonObjectsData)
    (skipCheck : bool) (p : TObjectsDataProvider) :
  TObjectsDataProvider_new objectsGrouping commonData skipCheck = Ok p ->
  CommonData p = set_Order commonData (Order (CommonData p)) /\
  (Order (CommonData p) = Ordered <->
   Order commonData = Ordered \/
   (Order commonData = OrderUndefined /\
    exists ts, Timestamp commonData = Some ts /\
               2 <= GetObjectCount (ObjectsGrouping p) /\
               NonDecreasing ts /\ ~ AllEqual ts)) /\
  (Order (CommonData p) = RandomShuffled <-> Order commonData = RandomShuffled).
Proof.
  unfold TObjectsDataProvider_new. intros H.
  destruct (provider_grouping objectsGrouping commonData skipCheck) as [g|w|];
    cbn [bind] in H; try discriminate.
  destruct (promote_order g commonData) as [d'|w|] eqn:E; cbn [bind] in H;
    try discriminate.
  injection H as <-. cbn [CommonData ObjectsGrouping].
  now apply promote_order_outcome.
Qed.

Lemma TObjectsDataProvider_order_criterion_witness :
  let p := mkObjectsDataProvider (TrivialGrouping 3)
             (set_Order repeated_timestamp_data Ordered) in
  CommonData p = set_Order repeated_timestamp_data (Order (CommonData p)) /\
  (Order (CommonData p) = Ordered <->
   Order repeated_timestamp_data = Ordered \/
   (Order repeated_timestamp_data = OrderUndefined /\
    exists ts, Timestamp repeated_timestamp_data = Some ts /\
               2 <= GetObjectCount (ObjectsGrouping p) /\
               NonDecreasing ts /\ ~ AllEqual ts)) /\
  (Order (CommonData p) = RandomShuffled <->
   Order repeated_timestamp_data = RandomShuffled).
Proof.
  apply (TObjectsDataProvider_order_criterion None repeated_timestamp_data false).
  reflexivity.
Defined.

(* ------------------------------------------------------------------ *)
(** *** With its checks on, the constructor reads nothing that is not there *)

Lemma GetGroup_defined (g : TObjectsGrouping) (groupIdx : N) :
  GetGroup g groupIdx <> Undefined.
Proof.
  unfold GetGroup. destruct (groupIdx <? GetGroupCount g) eqn:E;
    cbn [CB_ENSURE bind]; [|discriminate].
  destruct g as [n|b]; [discriminate|].
  apply N.ltb_lt in E. cbn [GetGroupCount] in E. unfold size in E.
  destruct (nth_error b (N.to_nat groupIdx)) eqn:En; [discriminate|].
  apply nth_error_None in En. lia.
Qed.

Lemma check_step_defined (og : option TObjectsGrouping) (l : list TGroupId)
    (st : TCheckScan) (objectIdx : N) :
  check_step og l st objectIdx <> Undefined.
Proof.
  unfold check_step. destruct (negb _); [|discriminate].
  unfold check_boundary. destruct og as [g|]; [|discriminate].
  unfold CB_ENSURE_INTERNAL, CB_ENSURE.
  destruct (objectIdx =? End (currentGroupBounds st)); cbn [bind]; [|discriminate].
  pose proof (GetGroup_defined g (ui32 (size (checkGroupGroupIds st)))) as HG.
  destruct (GetGroup g _); cbn [bind]; congruence.
Qed.

Lemma fold_check_defined (og : option TObjectsGrouping) (l : list TGroupId)
    (idxs : list N) (st : TCheckScan) :
  fold_left (fun acc objectIdx => s <- acc ;; check_step og l s objectIdx) idxs (Ok st)
  <> Undefined.
Proof.
  revert st. induction idxs as [|i idxs IH]; intros st; [discriminate|].
  cbn [fold_left bind].
  pose proof (check_step_defined og l st i) as HS.
  destruct (check_step og l st i) as [st'|w|]; [apply IH | | congruence].
  rewrite fold_check_Throw. discriminate.
Qed.

Lemma CheckDataSize_defined (dataSize expectedSize : N) (dataName expectedSizeName : string)
    (dataCanBeEmpty internalCheck : bool) :
  CheckDataSize dataSize expectedSize dataName dataCanBeEmpty expectedSizeName internalCheck
  <> Undefined.
Proof. unfold CheckDataSize, CB_ENSURE. destruct (_ || _); discriminate. Qed.

Lemma CheckGroupIds_defined (objectCount : N) (groupIds : option (list TGroupId))
    (og : option TObjectsGrouping) :
  groupIds <> Some [] ->
  CheckGroupIds objectCount groupIds og <> Undefined.
Proof.
  intros Hne. destruct groupIds as [[|x t]|]; [congruence | | discriminate].
  unfold CheckGroupIds.
  pose proof (CheckDataSize_defined (size (x :: t)) objectCount "group Ids" "" false false).
  destruct (CheckDataSize _ _ _ _ _ _) as [[]|w|]; cbn [bind]; try congruence.
  assert (HC : forall current,
             (st <- fold_left (fun acc objectIdx =>
                                 s <- acc ;; check_step og (x :: t) s objectIdx)
                              (xrange (ui32 1) (ui32 (size (x :: t))))
                              (Ok (mkCheckScan current x [x])) ;;
              CB_ENSURE (is_end (adjacent_find (Sort (checkGroupGroupIds st))))
                        "group Ids are not consecutive") <> Undefined).
  { intros current.
    pose proof (fold_check_defined og (x :: t) (xrange (ui32 1) (ui32 (size (x :: t))))
                  (mkCheckScan current x [x])) as HF.
    destruct (fold_left _ _ _) as [st|w|]; cbn [bind]; try congruence.
    unfold CB_ENSURE. destruct (is_end _); discriminate. }
  destruct og as [g|]; cbn [bind nth_error].
  - pose proof (CheckDataSize_defined (size (x :: t)) (GetObjectCount g) "group Ids"
                  "objectGrouping's object count" false true).
    destruct (CheckDataSize _ _ _ _ _ _) as [[]|w|]; cbn [bind]; try congruence.
    pose proof (GetGroup_defined g 0).
    destruct (GetGroup g 0) as [c|w|]; cbn [bind]; [apply HC | discriminate | congruence].
  - apply HC.
Qed.

Lemma CheckAllExceptGroupIds_defined (d : TCommonObjectsData) :
  CheckAllExceptGroupIds d <> Undefined.
Proof.
  unfold CheckAllExceptGroupIds.
  destruct (SubgroupIds d) as [s|]; destruct (GroupIds d) as [g|];
    destruct (Timestamp d) as [ts|]; cbn [is_some CB_ENSURE bind];
    unfold CheckDataSize, CB_ENSURE;
    repeat match goal with
           | |- context [?a =? ?b] => destruct (a =? b)
           end;
    cbn [orb andb bind]; discriminate.
Qed.

Lemma CheckAllExceptGroupIds_timestamps (d : TCommonObjectsData) (ts : list N) :
  CheckAllExceptGroupIds d = Ok tt -> Timestamp d = Some ts ->
  size ts = Size (SubsetIndexing d).
Proof.
  unfold CheckAllExceptGroupIds. intros H Ht. rewrite Ht in H.
  destruct (match SubgroupIds d with Some _ => _ | None => _ end) as [[]|w|];
    cbn [bind] in H; try discriminate.
  eapply CheckDataSize_ok; eassumption.
Qed.

Lemma promote_order_defined (g : TObjectsGrouping) (d : TCommonObjectsData) :
  (forall ts, Timestamp d = Some ts -> size ts = GetObjectCount g) ->
  promote_order g d <> Undefined.
Proof.
  intros Hts. unfold promote_order.
  destruct (Order d); try discriminate.
  destruct (Timestamp d) as [ts|]; [|discriminate].
  destruct (1 <? GetObjectCount g) eqn:E; [|discriminate].
  destruct (is_sorted ts); [|discriminate].
  destruct ts as [|x t].
  - specialize (Hts [] eq_refl). apply N.ltb_lt in E. rewrite <- Hts in E.
    cbn in E. lia.
  - cbn [front back bind]. destruct (negb _); discriminate.
Qed.

(** X11: built with its checks on ([skipCheck] false), for a row count
    that fits [ui32] and group identifiers that are absent or not empty,
    [TObjectsDataProvider] returns or throws: it never reads outside an
    array, whatever the grouping, identifiers and timestamps are. *)
Theorem TObjectsDataProvider_new_defined
    (objectsGrouping : option TObjectsGrouping) (commonData : TCommonObjectsData) :
  Size (SubsetIndexing commonData) < 2 ^ 32 ->
  GroupIds commonData <> Some [] ->
  TObjectsDataProvider_new objectsGrouping commonData false <> Undefined.
Proof.
  intros Hlt Hne. unfold TObjectsDataProvider_new.
  destruct (provider_grouping objectsGrouping commonData false) as [g|w|] eqn:E;
    cbn [bind]; [|discriminate|].
  - assert (Hts : forall ts, Timestamp commonData = Some ts ->
                             size ts = GetObjectCount g).
    { intros ts Ht. unfold provider_grouping in E.
      destruct objectsGrouping as [g0|]; cbn [negb] in E.
      - destruct (CommonData_Check commonData (Some g0)) as [[]|w|] eqn:EC;
          cbn [bind] in E; try discriminate.
        injection E as ->.
        apply (CommonData_Check_spec commonData g Hlt) in EC.
        destruct EC as (_ & HG & _ & HA).
        rewrite HG. eapply CheckAllExceptGroupIds_timestamps; eassumption.
      - destruct (CheckAllExceptGroupIds commonData) as [[]|w|] eqn:EC;
          cbn [bind] in E; try discriminate.
        rewrite (CheckAllExceptGroupIds_timestamps commonData ts EC Ht).
        destruct (GroupIds commonData) as [l|].
        + destruct (CreateObjectsGroupingFromGroupIds_Ok_inv _ l g Hlt E)
            as (x & t & -> & Hsz & -> & _).
          now rewrite GetObjectCount_RunBounds.
        + cbn in E. injection E as <-. reflexivity. }
    pose proof (promote_order_defined g commonData Hts) as HP.
    destruct (promote_order g commonData); cbn [bind]; congruence.
  - exfalso. unfold provider_grouping in E.
    destruct objectsGrouping as [g0|]; cbn [negb] in E.
    + unfold CommonData_Check in E.
      unfold CB_ENSURE_INTERNAL, CB_ENSURE in E.
      destruct (is_some (FeaturesLayout commonData)); cbn [bind] in E; [|discriminate].
      pose proof (CheckDataSize_defined (GetObjectCount g0)
                    (Size (SubsetIndexing commonData))
                    "objectsGrouping's object count" "SubsetIndexing's Size" false false).
      destruct (CheckDataSize _ _ _ _ _ _) as [[]|w|]; cbn [bind] in E;
        try congruence.
      pose proof (CheckGroupIds_defined (Size (SubsetIndexing commonData))
                    (GroupIds commonData) (Some g0) Hne).
      destruct (CheckGroupIds _ _ _) as [[]|w|]; cbn [bind] in E; try congruence.
      pose proof (CheckAllExceptGroupIds_defined commonData).
      destruct (CheckAllExceptGroupIds commonData) as [[]|w|]; cbn [bind] in E;
        congruence.
    + pose proof (CheckAllExceptGroupIds_defined commonData).
      destruct (CheckAllExceptGroupIds commonData) as [[]|w|]; cbn [bind] in E;
        try congruence.
      pose proof (CheckGroupIds_defined (Size (SubsetIndexing commonData))
                    (GroupIds commonData) None Hne) as HD.
      rewrite CheckGroupIds_without_grouping_eq in HD.
      destruct (CreateObjectsGroupingFromGroupIds _ _); cbn [fmap bind] in HD;
        congruence.
Qed.

Lemma TObjectsDataProvider_new_defined_witness :
  TObjectsDataProvider_new (Some grouped_data_grouping) grouped_data false <> Undefined.
Proof.
  apply (TObjectsDataProvider_new_defined (Some grouped_data_grouping) grouped_data).
  - reflexivity.
  - discriminate.
Defined.

(* ================================================================== *)
(** ** More on [TQuantizedObjectsData::Check] *)
(* ================================================================== *)

Lemma at_index_nth_error {A : Type} (v : list A) (idx : nat) (a : A) :
  nth_error v idx = Some a -> at_index v (N.of_nat idx) = Ok a.
Proof. intros H. unfold at_index. now rewrite Nat2N.id, H. Qed.

Lemma N_of_nat_S (idx : nat) : N.of_nat idx + 1 = N.of_nat (S idx).
Proof. lia. Qed.

Lemma CheckDataSizes_loop_complete (n : N) (layout : TFeaturesLayout) (type : EFeatureType)
    (data : list (option IColumn)) (idx : nat) :
  (forall (k : nat) (holder : option IColumn),
      nth_error data k = Some holder ->
      exists meta,
        nth_error (GetInternalFeatureMetaInfos layout type) (idx + k) = Some meta /\
        (IsAvailable meta = true -> exists c, holder = Some c /\ GetSize c = n)) ->
  CheckDataSizes_loop n layout type (N.of_nat idx) data = Ok tt.
Proof.
  revert idx. induction data as [|h rest IH]; intros idx H; [reflexivity|].
  cbn [CheckDataSizes_loop].
  destruct (H 0%nat h eq_refl) as (meta & Hm & Ha). rewrite Nat.add_0_r in Hm.
  rewrite (at_index_nth_error _ _ _ Hm). cbn [bind].
  assert (HF : CheckDataSizes_feature n type (N.of_nat idx) meta h = Ok tt).
  { unfold CheckDataSizes_feature. destruct (IsAvailable meta); [|reflexivity].
    destruct (Ha eq_refl) as (c & -> & Hc).
    cbn [is_some CB_ENSURE_INTERNAL CB_ENSURE bind deref].
    rewrite Hc. apply CheckDataSize_eq. }
  rewrite HF. cbn [bind]. rewrite N_of_nat_S. apply IH.
  intros k holder Hk. specialize (H (S k) holder Hk).
  now rewrite Nat.add_succ_r in H.
Qed.

Lemma size_eq_length {A B : Type} (l1 : list A) (l2 : list B) :
  size l1 = size l2 -> length l1 = length l2.
Proof. unfold size. lia. Qed.

Lemma CheckDataSizes_spec (n : N) (layout : TFeaturesLayout) (type : EFeatureType)
    (data : list (option IColumn)) :
  CheckDataSizes n layout type data = Ok tt <-> ColumnsFitLayout n layout type data.
Proof.
  unfold CheckDataSizes, ColumnsFitLayout. split.
  - intros H. apply bind_Ok_inv in H. destruct H as ([] & Hsz & Hloop).
    apply CheckDataSize_ok in Hsz. split; [exact Hsz|].
    intros idx meta Hm Ha.
    assert (Hlen : (idx < length data)%nat).
    { apply size_eq_length in Hsz. rewrite Hsz. apply nth_error_Some. congruence. }
    destruct (nth_error data idx) as [holder|] eqn:Hh.
    2:{ apply nth_error_None in Hh. lia. }
    destruct (CheckDataSizes_loop_ok n layout type data 0 Hloop idx holder Hh)
      as (meta' & Hm' & Hc).
    cbn [Nat.add] in Hm'. rewrite Hm in Hm'. injection Hm' as <-.
    destruct (Hc Ha) as (c & -> & Hs). exists c. auto.
  - intros [Hsz Hall]. unfold GetFeatureCount in *. rewrite Hsz, CheckDataSize_eq.
    cbn [bind]. apply (CheckDataSizes_loop_complete n layout type data 0).
    intros k holder Hk. cbn [Nat.add].
    assert (Hlen : (k < length (GetInternalFeatureMetaInfos layout type))%nat).
    { apply size_eq_length in Hsz. rewrite <- Hsz. apply nth_error_Some. congruence. }
    destruct (nth_error (GetInternalFeatureMetaInfos layout type) k) as [meta|] eqn:Hm.
    2:{ apply nth_error_None in Hm. lia. }
    exists meta. split; [reflexivity|]. intros Ha.
    destruct (Hall k meta Hm Ha) as (c & Hc & Hs).
    rewrite Hk in Hc. injection Hc as ->. exists c. auto.
Qed.

Lemma QuantizedObjectsData_Check_iff_lemma
    (d : TQuantizedObjectsData) (objectCount : N) (layout : TFeaturesLayout) :
  QuantizedObjectsData_Check d objectCount layout = Ok tt <->
  QuantizedFeaturesInfo d <> None /\
  forall type, ColumnsFitLayout objectCount layout type (FeaturesOf d type).
Proof.
  unfold QuantizedObjectsData_Check. split.
  - intros H. apply bind_Ok_inv in H. destruct H as ([] & Hi & H).
    apply bind_Ok_inv in H. destruct H as ([] & HF & HC).
    split.
    + destruct (QuantizedFeaturesInfo d); [discriminate | discriminate Hi].
    + intros []; now apply CheckDataSizes_spec.
  - intros [Hi Hall].
    destruct (QuantizedFeaturesInfo d); [|congruence].
    cbn [is_some CB_ENSURE bind].
    pose proof (proj2 (CheckDataSizes_spec _ _ _ _) (Hall Float)) as HF.
    cbn [FeaturesOf] in HF. rewrite HF. cbn [bind].
    exact (proj2 (CheckDataSizes_spec _ _ _ _) (Hall Categorical)).
Qed.

(** X12: [TQuantizedObjectsData::Check] returns exactly when the
    quantization metadata is set and, for each feature type, the store has
    one holder per feature of the layout and a column of [objectCount] rows
    at every available feature.  Holders of unavailable features are not
    looked at. *)
Theorem QuantizedObjectsData_Check_iff
    (d : TQuantizedObjectsData) (objectCount : N) (layout : TFeaturesLayout) :
  QuantizedObjectsData_Check d objectCount layout = Ok tt <->
  QuantizedFeaturesInfo d <> None /\
  forall type, ColumnsFitLayout objectCount layout type (FeaturesOf d type).
Proof. apply QuantizedObjectsData_Check_iff_lemma. Qed.

Lemma CheckDataSizes_feature_outcome (n : N) (type : EFeatureType) (idx : N)
    (meta : TFeatureMetaInfo) (holder : option IColumn) :
  CheckDataSizes_feature n type idx meta holder = Ok tt \/
  exists w, CheckDataSizes_feature n type idx meta holder = Throw w /\
            IsInternalError w = true.
Proof.
  unfold CheckDataSizes_feature. destruct (IsAvailable meta); [|now left].
  destruct holder as [c|]; cbn [is_some CB_ENSURE_INTERNAL CB_ENSURE bind deref].
  - destruct (N.eq_dec (GetSize c) n) as [->|Hne].
    + left. apply CheckDataSize_eq.
    + right. eapply CheckDataSize_internal_mismatch. exact Hne.
  - right. eexists. split; [reflexivity | apply prefix_app].
Qed.

Lemma CheckDataSizes_loop_outcome (n : N) (layout : TFeaturesLayout) (type : EFeatureType)
    (data : list (option IColumn)) (idx : nat) :
  (idx + length data <= length (GetInternalFeatureMetaInfos layout type))%nat ->
  CheckDataSizes_loop n layout type (N.of_nat idx) data = Ok tt \/
  exists w, CheckDataSizes_loop n layout type (N.of_nat idx) data = Throw w /\
            IsInternalError w = true.
Proof.
  revert idx. induction data as [|h rest IH]; intros idx Hlen; [now left|].
  cbn [CheckDataSizes_loop length] in *.
  destruct (nth_error (GetInternalFeatureMetaInfos layout type) idx) as [meta|] eqn:Hm.
  2:{ apply nth_error_None in Hm. lia. }
  rewrite (at_index_nth_error _ _ _ Hm). cbn [bind].
  destruct (CheckDataSizes_feature_outcome n type (N.of_nat idx) meta h)
    as [->|(w & -> & Hw)]; cbn [bind].
  - rewrite N_of_nat_S. apply IH. lia.
  - right. exists w. auto.
Qed.

Lemma CheckDataSizes_outcome (n : N) (layout : TFeaturesLayout) (type : EFeatureType)
    (data : list (option IColumn)) :
  CheckDataSizes n layout type data = Ok tt \/
  exists w, CheckDataSizes n layout type data = Throw w /\ IsInternalError w = true.
Proof.
  unfold CheckDataSizes.
  destruct (N.eq_dec (size data) (GetFeatureCount layout type)) as [He|Hne].
  - rewrite He, CheckDataSize_eq. cbn [bind].
    apply (CheckDataSizes_loop_outcome n layout type data 0).
    apply size_eq_length in He. cbn [Nat.add]. unfold GetFeatureCount in He.
    rewrite He. apply Nat.le_refl.
  - right.
    destruct (CheckDataSize_internal_mismatch (size data) (GetFeatureCount layout type)
                ("ObjectDataProvider's " ++ EFeatureType_ToString type ++ " features")
                ("featureLayout's " ++ EFeatureType_ToString type ++ " features size")
                Hne) as (w & Hw & Hi).
    rewrite Hw. exists w. auto.
Qed.

Lemma QuantizedObjectsData_Check_errors_lemma
    (d : TQuantizedObjectsData) (objectCount : N) (layout : TFeaturesLayout) :
  QuantizedObjectsData_Check d objectCount layout <> Undefined /\
  forall w, QuantizedObjectsData_Check d objectCount layout = Throw w ->
            (IsInternalError w = false <-> QuantizedFeaturesInfo d = None).
Proof.
  unfold QuantizedObjectsData_Check.
  destruct (QuantizedFeaturesInfo d) as [info|]; cbn [is_some CB_ENSURE bind].
  - destruct (CheckDataSizes_outcome objectCount layout Float (FloatFeatures d))
      as [->|(w & -> & Hw)]; cbn [bind].
    + destruct (CheckDataSizes_outcome objectCount layout Categorical (CatFeatures d))
        as [->|(w & -> & Hw)].
      * split; [discriminate|]. intros w [=].
      * split; [discriminate|]. intros w' [= <-]. rewrite Hw. split; discriminate.
    + split; [discriminate|]. intros w' [= <-]. rewrite Hw. split; discriminate.
  - split; [discriminate|]. intros w [= <-]. split; reflexivity.
Qed.

(** X13: [TQuantizedObjectsData::Check] never reads a null holder or
    outside a vector; of what it throws, the missing quantization metadata
    is an input-validation error and every mismatch between the columns and
    the layout an internal-consistency error. *)
Theorem QuantizedObjectsData_Check_errors
    (d : TQuantizedObjectsData) (objectCount : N) (layout : TFeaturesLayout) :
  QuantizedObjectsData_Check d objectCount layout <> Undefined /\
  forall w, QuantizedObjectsData_Check d objectCount layout = Throw w ->
            (IsInternalError w = false <-> QuantizedFeaturesInfo d = None).
Proof. apply QuantizedObjectsData_Check_errors_lemma. Qed.

(* ================================================================== *)
(** ** More on the binary persistence *)
(* ================================================================== *)

(* ------------------------------------------------------------------ *)
(** *** What [Load] builds, whatever the bytes *)

Lemma list_set_length {A : Type} (l : list A) (i : nat) (x : A) :
  length (list_set l i x) = length l.
Proof.
  revert i. induction l as [|y t IH]; intros i; [reflexivity|].
  destruct i; cbn [list_set length]; [reflexivity | now rewrite IH].
Qed.

Lemma nth_error_list_set_eq {A : Type} (l : list A) (i : nat) (x : A) :
  (i < length l)%nat -> nth_error (list_set l i x) i = Some x.
Proof.
  revert i. induction l as [|y t IH]; intros i Hi; cbn [length] in Hi; [lia|].
  destruct i; cbn [list_set nth_error]; [reflexivity | apply IH; lia].
Qed.

Lemma nth_error_list_set_neq {A : Type} (l : list A) (i j : nat) (x : A) :
  i <> j -> nth_error (list_set l i x) j = nth_error l j.
Proof.
  revert i j. induction l as [|y t IH]; intros i j Hij; [reflexivity|].
  destruct i, j; cbn [list_set nth_error]; try reflexivity; try congruence.
  apply IH. congruence.
Qed.

Lemma LoadFeatures_feature_shape (subsetIndexing : TArraySubsetIndexing)
    (meta : TFeatureMetaInfo) (stream rest : list N) (c : IColumn) :
  LoadFeatures_feature subsetIndexing meta stream = Ok (c, rest) ->
  exists bitsPerKey storage,
    c = mkColumn (ExternalFeatureIdx meta)
          (TCompressedValuesHolderImpl
             (mkCompressedArray (Size subsetIndexing) bitsPerKey storage) subsetIndexing).
Proof.
  unfold LoadFeatures_feature. intros H.
  repeat (apply bind_Ok_inv in H; destruct H as (? & _ & H)).
  injection H as <- _. eauto.
Qed.

Lemma LoadFeatures_loop_shape (subsetIndexing : TArraySubsetIndexing)
    (metas : list TFeatureMetaInfo) (idx : nat) (dst dst' : list (option IColumn))
    (stream rest : list N) :
  LoadFeatures_loop subsetIndexing (N.of_nat idx) metas dst stream = Ok (dst', rest) ->
  (idx + length metas <= length dst)%nat ->
  length dst' = length dst /\
  (forall k, (k < idx)%nat -> nth_error dst' k = nth_error dst k) /\
  (forall k meta, nth_error metas k = Some meta ->
     exists holder, nth_error dst' (idx + k) = Some holder /\
       if IsAvailable meta then LoadedShape subsetIndexing meta holder
       else nth_error dst (idx + k) = Some holder).
Proof.
  revert idx dst stream. induction metas as [|meta metas IH]; intros idx dst stream H Hlen.
  - injection H as <- _. repeat split; auto. intros k meta Hk. destruct k; discriminate.
  - cbn [LoadFeatures_loop length] in *.
    destruct (IsAvailable meta) eqn:Ea.
    + apply bind_Ok_inv in H. destruct H as ([c rest0] & Hf & H). cbn [fst snd] in H.
      rewrite N_of_nat_S, Nat2N.id in H.
      apply IH in H; [|rewrite list_set_length; lia].
      rewrite list_set_length in H. destruct H as (HL & Hpre & Hpost).
      split; [exact HL|]. split.
      * intros k Hk. rewrite Hpre by lia. apply nth_error_list_set_neq. lia.
      * intros k meta' Hk. destruct k as [|k].
        -- injection Hk as <-. rewrite Ea, Nat.add_0_r.
           exists (Some c). split.
           ++ rewrite Hpre by lia. apply nth_error_list_set_eq. lia.
           ++ unfold LoadedShape. rewrite Ea.
              destruct (LoadFeatures_feature_shape _ _ _ _ _ Hf) as (b & st & ->).
              now exists b, st.
        -- cbn [nth_error] in Hk. destruct (Hpost k meta' Hk) as (holder & Hh & Hs).
           rewrite Nat.add_succ_r. exists holder. split; [exact Hh|].
           destruct (IsAvailable meta'); [exact Hs|].
           rewrite nth_error_list_set_neq in Hs by lia. exact Hs.
    + rewrite N_of_nat_S in H. apply IH in H; [|lia].
      destruct H as (HL & Hpre & Hpost).
      split; [exact HL|]. split.
      * intros k Hk. apply Hpre. lia.
      * intros k meta' Hk. destruct k as [|k].
        -- injection Hk as <-. rewrite Ea, Nat.add_0_r.
           destruct (nth_error dst idx) as [holder|] eqn:Hd.
           2:{ apply nth_error_None in Hd. lia. }
           exists holder. split; [|reflexivity]. rewrite Hpre by lia. exact Hd.
        -- cbn [nth_error] in Hk. destruct (Hpost k meta' Hk) as (holder & Hh & Hs).
           rewrite Nat.add_succ_r. exists holder. auto.
Qed.

Lemma nth_error_repeat_lt {A : Type} (a : A) (n k : nat) :
  (k < n)%nat -> nth_error (repeat a n) k = Some a.
Proof.
  revert k. induction n as [|n IH]; intros k Hk; [lia|].
  destruct k; cbn [repeat nth_error]; [reflexivity | apply IH; lia].
Qed.

Lemma LoadFeatures_shape (type : EFeatureType) (layout : TFeaturesLayout)
    (subsetIndexing : TArraySubsetIndexing) (stream rest : list N)
    (dst : list (option IColumn)) :
  LoadFeatures type layout subsetIndexing stream = Ok (dst, rest) ->
  size dst = GetFeatureCount layout type /\
  forall idx meta,
    nth_error (GetInternalFeatureMetaInfos layout type) idx = Some meta ->
    exists holder, nth_error dst idx = Some holder /\
                   LoadedShape subsetIndexing meta holder.
Proof.
  unfold LoadFeatures, GetFeatureCount, size. rewrite Nat2N.id. intros H.
  apply (LoadFeatures_loop_shape subsetIndexing _ 0) in H;
    [|rewrite repeat_length; cbn [Nat.add]; apply Nat.le_refl].
  destruct H as (HL & _ & Hpost). rewrite repeat_length in HL. split.
  - now rewrite HL.
  - intros idx meta Hm. destruct (Hpost idx meta Hm) as (holder & Hh & Hs).
    cbn [Nat.add] in *. exists holder. split; [exact Hh|].
    unfold LoadedShape in *. destruct (IsAvailable meta); [exact Hs|].
    rewrite nth_error_repeat_lt in Hs; [congruence|].
    apply nth_error_Some. congruence.
Qed.

Lemma QuantizedObjectsData_Load_inv (subsetIndexing : TArraySubsetIndexing)
    (quantizedFeaturesInfo : option TQuantizedFeaturesInfo) (stream rest : list N)
    (d : TQuantizedObjectsData) :
  QuantizedObjectsData_Load subsetIndexing quantizedFeaturesInfo stream = Ok (d, rest) ->
  exists info,
    quantizedFeaturesInfo = Some info /\
    QuantizedFeaturesInfo d = Some info /\
    forall type,
      size (FeaturesOf d type) = GetFeatureCount (GetFeaturesLayout info) type /\
      forall idx meta,
        nth_error (GetInternalFeatureMetaInfos (GetFeaturesLayout info) type) idx
          = Some meta ->
        exists holder, nth_error (FeaturesOf d type) idx = Some holder /\
                       LoadedShape subsetIndexing meta holder.
Proof.
  unfold QuantizedObjectsData_Load. intros H.
  destruct quantizedFeaturesInfo as [info|]; [|discriminate].
  cbn [deref bind] in H.
  apply bind_Ok_inv in H. destruct H as ([f rf] & HF & H).
  apply bind_Ok_inv in H. destruct H as ([c rc] & HC & H).
  cbn [fst snd] in *. injection H as <- _.
  exists info. repeat split; try reflexivity;
    destruct type; cbn [FeaturesOf FloatFeatures CatFeatures];
    first [ eapply LoadFeatures_shape; eassumption
          | apply (proj2 (LoadFeatures_shape _ _ _ _ _ _ ltac:(eassumption))) ].
Qed.

(** X14: whatever bytes it reads, a store that [Load] returns has the
    given quantization metadata and, for each feature type, one holder per
    feature of the layout: at every available feature a bit-packed column
    that carries the feature's flat index as its id and is seen through the
    subset passed to [Load], at every unavailable feature a null holder. *)
Theorem QuantizedObjectsData_Load_shape (subsetIndexing : TArraySubsetIndexing)
    (quantizedFeaturesInfo : option TQuantizedFeaturesInfo) (stream rest : list N)
    (d : TQuantizedObjectsData) :
  QuantizedObjectsData_Load subsetIndexing quantizedFeaturesInfo stream = Ok (d, rest) ->
  exists info,
    quantizedFeaturesInfo = Some info /\
    QuantizedFeaturesInfo d = Some info /\
    forall type,
      size (FeaturesOf d type) = GetFeatureCount (GetFeaturesLayout info) type /\
      forall idx meta,
        nth_error (GetInternalFeatureMetaInfos (GetFeaturesLayout info) type) idx
          = Some meta ->
        exists holder, nth_error (FeaturesOf d type) idx = Some holder /\
                       LoadedShape subsetIndexing meta holder.
Proof. apply QuantizedObjectsData_Load_inv. Qed.

Lemma QuantizedObjectsData_Load_passes_Check_lemma (subsetIndexing : TArraySubsetIndexing)
    (info : TQuantizedFeaturesInfo) (stream rest : list N) (d : TQuantizedObjectsData) :
  QuantizedObjectsData_Load subsetIndexing (Some info) stream = Ok (d, rest) ->
  QuantizedObjectsData_Check d (Size subsetIndexing) (GetFeaturesLayout info) = Ok tt.
Proof.
  intros H. apply QuantizedObjectsData_Load_inv in H.
  destruct H as (info' & [= <-] & Hi & Hall).
  unfold QuantizedObjectsData_Check. rewrite Hi. cbn [is_some CB_ENSURE bind].
  assert (HF : forall type, ColumnsFitLayout (Size subsetIndexing) (GetFeaturesLayout info)
                              type (FeaturesOf d type)).
  { intros type. destruct (Hall type) as [Hsz Hshape]. split; [exact Hsz|].
    intros idx meta Hm Ha. destruct (Hshape idx meta Hm) as (holder & Hh & Hs).
    unfold LoadedShape in Hs. rewrite Ha in Hs. destruct Hs as (b & st & ->).
    eexists. split; [exact Hh | reflexivity]. }
  pose proof (proj2 (CheckDataSizes_spec _ _ _ _) (HF Float)) as HFl.
  cbn [FeaturesOf] in HFl. rewrite HFl. cbn [bind].
  exact (proj2 (CheckDataSizes_spec _ _ _ _) (HF Categorical)).
Qed.

(** X15: a store that [Load] returns passes [TQuantizedObjectsData::Check]
    for the row count of the subset it was loaded for and the layout of its
    quantization metadata. *)
Theorem QuantizedObjectsData_Load_passes_Check (subsetIndexing : TArraySubsetIndexing)
    (info : TQuantizedFeaturesInfo) (stream rest : list N) (d : TQuantizedObjectsData) :
  QuantizedObjectsData_Load subsetIndexing (Some info) stream = Ok (d, rest) ->
  QuantizedObjectsData_Check d (Size subsetIndexing) (GetFeaturesLayout info) = Ok tt.
Proof. apply QuantizedObjectsData_Load_passes_Check_lemma. Qed.

Lemma QuantizedObjectsData_Load_shape_witness :
  exists info,
    Some one_record_info = Some info /\
    QuantizedFeaturesInfo one_record_store = Some info /\
    forall type,
      size (FeaturesOf one_record_store type)
        = GetFeatureCount (GetFeaturesLayout info) type /\
      forall idx meta,
        nth_error (GetInternalFeatureMetaInfos (GetFeaturesLayout info) type) idx
          = Some meta ->
        exists holder, nth_error (FeaturesOf one_record_store type) idx = Some holder /\
                       LoadedShape (TFullSubset 3) meta holder.
Proof.
  apply (QuantizedObjectsData_Load_shape (TFullSubset 3) (Some one_record_info)
           one_record_stream [] one_record_store).
  reflexivity.
Defined.

Lemma QuantizedObjectsData_Load_passes_Check_witness :
  QuantizedObjectsData_Check one_record_store 3 (GetFeaturesLayout one_record_info) = Ok tt.
Proof.
  apply (QuantizedObjectsData_Load_passes_Check (TFullSubset 3) one_record_info
           one_record_stream [] one_record_store).
  reflexivity.
Defined.

(* ------------------------------------------------------------------ *)
(** *** The bytes [SaveNonSharedPart] writes *)

Lemma SaveFeatures_loop_records (type : EFeatureType) (src : list (option IColumn))
    (metas : list TFeatureMetaInfo) (idx : nat) (out : list N) :
  (forall k meta, nth_error metas k = Some meta -> IsAvailable meta = true ->
     exists c, holder_at src (idx + k) = Some c /\
               size (ExtractValues (ValueBytes type) c) < 2 ^ 32) ->
  SaveFeatures_loop type src (N.of_nat idx) metas out
  = Ok (out ++ FeatureRecords type src idx metas).
Proof.
  revert idx out. induction metas as [|meta rest IH]; intros idx out HS.
  - simpl. now rewrite app_nil_r.
  - cbn [SaveFeatures_loop FeatureRecords]. rewrite N_of_nat_S.
    assert (HT : forall k meta', nth_error rest k = Some meta' ->
                   IsAvailable meta' = true ->
                   exists c, holder_at src (S idx + k) = Some c /\
                             size (ExtractValues (ValueBytes type) c) < 2 ^ 32).
    { intros k meta' Hk Ea. destruct (HS (S k) meta' Hk Ea) as (c & Hc & Hs).
      rewrite Nat.add_succ_r in Hc. eauto. }
    destruct (IsAvailable meta) eqn:Ea.
    + destruct (HS 0%nat meta eq_refl Ea) as (c & Hc & Hsz).
      rewrite Nat.add_0_r in Hc.
      rewrite (at_index_holder src idx c Hc), Hc. cbn [bind].
      rewrite SaveFeatures_feature_FeatureRecord by exact Hsz.
      cbn [bind]. rewrite IH by assumption. now rewrite <- app_assoc.
    + cbn [bind app]. now apply IH.
Qed.

Lemma ColumnsFitLayout_savable (n : N) (layout : TFeaturesLayout) (type : EFeatureType)
    (data : list (option IColumn)) :
  n < 2 ^ 32 ->
  ColumnsFitLayout n layout type data ->
  forall k meta,
    nth_error (GetInternalFeatureMetaInfos layout type) k = Some meta ->
    IsAvailable meta = true ->
    exists c, holder_at data (0 + k) = Some c /\
              size (ExtractValues (ValueBytes type) c) < 2 ^ 32.
Proof.
  intros Hn [_ Hall] k meta Hk Ea. destruct (Hall k meta Hk Ea) as (c & Hc & Hs).
  exists c. cbn [Nat.add]. unfold holder_at. rewrite Hc. split; [reflexivity|].
  now rewrite GetSize_ExtractValues, Hs.
Qed.

Lemma size_le_bytes (n : nat) (v : N) : size (le_bytes n v) = N.of_nat n.
Proof. unfold size. now rewrite le_bytes_length. Qed.

Lemma FeatureRecord_size (type : EFeatureType) (c : IColumn) :
  size (FeatureRecord type c)
  = 16 + RecordWords type (size (ExtractValues (ValueBytes type) c)) * 8.
Proof.
  unfold FeatureRecord. rewrite !size_app, RecordPayload_size.
  rewrite !size_le_bytes. lia.
Qed.

Lemma FeatureRecords_aligned (type : EFeatureType) (src : list (option IColumn))
    (metas : list TFeatureMetaInfo) (idx : nat) :
  size (FeatureRecords type src idx metas) mod 8 = 0.
Proof.
  revert idx. induction metas as [|meta rest IH]; intros idx; [reflexivity|].
  cbn [FeatureRecords]. rewrite size_app, N.Div0.add_mod, IH, N.add_0_r, N.Div0.mod_mod.
  destruct (IsAvailable meta); [|reflexivity].
  destruct (holder_at src idx) as [c|]; [|reflexivity].
  rewrite FeatureRecord_size.
  replace (16 + RecordWords type (size (ExtractValues (ValueBytes type) c)) * 8)
    with ((2 + RecordWords type (size (ExtractValues (ValueBytes type) c))) * 8) by lia.
  apply N.Div0.mod_mul.
Qed.

Lemma SaveNonSharedPart_StoreRecords (d : TQuantizedObjectsData)
    (info : TQuantizedFeaturesInfo) (n : N) (out : list N) :
  QuantizedFeaturesInfo d = Some info ->
  n < 2 ^ 32 ->
  QuantizedObjectsData_Check d n (GetFeaturesLayout info) = Ok tt ->
  SaveNonSharedPart d out = Ok (out ++ StoreRecords (GetFeaturesLayout info) d).
Proof.
  intros Hinfo Hn Hcheck. apply QuantizedObjectsData_Check_iff_lemma in Hcheck.
  destruct Hcheck as [_ Hall].
  unfold SaveNonSharedPart, SaveFeatures, StoreRecords. rewrite Hinfo. cbn [deref bind].
  pose proof (SaveFeatures_loop_records Float (FloatFeatures d) _ 0 out
                (ColumnsFitLayout_savable n _ Float _ Hn (Hall Float))) as HF.
  change (N.of_nat 0) with 0 in HF. cbn [GetInternalFeatureMetaInfos] in *.
  rewrite HF. cbn [bind].
  pose proof (SaveFeatures_loop_records Categorical (CatFeatures d) _ 0
                (out ++ FeatureRecords Float (FloatFeatures d) 0
                          (FloatFeatureMetaInfo (GetFeaturesLayout info)))
                (ColumnsFitLayout_savable n _ Categorical _ Hn (Hall Categorical))) as HC.
  change (N.of_nat 0) with 0 in HC. cbn [GetInternalFeatureMetaInfos] in *.
  rewrite HC. now rewrite <- app_assoc.
Qed.

(** X16: for a store that passes its [Check], [SaveNonSharedPart] appends
    to the stream the records of the available float features in ascending
    index, then those of the available categorical features in ascending
    index, and nothing for unavailable features; what it appends is a whole
    number of 8-byte words. *)
Theorem SaveNonSharedPart_stream (d : TQuantizedObjectsData)
    (info : TQuantizedFeaturesInfo) (n : N) (out : list N) :
  QuantizedFeaturesInfo d = Some info ->
  n < 2 ^ 32 ->
  QuantizedObjectsData_Check d n (GetFeaturesLayout info) = Ok tt ->
  SaveNonSharedPart d out
  = Ok (out ++ FeatureRecords Float (FloatFeatures d) 0
                 (FloatFeatureMetaInfo (GetFeaturesLayout info))
            ++ FeatureRecords Categorical (CatFeatures d) 0
                 (CatFeatureMetaInfo (GetFeaturesLayout info))) /\
  size (FeatureRecords Float (FloatFeatures d) 0
          (FloatFeatureMetaInfo (GetFeaturesLayout info))
        ++ FeatureRecords Categorical (CatFeatures d) 0
             (CatFeatureMetaInfo (GetFeaturesLayout info))) mod 8 = 0.
Proof.
  intros Hinfo Hn Hcheck. split.
  - exact (SaveNonSharedPart_StoreRecords d info n out Hinfo Hn Hcheck).
  - rewrite size_app, N.Div0.add_mod, !FeatureRecords_aligned. reflexivity.
Qed.

Lemma SaveNonSharedPart_stream_witness :
  SaveNonSharedPart sample_data [9]
  = Ok ([9] ++ FeatureRecords Float (FloatFeatures sample_data) 0
                 (FloatFeatureMetaInfo (GetFeaturesLayout sample_info))
            ++ FeatureRecords Categorical (CatFeatures sample_data) 0
                 (CatFeatureMetaInfo (GetFeaturesLayout sample_info))) /\
  size (FeatureRecords Float (FloatFeatures sample_data) 0
          (FloatFeatureMetaInfo (GetFeaturesLayout sample_info))
        ++ FeatureRecords Categorical (CatFeatures sample_data) 0
             (CatFeatureMetaInfo (GetFeaturesLayout sample_info))) mod 8 = 0.
Proof.
  apply (SaveNonSharedPart_stream sample_data sample_info 3 [9]).
  - reflexivity.
  - reflexivity.
  - reflexivity.
Defined.

(* ------------------------------------------------------------------ *)
(** *** Reading back what was written *)

Lemma Load_StoreRecords (d : TQuantizedObjectsData) (info : TQuantizedFeaturesInfo)
    (n : N) (rest : list N) :
  n < 2 ^ 32 ->
  QuantizedObjectsData_Check d n (GetFeaturesLayout info) = Ok tt ->
  IdsMatchLayout (GetFeaturesLayout info) d ->
  QuantizedObjectsData_Load (TFullSubset n) (Some info)
    (StoreRecords (GetFeaturesLayout info) d ++ rest)
  = Ok (ReloadedStore info d, rest).
Proof.
  intros Hn Hcheck Hids.
  unfold QuantizedObjectsData_Check in Hcheck.
  apply bind_Ok_inv in Hcheck. destruct Hcheck as ([] & _ & Hcheck).
  apply bind_Ok_inv in Hcheck. destruct Hcheck as ([] & HF & HC).
  pose proof (CheckDataSizes_Storable n info d Float HF Hids) as SF.
  pose proof (CheckDataSizes_Storable n info d Categorical HC Hids) as SC.
  unfold QuantizedObjectsData_Load, StoreRecords, ReloadedStore. cbn [deref bind].
  rewrite <- app_assoc.
  pose proof (LoadFeatures_ok Float n (GetFeaturesLayout info) (FloatFeatures d)
                (FeatureRecords Categorical (CatFeatures d) 0
                   (CatFeatureMetaInfo (GetFeaturesLayout info)) ++ rest) Hn SF) as HLF.
  pose proof (LoadFeatures_ok Categorical n (GetFeaturesLayout info) (CatFeatures d)
                rest Hn SC) as HLC.
  cbn [GetInternalFeatureMetaInfos] in HLF, HLC.
  rewrite HLF. cbn [bind fst snd]. rewrite HLC. reflexivity.
Qed.

(** X18: what [SaveNonSharedPart] wrote for a store that passes its
    [Check] and whose columns carry the layout's flat feature indices,
    [Load] reads back from the head of any longer stream, building the same
    store whatever follows and leaving what follows untouched. *)
Theorem QuantizedObjectsData_Load_leaves_rest (d : TQuantizedObjectsData)
    (info : TQuantizedFeaturesInfo) (n : N) :
  QuantizedFeaturesInfo d = Some info ->
  n < 2 ^ 32 ->
  QuantizedObjectsData_Check d n (GetFeaturesLayout info) = Ok tt ->
  IdsMatchLayout (GetFeaturesLayout info) d ->
  exists (bytes : list N) (d' : TQuantizedObjectsData),
    SaveNonSharedPart d [] = Ok bytes /\
    forall rest,
      QuantizedObjectsData_Load (TFullSubset n) (Some info) (bytes ++ rest) = Ok (d', rest).
Proof.
  intros Hinfo Hn Hcheck Hids.
  exists (StoreRecords (GetFeaturesLayout info) d), (ReloadedStore info d). split.
  - exact (SaveNonSharedPart_StoreRecords d info n [] Hinfo Hn Hcheck).
  - intros rest. now apply Load_StoreRecords.
Qed.

Lemma QuantizedObjectsData_Load_leaves_rest_witness :
  exists (bytes : list N) (d' : TQuantizedObjectsData),
    SaveNonSharedPart sample_data [] = Ok bytes /\
    forall rest,
      QuantizedObjectsData_Load (TFullSubset 3) (Some sample_info) (bytes ++ rest)
      = Ok (d', rest).
Proof.
  apply (QuantizedObjectsData_Load_leaves_rest sample_data sample_info 3).
  - reflexivity.
  - reflexivity.
  - reflexivity.
  - apply ids_match_IdsMatchLayout; reflexivity.
Defined.

Lemma In_LoadedFeatures (type : EFeatureType) (src : list (option IColumn))
    (metas : list TFeatureMetaInfo) (idx : nat) (c : IColumn) :
  In (Some c) (LoadedFeatures type src idx metas) ->
  exists c0, c = LoadedColumn type c0.
Proof.
  revert idx. induction metas as [|meta rest IH]; intros idx H; [destruct H|].
  cbn [LoadedFeatures] in H. destruct H as [H|H]; [|eapply IH; exact H].
  destruct (IsAvailable meta); [|discriminate].
  destruct (holder_at src idx) as [c0|]; [|discriminate].
  injection H as <-. now exists c0.
Qed.

Lemma ReloadedStore_required (info : TQuantizedFeaturesInfo) (d : TQuantizedObjectsData) :
  QuantizedForCPU_Check (ReloadedStore info d) = Ok tt.
Proof.
  apply QuantizedForCPU_Check_Ok_iff. split; intros c Hc;
    apply In_LoadedFeatures in Hc; destruct Hc as (c0 & ->);
    unfold IsRequiredRepresentation, LoadedColumn; cbn [Values BitsPerKey ValueBytes];
    apply N.eqb_refl.
Qed.

Lemma Save_Load_inv (d d' : TQuantizedObjectsData) (info : TQuantizedFeaturesInfo)
    (n : N) (bytes rest : list N) :
  QuantizedFeaturesInfo d = Some info ->
  n < 2 ^ 32 ->
  QuantizedObjectsData_Check d n (GetFeaturesLayout info) = Ok tt ->
  IdsMatchLayout (GetFeaturesLayout info) d ->
  SaveNonSharedPart d [] = Ok bytes ->
  QuantizedObjectsData_Load (TFullSubset n) (Some info) bytes = Ok (d', rest) ->
  bytes = StoreRecords (GetFeaturesLayout info) d /\ d' = ReloadedStore info d /\ rest = [].
Proof.
  intros Hinfo Hn Hcheck Hids Hs Hl.
  rewrite (SaveNonSharedPart_StoreRecords d info n [] Hinfo Hn Hcheck) in Hs.
  cbn [app] in Hs. injection Hs as <-.
  pose proof (Load_StoreRecords d info n [] Hn Hcheck Hids) as HL.
  rewrite app_nil_r in HL. rewrite HL in Hl. injection Hl as <- <-. auto.
Qed.

(** X19: a store read back from what [SaveNonSharedPart] wrote passes the
    check of [TQuantizedForCPUObjectsDataProvider], whether or not the store
    that was written passes it: every column comes back bit-packed with
    8-bit codes for a float feature and 32-bit codes for a categorical one. *)
Theorem QuantizedObjectsData_reload_passes_cpu_check (d d' : TQuantizedObjectsData)
    (info : TQuantizedFeaturesInfo) (n : N) (bytes rest : list N) :
  QuantizedFeaturesInfo d = Some info ->
  n < 2 ^ 32 ->
  QuantizedObjectsData_Check d n (GetFeaturesLayout info) = Ok tt ->
  IdsMatchLayout (GetFeaturesLayout info) d ->
  SaveNonSharedPart d [] = Ok bytes ->
  QuantizedObjectsData_Load (TFullSubset n) (Some info) bytes = Ok (d', rest) ->
  QuantizedForCPU_Check d' = Ok tt.
Proof.
  intros Hinfo Hn Hcheck Hids Hs Hl.
  destruct (Save_Load_inv d d' info n bytes rest Hinfo Hn Hcheck Hids Hs Hl)
    as (_ & -> & _).
  apply ReloadedStore_required.
Qed.

Lemma QuantizedObjectsData_reload_passes_cpu_check_witness :
  QuantizedForCPU_Check sample_data <> Ok tt /\
  QuantizedForCPU_Check (ReloadedStore sample_info sample_data) = Ok tt.
Proof.
  split; [discriminate|].
  apply (QuantizedObjectsData_reload_passes_cpu_check sample_data
           (ReloadedStore sample_info sample_data) sample_info 3
           (StoreRecords sample_layout sample_data) []).
  - reflexivity.
  - reflexivity.
  - reflexivity.
  - apply ids_match_IdsMatchLayout; reflexivity.
  - reflexivity.
  - reflexivity.
Defined.

Lemma FeatureRecord_LoadedColumn (type : EFeatureType) (c : IColumn) :
  FeatureRecord type (LoadedColumn type c) = FeatureRecord type c.
Proof.
  unfold FeatureRecord. rewrite ExtractValues_LoadedColumn. reflexivity.
Qed.

Lemma holder_at_LoadedFeatures (type : EFeatureType) (src : list (option IColumn))
    (metas : list TFeatureMetaInfo) (k : nat) (meta : TFeatureMetaInfo) :
  nth_error metas k = Some meta ->
  holder_at (LoadedFeatures type src 0 metas) k
  = if IsAvailable meta then option_map (LoadedColumn type) (holder_at src k) else None.
Proof.
  intros Hk. unfold holder_at at 1.
  rewrite (LoadedFeatures_nth type src metas 0 k meta Hk). reflexivity.
Qed.

Lemma FeatureRecords_ext (type : EFeatureType) (src1 src2 : list (option IColumn))
    (metas : list TFeatureMetaInfo) (idx : nat) :
  (forall k meta, nth_error metas k = Some meta -> IsAvailable meta = true ->
     option_map (FeatureRecord type) (holder_at src1 (idx + k))
     = option_map (FeatureRecord type) (holder_at src2 (idx + k))) ->
  FeatureRecords type src1 idx metas = FeatureRecords type src2 idx metas.
Proof.
  revert idx. induction metas as [|meta rest IH]; intros idx H; [reflexivity|].
  cbn [FeatureRecords]. f_equal.
  - destruct (IsAvailable meta) eqn:Ea; [|reflexivity].
    specialize (H 0%nat meta eq_refl Ea). rewrite Nat.add_0_r in H.
    destruct (holder_at src1 idx), (holder_at src2 idx); cbn [option_map] in H;
      congruence.
  - apply IH. intros k meta' Hk Ea. specialize (H (S k) meta' Hk Ea).
    now rewrite Nat.add_succ_r in H.
Qed.

Lemma StoreRecords_ReloadedStore (info : TQuantizedFeaturesInfo)
    (d : TQuantizedObjectsData) :
  StoreRecords (GetFeaturesLayout info) (ReloadedStore info d)
  = StoreRecords (GetFeaturesLayout info) d.
Proof.
  unfold StoreRecords, ReloadedStore. cbn [FloatFeatures CatFeatures].
  f_equal; apply FeatureRecords_ext; intros k meta Hk Ea; cbn [Nat.add];
    rewrite (holder_at_LoadedFeatures _ _ _ k meta Hk), Ea;
    destruct (holder_at _ k); cbn [option_map]; try reflexivity;
    now rewrite FeatureRecord_LoadedColumn.
Qed.

(** X20: writing a store that was read back from what [SaveNonSharedPart]
    wrote gives the very bytes it was read from. *)
Theorem SaveNonSharedPart_of_reloaded (d d' : TQuantizedObjectsData)
    (info : TQuantizedFeaturesInfo) (n : N) (bytes rest : list N) :
  QuantizedFeaturesInfo d = Some info ->
  n < 2 ^ 32 ->
  QuantizedObjectsData_Check d n (GetFeaturesLayout info) = Ok tt ->
  IdsMatchLayout (GetFeaturesLayout info) d ->
  SaveNonSharedPart d [] = Ok bytes ->
  QuantizedObjectsData_Load (TFullSubset n) (Some info) bytes = Ok (d', rest) ->
  SaveNonSharedPart d' [] = Ok bytes.
Proof.
  intros Hinfo Hn Hcheck Hids Hs Hl.
  pose proof (QuantizedObjectsData_Load_passes_Check_lemma _ _ _ _ _ Hl) as Hcheck'.
  destruct (Save_Load_inv d d' info n bytes rest Hinfo Hn Hcheck Hids Hs Hl)
    as (-> & -> & _).
  rewrite (SaveNonSharedPart_StoreRecords (ReloadedStore info d) info n []
             eq_refl Hn Hcheck').
  cbn [app]. now rewrite StoreRecords_ReloadedStore.
Qed.

Lemma SaveNonSharedPart_of_reloaded_witness :
  SaveNonSharedPart (ReloadedStore sample_info sample_data) []
  = Ok (StoreRecords sample_layout sample_data).
Proof.
  apply (SaveNonSharedPart_of_reloaded sample_data
           (ReloadedStore sample_info sample_data) sample_info 3
           (StoreRecords sample_layout sample_data) []).
  - reflexivity.
  - reflexivity.
  - reflexivity.
  - apply ids_match_IdsMatchLayout; reflexivity.
  - reflexivity.
  - reflexivity.
Defined.

(* ================================================================== *)
(** ** The checksum reads decoded values only *)
(* ================================================================== *)

(** X21: two providers with the same features layout whose quantization
    metadata have the same checksum and whose available features decode to
    the same values have the same features checksum, whatever the ids,
    storage classes, bit widths and index subsets of their columns, and
    whatever they hold at unavailable features. *)
Theorem CalcFeaturesCheckSum_values_only
    (UpdateCheckSum : N -> N -> N -> N)
    (p1 p2 : TQuantizedObjectsDataProvider) (info1 info2 : TQuantizedFeaturesInfo)
    (layout : TFeaturesLayout) :
  FeaturesLayout (CommonData (Base p1)) = Some layout ->
  FeaturesLayout (CommonData (Base p2)) = Some layout ->
  QuantizedFeaturesInfo (Data p1) = Some info1 ->
  QuantizedFeaturesInfo (Data p2) = Some info2 ->
  CalcCheckSum info1 = CalcCheckSum info2 ->
  SameDecodedValues layout (Data p1) (Data p2) ->
  CalcFeaturesCheckSum UpdateCheckSum p2 = CalcFeaturesCheckSum UpdateCheckSum p1.
Proof.
  intros HL1 HL2 HI1 HI2 Hsum Hsame.
  unfold CalcFeaturesCheckSum, CalcFeatureValuesCheckSum.
  rewrite HL1, HL2, HI1, HI2. cbn [deref bind]. rewrite Hsum.
  pose proof (checksum_loop_same_values UpdateCheckSum Float
                (FloatFeatures (Data p1)) (FloatFeatures (Data p2))
                (FloatFeatureMetaInfo layout) 0 (CalcCheckSum info2)
                (fun k meta Hk Ea => Hsame Float k meta Hk Ea)) as HF.
  change (N.of_nat 0) with 0 in HF. cbn [GetInternalFeatureMetaInfos]. rewrite HF.
  clear HF.
  destruct (checksum_loop UpdateCheckSum Float (FloatFeatures (Data p1)) 0
              (FloatFeatureMetaInfo layout) (CalcCheckSum info2)) as [checkSum|w|];
    cbn [bind]; try reflexivity.
  exact (checksum_loop_same_values UpdateCheckSum Categorical
           (CatFeatures (Data p1)) (CatFeatures (Data p2))
           (CatFeatureMetaInfo layout) 0 checkSum
           (fun k meta Hk Ea => Hsame Categorical k meta Hk Ea)).
Qed.

Lemma CalcFeaturesCheckSum_values_only_witness :
  CalcFeaturesCheckSum sample_update
    (mkQuantizedObjectsDataProvider (Base sample_provider) sample_data_repacked)
  = CalcFeaturesCheckSum sample_update sample_provider.
Proof.
  apply (CalcFeaturesCheckSum_values_only sample_update sample_provider
           (mkQuantizedObjectsDataProvider (Base sample_provider) sample_data_repacked)
           sample_info sample_info sample_layout);
    try reflexivity.
  intros type idx meta Hk Ea.
  destruct type; cbn in Hk.
  - destruct idx as [|[|[|idx]]]; cbn in Hk.
    + eexists _, _. repeat split; reflexivity.
    + injection Hk as <-. discriminate Ea.
    + eexists _, _. repeat split; reflexivity.
    + destruct idx; discriminate Hk.
  - destruct idx as [|idx]; cbn in Hk.
    + eexists _, _. repeat split; reflexivity.
    + destruct idx; discriminate Hk.
Defined.

(* ================================================================== *)
(** ** A provider built with its checks on is consistent *)
(* ================================================================== *)

Lemma CommonData_Check_set_Order (d : TCommonObjectsData) (o : EObjectsOrder)
    (og : option TObjectsGrouping) :
  CommonData_Check (set_Order d o) og = CommonData_Check d og.
Proof. reflexivity. Qed.

(** X22: a provider built with its checks on, from common data with a
    features layout, passes [TCommonObjectsData::Check] against the
    grouping it keeps, be that grouping the one supplied or the one derived
    from the group identifiers. *)
Theorem TObjectsDataProvider_new_consistent
    (objectsGrouping : option TObjectsGrouping) (commonData : TCommonObjectsData)
    (p : TObjectsDataProvider) :
  Size (SubsetIndexing commonData) < 2 ^ 32 ->
  FeaturesLayout commonData <> None ->
  TObjectsDataProvider_new objectsGrouping commonData false = Ok p ->
  CommonData_Check (CommonData p) (Some (ObjectsGrouping p)) = Ok tt.
Proof.
  intros Hlt HL H. unfold TObjectsDataProvider_new in H.
  apply bind_Ok_inv in H. destruct H as (g & Hg & H).
  apply bind_Ok_inv in H. destruct H as (d' & Hd & H).
  injection H as <-. cbn [CommonData ObjectsGrouping].
  destruct (promote_order_outcome g commonData d' Hd) as (-> & _).
  rewrite CommonData_Check_set_Order.
  unfold provider_grouping in Hg. destruct objectsGrouping as [g0|]; cbn [negb] in Hg.
  - apply bind_Ok_inv in Hg. destruct Hg as ([] & HC & Hg). now injection Hg as <-.
  - apply bind_Ok_inv in Hg. destruct Hg as ([] & HA & Hg).
    unfold CommonData_Check.
    destruct (FeaturesLayout commonData); [|congruence].
    cbn [is_some CB_ENSURE_INTERNAL CB_ENSURE bind].
    destruct (GroupIds commonData) as [l|] eqn:El.
    + destruct (CreateObjectsGroupingFromGroupIds_Ok_inv _ l g Hlt Hg)
        as (x0 & t0 & -> & Hsz & -> & _).
      rewrite GetObjectCount_RunBounds, Hsz, CheckDataSize_eq. cbn [bind].
      rewrite (CheckGroupIds_derived _ _ _ Hlt Hg). cbn [bind]. exact HA.
    + cbn in Hg. injection Hg as <-. cbn [GetObjectCount].
      rewrite CheckDataSize_eq. cbn [bind CheckGroupIds]. exact HA.
Qed.

Lemma TObjectsDataProvider_new_consistent_witness :
  CommonData_Check grouped_data (Some grouped_data_grouping) = Ok tt.
Proof.
  apply (TObjectsDataProvider_new_consistent None grouped_data
           (mkObjectsDataProvider grouped_data_grouping grouped_data)).
  - reflexivity.
  - discriminate.
  - reflexivity.
Defined.

(* ================================================================== *)
(** ** [SetGroupIds] and [SetSubgroupIds] *)
(* ================================================================== *)

Section StringIdsFacts.

Variable CalcGroupIdFor : string -> TGroupId.
Variable CalcSubgroupIdFor : string -> N.

Lemma size_map {A B : Type} (f : A -> B) (l : list A) : size (map f l) = size l.
Proof. unfold size. now rewrite length_map. Qed.

Lemma CheckDataSize_false_outcome (dataSize expectedSize : N)
    (dataName expectedSizeName : string) :
  (forall rest, String.prefix INTERNAL_ERROR_MSG (dataName ++ rest) = false) ->
  (dataSize = expectedSize /\
   CheckDataSize dataSize expectedSize dataName false expectedSizeName false = Ok tt) \/
  (dataSize <> expectedSize /\
   exists w, CheckDataSize dataSize expectedSize dataName false expectedSizeName false
             = Throw w /\ IsInternalError w = false).
Proof.
  intros Hp. unfold CheckDataSize.
  destruct (N.eqb_spec dataSize expectedSize) as [->|Hne]; cbn [orb andb CB_ENSURE].
  - left. auto.
  - right. split; [exact Hne|]. eexists. split; [reflexivity|].
    unfold IsInternalError. change ("" ++ ?x)%string with x. apply Hp.
Qed.

Lemma SetGroupIds_spec (p p' : TObjectsDataProvider) (ids : list string) :
  Provider_GetObjectCount p < 2 ^ 32 ->
  (SetGroupIds CalcGroupIdFor p ids = Ok p' <->
   ids <> [] /\
   size ids = Provider_GetObjectCount p /\
   ~ IdInSeparatedRuns (map CalcGroupIdFor ids) /\
   p' = mkObjectsDataProvider
          (ExplicitGrouping (RunBounds (map CalcGroupIdFor ids)))
          (set_GroupIds (CommonData p) (Some (map CalcGroupIdFor ids)))).
Proof.
  intros Hlt. unfold SetGroupIds. split.
  - intros H. apply bind_Ok_inv in H. destruct H as ([] & Hsz & H).
    apply CheckDataSize_ok in Hsz.
    apply bind_Ok_inv in H. destruct H as (g & Hg & H). injection H as <-.
    destruct (CreateObjectsGroupingFromGroupIds_Ok_inv _ _ g Hlt Hg)
      as (x & t & Hl & _ & -> & ND).
    repeat split; try assumption.
    + intros ->. discriminate Hl.
    + intros Hs. now apply IdInSeparatedRuns_iff in Hs.
  - intros (Hne & Hsz & Hs & ->).
    rewrite Hsz, CheckDataSize_eq. cbn [bind].
    destruct ids as [|s t]; [congruence|]. cbn [map] in *.
    rewrite (CreateObjectsGroupingFromGroupIds_eq _ (CalcGroupIdFor s)
               (map CalcGroupIdFor t) Hlt)
      by (rewrite <- Hsz; unfold size; cbn [length]; now rewrite length_map).
    assert (ND : NoDup (RunIds (CalcGroupIdFor s :: map CalcGroupIdFor t))).
    { destruct (ListDec.NoDup_dec N.eq_dec
                  (RunIds (CalcGroupIdFor s :: map CalcGroupIdFor t))) as [ND|ND]; auto.
      exfalso. apply Hs. now apply IdInSeparatedRuns_iff. }
    apply adjacent_find_Sort in ND. rewrite ND. reflexivity.
Qed.

(** X23: [SetGroupIds] on a provider of [n] objects returns exactly when
    it is given [n] strings, at least one, whose identifiers repeat no value
    in separated runs; the provider then keeps those identifiers and the
    grouping by their runs, so that strings are grouped by identifier, not
    by spelling.  What it throws is an input-validation error. *)
Theorem SetGroupIds_outcome (p : TObjectsDataProvider) (ids : list string) :
  Provider_GetObjectCount p < 2 ^ 32 ->
  (forall p',
     SetGroupIds CalcGroupIdFor p ids = Ok p' <->
     ids <> [] /\
     size ids = Provider_GetObjectCount p /\
     ~ IdInSeparatedRuns (map CalcGroupIdFor ids) /\
     p' = mkObjectsDataProvider
            (ExplicitGrouping (RunBounds (map CalcGroupIdFor ids)))
            (set_GroupIds (CommonData p) (Some (map CalcGroupIdFor ids)))) /\
  (forall w, SetGroupIds CalcGroupIdFor p ids = Throw w -> IsInternalError w = false).
Proof.
  intros Hlt. split.
  - intros p'. now apply SetGroupIds_spec.
  - intros w. unfold SetGroupIds.
    destruct (CheckDataSize_false_outcome (size ids) (Provider_GetObjectCount p)
                "group Ids" "" (fun _ => eq_refl)) as [[Hsz ->]|(Hne & w' & -> & Hw')];
      cbn [bind].
    + destruct ids as [|s t].
      * cbn [map]. unfold CreateObjectsGroupingFromGroupIds.
        destruct (CheckDataSize _ _ _ _ _ _) as [[]|w'|] eqn:E; cbn [bind nth_error];
          try discriminate.
        rewrite <- Hsz in E. discriminate E.
      * cbn [map].
        rewrite (CreateObjectsGroupingFromGroupIds_eq _ (CalcGroupIdFor s)
                   (map CalcGroupIdFor t) Hlt)
          by (rewrite <- Hsz; unfold size; cbn [length]; now rewrite length_map).
        destruct (is_end _); cbn [CB_ENSURE bind]; [discriminate|].
        intros [= <-]. reflexivity.
    + intros [= <-]. exact Hw'.
Qed.

(** X24: on a provider whose common data pass their [Check] against its
    grouping, a [SetGroupIds] that returns leaves a provider of as many
    objects whose common data pass their [Check] against the new grouping. *)
Theorem SetGroupIds_keeps_consistency (p p' : TObjectsDataProvider) (ids : list string) :
  Size (SubsetIndexing (CommonData p)) < 2 ^ 32 ->
  CommonData_Check (CommonData p) (Some (ObjectsGrouping p)) = Ok tt ->
  SetGroupIds CalcGroupIdFor p ids = Ok p' ->
  CommonData_Check (CommonData p') (Some (ObjectsGrouping p')) = Ok tt /\
  Provider_GetObjectCount p' = Provider_GetObjectCount p.
Proof.
  intros Hlt Hold Hset.
  apply (CommonData_Check_spec _ _ Hlt) in Hold.
  destruct Hold as (HL & HG & HI & HA).
  assert (Hlt' : Provider_GetObjectCount p < 2 ^ 32)
    by (unfold Provider_GetObjectCount; now rewrite HG).
  pose proof Hset as Hset'.
  apply (SetGroupIds_spec p p' ids Hlt') in Hset.
  destruct Hset as (Hne & Hsz & Hs & ->).
  cbn [CommonData ObjectsGrouping].
  destruct ids as [|s t]; [congruence|]. cbn [map] in *.
  assert (Hsz' : size (CalcGroupIdFor s :: map CalcGroupIdFor t)
                 = Size (SubsetIndexing (CommonData p))).
  { rewrite <- HG. unfold Provider_GetObjectCount in Hsz. rewrite <- Hsz.
    unfold size. cbn [length]. now rewrite length_map. }
  assert (HO : GetObjectCount
                 (ExplicitGrouping (RunBounds (CalcGroupIdFor s :: map CalcGroupIdFor t)))
               = Size (SubsetIndexing (CommonData p)))
    by (now rewrite GetObjectCount_RunBounds).
  split.
  - apply (proj2 (CommonData_Check_spec (set_GroupIds (CommonData p) _) _ Hlt)).
    cbn [set_GroupIds FeaturesLayout SubsetIndexing GroupIds].
    split; [exact HL|]. split; [exact HO|]. split.
    + intros l [= <-]. split; [discriminate|]. split; [exact Hsz'|].
      split; [|exact Hs].
      intros Hm. apply BoundaryMismatch_iff in Hm.
      rewrite ends_agree_RunBounds in Hm. discriminate.
    + apply CheckAllExceptGroupIds_spec. apply CheckAllExceptGroupIds_spec in HA.
      destruct HA as [HS HT]. cbn [set_GroupIds SubgroupIds GroupIds Timestamp
        SubsetIndexing]. split; [|exact HT].
      intros sub Hsub. destruct (HS sub Hsub) as (g0 & Hg0 & Hsg).
      eexists. split; [reflexivity|].
      destruct (HI g0 Hg0) as (_ & Hz & _). congruence.
  - unfold Provider_GetObjectCount. cbn [ObjectsGrouping]. now rewrite HO, HG.
Qed.

(** X25: [SetSubgroupIds] on a provider of [n] objects returns exactly when
    it is given [n] strings and the provider has group identifiers; it then
    replaces the subgroup identifiers and nothing else, and what it throws
    is an input-validation error.  On a provider whose common data pass
    their [Check] against its grouping, the common data still pass it
    afterwards. *)
Theorem SetSubgroupIds_outcome (p : TObjectsDataProvider) (ids : list string) :
  (forall p',
     SetSubgroupIds CalcSubgroupIdFor p ids = Ok p' <->
     size ids = Provider_GetObjectCount p /\
     GroupIds (CommonData p) <> None /\
     p' = mkObjectsDataProvider (ObjectsGrouping p)
            (set_SubgroupIds (CommonData p) (Some (map CalcSubgroupIdFor ids)))) /\
  (forall w, SetSubgroupIds CalcSubgroupIdFor p ids = Throw w ->
             IsInternalError w = false) /\
  (forall p',
     Size (SubsetIndexing (CommonData p)) < 2 ^ 32 ->
     CommonData_Check (CommonData p) (Some (ObjectsGrouping p)) = Ok tt ->
     SetSubgroupIds CalcSubgroupIdFor p ids = Ok p' ->
     CommonData_Check (CommonData p') (Some (ObjectsGrouping p')) = Ok tt).
Proof.
  assert (Spec : forall p',
     SetSubgroupIds CalcSubgroupIdFor p ids = Ok p' <->
     size ids = Provider_GetObjectCount p /\
     GroupIds (CommonData p) <> None /\
     p' = mkObjectsDataProvider (ObjectsGrouping p)
            (set_SubgroupIds (CommonData p) (Some (map CalcSubgroupIdFor ids)))).
  { intros p'. unfold SetSubgroupIds. split.
    - intros H. apply bind_Ok_inv in H. destruct H as ([] & Hsz & H).
      apply CheckDataSize_ok in Hsz.
      destruct (GroupIds (CommonData p)); cbn [is_some CB_ENSURE bind] in H;
        [|discriminate].
      injection H as <-. repeat split; [exact Hsz | discriminate].
    - intros (Hsz & Hg & ->). rewrite Hsz, CheckDataSize_eq. cbn [bind].
      destruct (GroupIds (CommonData p)); [reflexivity | congruence]. }
  split; [exact Spec|]. split.
  - intros w. unfold SetSubgroupIds.
    destruct (CheckDataSize_false_outcome (size ids) (Provider_GetObjectCount p)
                "subgroup Ids" "" (fun _ => eq_refl)) as [[Hsz ->]|(Hne & w' & -> & Hw')];
      cbn [bind].
    + destruct (GroupIds (CommonData p)); cbn [is_some CB_ENSURE bind];
        [discriminate|]. intros [= <-]. reflexivity.
    + intros [= <-]. exact Hw'.
  - intros p' Hlt Hold Hset. apply Spec in Hset. destruct Hset as (Hsz & Hg & ->).
    cbn [CommonData ObjectsGrouping].
    apply (CommonData_Check_spec _ _ Hlt) in Hold.
    destruct Hold as (HL & HG & HI & HA).
    apply (proj2 (CommonData_Check_spec (set_SubgroupIds (CommonData p) _) _ Hlt)).
    cbn [set_SubgroupIds FeaturesLayout SubsetIndexing GroupIds].
    split; [exact HL|]. split; [exact HG|]. split; [exact HI|].
    apply CheckAllExceptGroupIds_spec. apply CheckAllExceptGroupIds_spec in HA.
    destruct HA as [HS HT].
    cbn [set_SubgroupIds SubgroupIds GroupIds Timestamp SubsetIndexing].
    split; [|exact HT].
    intros sub [= <-]. destruct (GroupIds (CommonData p)) as [g0|] eqn:Eg; [|congruence].
    exists g0. split; [reflexivity|].
    destruct (HI g0 eq_refl) as (_ & Hz & _).
    rewrite size_map, Hsz, Hz. unfold Provider_GetObjectCount. exact HG.
Qed.

End StringIdsFacts.

Lemma SetGroupIds_outcome_witness :
  SetGroupIds sample_id grouped_provider ["aa"; "bb"; "c"; "ddd"; "eee"]
  = Ok (mkObjectsDataProvider
          (ExplicitGrouping [mkBounds 0 2; mkBounds 2 3; mkBounds 3 5])
          (set_GroupIds grouped_data (Some [2; 2; 1; 3; 3]))).
Proof.
  apply (proj1 (SetGroupIds_outcome sample_id grouped_provider
                  ["aa"; "bb"; "c"; "ddd"; "eee"] eq_refl)).
  repeat split; try discriminate.
  intros H. apply IdInSeparatedRuns_iff in H. apply H.
  change (RunIds (map sample_id ["aa"; "bb"; "c"; "ddd"; "eee"])) with [2; 1; 3].
  repeat constructor; simpl; intuition discriminate.
Defined.

Lemma SetGroupIds_keeps_consistency_witness :
  CommonData_Check (set_GroupIds grouped_data (Some [2; 2; 1; 3; 3]))
    (Some (ExplicitGrouping [mkBounds 0 2; mkBounds 2 3; mkBounds 3 5])) = Ok tt /\
  Provider_GetObjectCount
    (mkObjectsDataProvider
       (ExplicitGrouping [mkBounds 0 2; mkBounds 2 3; mkBounds 3 5])
       (set_GroupIds grouped_data (Some [2; 2; 1; 3; 3])))
  = Provider_GetObjectCount grouped_provider.
Proof.
  apply (SetGroupIds_keeps_consistency sample_id grouped_provider
           (mkObjectsDataProvider
              (ExplicitGrouping [mkBounds 0 2; mkBounds 2 3; mkBounds 3 5])
              (set_GroupIds grouped_data (Some [2; 2; 1; 3; 3])))
           ["aa"; "bb"; "c"; "ddd"; "eee"]).
  - reflexivity.
  - reflexivity.
  - reflexivity.
Defined.

Lemma SetSubgroupIds_outcome_witness :
  SetSubgroupIds sample_id grouped_provider ["a"; "bb"; "a"; "a"; "bb"]
  = Ok (mkObjectsDataProvider grouped_data_grouping
          (set_SubgroupIds grouped_data (Some [1; 2; 1; 1; 2]))) /\
  CommonData_Check (set_SubgroupIds grouped_data (Some [1; 2; 1; 1; 2]))
    (Some grouped_data_grouping) = Ok tt.
Proof.
  pose proof (SetSubgroupIds_outcome sample_id grouped_provider
                ["a"; "bb"; "a"; "a"; "bb"]) as (Hspec & _ & Hkeep).
  split.
  - apply Hspec. repeat split; discriminate.
  - apply (Hkeep (mkObjectsDataProvider grouped_data_grouping
                    (set_SubgroupIds grouped_data (Some [1; 2; 1; 1; 2])))).
    + reflexivity.
    + reflexivity.
    + reflexivity.
Defined.

(* ================================================================== *)
(** ** Preparing and subsetting the quantized column store *)
(* ================================================================== *)

Lemma size_repeat {A : Type} (a : A) (n : N) : size (repeat a (N.to_nat n)) = n.
Proof. unfold size. now rewrite repeat_length, N2Nat.id. Qed.

Lemma nth_error_repeat_None {A : Type} (n idx : nat) (c : A) :
  nth_error (repeat (@None A) n) idx <> Some (Some c).
Proof.
  revert idx. induction n as [|n IH]; intros idx; destruct idx; cbn; try discriminate.
  apply IH.
Qed.

Lemma ColumnsFitLayout_nulls (n : N) (layout : TFeaturesLayout) (type : EFeatureType) :
  ColumnsFitLayout n layout type
    (repeat None (N.to_nat (GetFeatureCount layout type))) <->
  forall meta, In meta (GetInternalFeatureMetaInfos layout type) -> IsAvailable meta = false.
Proof.
  unfold ColumnsFitLayout. split.
  - intros [_ H] meta Hin. apply In_nth_error in Hin. destruct Hin as [idx Hidx].
    destruct (IsAvailable meta) eqn:Ea; [|reflexivity].
    destruct (H idx meta Hidx Ea) as (c & Hc & _).
    now apply nth_error_repeat_None in Hc.
  - intros H. split; [apply size_repeat|].
    intros idx meta Hidx Ea. apply nth_error_In in Hidx. rewrite (H meta Hidx) in Ea.
    discriminate.
Qed.

Section QuantizedStoreFacts.

Variable TBinarizationOptions : Type.
Variable MakeQuantizedFeaturesInfo :
  TFeaturesLayout -> TBinarizationOptions -> TQuantizedFeaturesInfo.

(** X26: a store that has just been prepared for a layout keeps the
    quantization metadata it had, if any, and holds no column: it passes
    [Check] for that layout, at any row count, exactly when no feature of
    the layout is available, and is refused with an internal-consistency
    error otherwise. *)
Theorem QuantizedObjectsData_PrepareForInitialization_then_Check
    (d d' : TQuantizedObjectsData) (layout : TFeaturesLayout)
    (binarizationOptions : TBinarizationOptions) (objectCount : N) :
  GetFeatureCount layout Categorical < 2 ^ 32 ->
  QuantizedObjectsData_PrepareForInitialization TBinarizationOptions
    MakeQuantizedFeaturesInfo d (mkDataMetaInfo (Some layout)) binarizationOptions
    = Ok d' ->
  (forall info, QuantizedFeaturesInfo d = Some info ->
                QuantizedFeaturesInfo d' = Some info) /\
  (QuantizedObjectsData_Check d' objectCount layout = Ok tt <->
   NoFeatureAvailable layout) /\
  (~ NoFeatureAvailable layout ->
   exists w, QuantizedObjectsData_Check d' objectCount layout = Throw w /\
             IsInternalError w = true).
Proof.
  intros Hlt H. unfold QuantizedObjectsData_PrepareForInitialization in H.
  cbn [MetaFeaturesLayout deref bind] in H. rewrite (ui32_small _ Hlt) in H.
  injection H as <-.
  assert (Hiff : QuantizedObjectsData_Check
                   {| FloatFeatures := repeat None (N.to_nat (GetFeatureCount layout Float));
                      CatFeatures := repeat None
                                       (N.to_nat (GetFeatureCount layout Categorical));
                      QuantizedFeaturesInfo :=
                        match QuantizedFeaturesInfo d with
                        | Some info => Some info
                        | None => Some (MakeQuantizedFeaturesInfo layout
                                                                  binarizationOptions)
                        end |} objectCount layout = Ok tt <->
                 NoFeatureAvailable layout).
  { rewrite QuantizedObjectsData_Check_iff_lemma. cbn [QuantizedFeaturesInfo FeaturesOf].
    split.
    - intros [_ Hall] type. specialize (Hall type).
      destruct type; cbn [FeaturesOf FloatFeatures CatFeatures] in Hall;
        exact (proj1 (ColumnsFitLayout_nulls _ _ _) Hall).
    - intros Hno. split; [destruct (QuantizedFeaturesInfo d); discriminate|].
      intros type. specialize (Hno type).
      destruct type; cbn [FeaturesOf FloatFeatures CatFeatures];
        exact (proj2 (ColumnsFitLayout_nulls _ _ _) Hno). }
  split; [|split].
  - intros info Hi. cbn [QuantizedFeaturesInfo]. now rewrite Hi.
  - exact Hiff.
  - intros Hno.
    match goal with
    | |- exists w, ?chk = Throw w /\ _ =>
        pose proof (QuantizedObjectsData_Check_errors_lemma
                      {| FloatFeatures := repeat None
                                            (N.to_nat (GetFeatureCount layout Float));
                         CatFeatures := repeat None
                                          (N.to_nat (GetFeatureCount layout Categorical));
                         QuantizedFeaturesInfo :=
                           match QuantizedFeaturesInfo d with
                           | Some info => Some info
                           | None => Some (MakeQuantizedFeaturesInfo layout
                                                                     binarizationOptions)
                           end |} objectCount layout) as [Hdef Herr];
        destruct chk as [[]|w|] eqn:E
    end.
    + exfalso. apply Hno. now apply Hiff.
    + exists w. split; [reflexivity|].
      specialize (Herr w eq_refl). cbn [QuantizedFeaturesInfo] in Herr.
      destruct (IsInternalError w); [reflexivity|].
      destruct Herr as [Herr _]. specialize (Herr eq_refl).
      destruct (QuantizedFeaturesInfo d); discriminate.
    + congruence.
Qed.

Variable CloneWithNewSubsetIndexing : IColumn -> TArraySubsetIndexing -> IColumn.

Lemma nth_error_CreateSubsetFeatures (src : list (option IColumn))
    (s : TArraySubsetIndexing) (idx : nat) :
  nth_error (CreateSubsetFeatures CloneWithNewSubsetIndexing src s) idx
  = option_map (option_map (fun c => CloneWithNewSubsetIndexing c s)) (nth_error src idx).
Proof.
  unfold CreateSubsetFeatures. rewrite nth_error_map.
  destruct (nth_error src idx) as [[c|]|]; reflexivity.
Qed.

(** X27: the subset of a store has the same quantization metadata, one
    holder per holder and a null holder exactly where the store has one;
    where every clone has the size of the subset it is given, the subset of
    a store that passes [Check] passes [Check] for the size of the subset. *)
Theorem QuantizedObjectsData_GetSubset_passes_Check
    (d : TQuantizedObjectsData) (subsetComposition : TArraySubsetIndexing)
    (objectCount : N) (layout : TFeaturesLayout) :
  let d' := QuantizedObjectsData_GetSubset CloneWithNewSubsetIndexing d
              subsetComposition in
  QuantizedFeaturesInfo d' = QuantizedFeaturesInfo d /\
  (forall type, map is_some (FeaturesOf d' type) = map is_some (FeaturesOf d type)) /\
  ((forall c, GetSize (CloneWithNewSubsetIndexing c subsetComposition)
              = Size subsetComposition) ->
   QuantizedObjectsData_Check d objectCount layout = Ok tt ->
   QuantizedObjectsData_Check d' (Size subsetComposition) layout = Ok tt).
Proof.
  cbv zeta. split; [reflexivity|]. split.
  - intros type.
    destruct type; cbn [FeaturesOf QuantizedObjectsData_GetSubset FloatFeatures CatFeatures];
      unfold CreateSubsetFeatures; rewrite map_map; apply map_ext; intros [c|]; reflexivity.
  - intros Hsize Hcheck.
    apply QuantizedObjectsData_Check_iff_lemma in Hcheck. destruct Hcheck as [Hi Hall].
    apply QuantizedObjectsData_Check_iff_lemma. split; [exact Hi|].
    intros type. destruct (Hall type) as [Hsz Hcols].
    assert (E : FeaturesOf (QuantizedObjectsData_GetSubset CloneWithNewSubsetIndexing d
                              subsetComposition) type
                = CreateSubsetFeatures CloneWithNewSubsetIndexing (FeaturesOf d type)
                    subsetComposition) by (destruct type; reflexivity).
    rewrite E. split.
    + rewrite <- Hsz. unfold CreateSubsetFeatures, size. now rewrite length_map.
    + intros idx meta Hm Ea. destruct (Hcols idx meta Hm Ea) as (c & Hc & _).
      exists (CloneWithNewSubsetIndexing c subsetComposition).
      rewrite nth_error_CreateSubsetFeatures, Hc. split; [reflexivity | apply Hsize].
Qed.

End QuantizedStoreFacts.

Lemma QuantizedObjectsData_PrepareForInitialization_then_Check_witness :
  let d' := mkQuantizedObjectsData [None] [] (Some sample_info) in
  (forall info, QuantizedFeaturesInfo sample_data = Some info ->
                QuantizedFeaturesInfo d' = Some info) /\
  (QuantizedObjectsData_Check d' 3 unavailable_only_layout = Ok tt <->
   NoFeatureAvailable unavailable_only_layout) /\
  (~ NoFeatureAvailable unavailable_only_layout ->
   exists w, QuantizedObjectsData_Check d' 3 unavailable_only_layout = Throw w /\
             IsInternalError w = true).
Proof.
  apply (QuantizedObjectsData_PrepareForInitialization_then_Check unit
           (fun layout _ => mkQuantizedFeaturesInfo layout 0)
           sample_data (mkQuantizedObjectsData [None] [] (Some sample_info))
           unavailable_only_layout tt 3).
  - reflexivity.
  - reflexivity.
Defined.

Lemma GetSize_CloneCompressed (c : IColumn) (s : TArraySubsetIndexing) :
  GetSize (CloneCompressed c s) = Size s.
Proof.
  unfold CloneCompressed, GetSize. destruct (Values c) as [a s0|vs]; cbn [Values].
  - reflexivity.
  - unfold size. rewrite length_map. destruct s as [n|ix]; cbn [SubsetIndices Size].
    + apply size_xrange_0.
    + reflexivity.
Qed.

Lemma QuantizedObjectsData_GetSubset_passes_Check_witness :
  QuantizedObjectsData_Check
    (QuantizedObjectsData_GetSubset CloneCompressed sample_data (TIndexedSubset [2; 0]))
    2 sample_layout = Ok tt.
Proof.
  apply (proj2 (proj2 (QuantizedObjectsData_GetSubset_passes_Check CloneCompressed
                         sample_data (TIndexedSubset [2; 0]) 3 sample_layout))).
  - intros c. apply GetSize_CloneCompressed.
  - reflexivity.
Defined.

(* ================================================================== *)
(** ** Subsetting raw columns *)
(* ================================================================== *)

Section CheckDataSizesTemplateFacts.

Context {TFeaturesColumn : Type}.
Variable GetSizeOf : TFeaturesColumn -> N.

Lemma CheckDataSizesT_loop_sound (n : N) (layout : TFeaturesLayout) (type : EFeatureType)
    (data : list (option TFeaturesColumn)) (idx : nat) :
  CheckDataSizesT_loop GetSizeOf n layout type (N.of_nat idx) data = Ok tt ->
  forall (k : nat) (holder : option TFeaturesColumn),
    nth_error data k = Some holder ->
    exists meta,
      nth_error (GetInternalFeatureMetaInfos layout type) (idx + k) = Some meta /\
      (IsAvailable meta = true -> exists c, holder = Some c /\ GetSizeOf c = n).
Proof.
  revert idx. induction data as [|h rest IH]; intros idx H k holder Hk.
  - destruct k; discriminate.
  - cbn [CheckDataSizesT_loop] in H.
    apply bind_Ok_inv in H. destruct H as (meta & Hm & H).
    apply bind_Ok_inv in H. destruct H as ([] & Hf & H).
    unfold at_index in Hm. rewrite Nat2N.id in Hm.
    destruct (nth_error (GetInternalFeatureMetaInfos layout type) idx) as [meta'|] eqn:En;
      [|discriminate]. injection Hm as ->.
    destruct k as [|k].
    + injection Hk as <-. exists meta. rewrite Nat.add_0_r. split; [exact En|].
      intros Ea. unfold CheckDataSizesT_feature in Hf. rewrite Ea in Hf.
      destruct h as [c|]; [|discriminate].
      cbn [is_some CB_ENSURE_INTERNAL CB_ENSURE bind deref] in Hf.
      apply CheckDataSize_ok in Hf. exists c. auto.
    + rewrite N_of_nat_S in H. rewrite Nat.add_succ_r.
      exact (IH (S idx) H k holder Hk).
Qed.

Lemma CheckDataSizesT_loop_complete (n : N) (layout : TFeaturesLayout)
    (type : EFeatureType) (data : list (option TFeaturesColumn)) (idx : nat) :
  (forall (k : nat) (holder : option TFeaturesColumn),
      nth_error data k = Some holder ->
      exists meta,
        nth_error (GetInternalFeatureMetaInfos layout type) (idx + k) = Some meta /\
        (IsAvailable meta = true -> exists c, holder = Some c /\ GetSizeOf c = n)) ->
  CheckDataSizesT_loop GetSizeOf n layout type (N.of_nat idx) data = Ok tt.
Proof.
  revert idx. induction data as [|h rest IH]; intros idx H; [reflexivity|].
  cbn [CheckDataSizesT_loop].
  destruct (H 0%nat h eq_refl) as (meta & Hm & Ha). rewrite Nat.add_0_r in Hm.
  rewrite (at_index_nth_error _ _ _ Hm). cbn [bind].
  assert (HF : CheckDataSizesT_feature GetSizeOf n type (N.of_nat idx) meta h = Ok tt).
  { unfold CheckDataSizesT_feature. destruct (IsAvailable meta); [|reflexivity].
    destruct (Ha eq_refl) as (c & -> & Hc).
    cbn [is_some CB_ENSURE_INTERNAL CB_ENSURE bind deref].
    rewrite Hc. apply CheckDataSize_eq. }
  rewrite HF. cbn [bind]. rewrite N_of_nat_S. apply IH.
  intros k holder Hk. specialize (H (S k) holder Hk).
  now rewrite Nat.add_succ_r in H.
Qed.

Lemma CheckDataSizesT_spec (n : N) (layout : TFeaturesLayout) (type : EFeatureType)
    (data : list (option TFeaturesColumn)) :
  CheckDataSizesT GetSizeOf n layout type data = Ok tt <->
  ColumnsFitLayoutT GetSizeOf n layout type data.
Proof.
  unfold CheckDataSizesT, ColumnsFitLayoutT. split.
  - intros H. apply bind_Ok_inv in H. destruct H as ([] & Hsz & Hloop).
    apply CheckDataSize_ok in Hsz. split; [exact Hsz|].
    intros idx meta Hm Ha.
    assert (Hlen : (idx < length data)%nat).
    { apply size_eq_length in Hsz. rewrite Hsz. apply nth_error_Some. congruence. }
    destruct (nth_error data idx) as [holder|] eqn:Hh.
    2:{ apply nth_error_None in Hh. lia. }
    destruct (CheckDataSizesT_loop_sound n layout type data 0 Hloop idx holder Hh)
      as (meta' & Hm' & Hc).
    cbn [Nat.add] in Hm'. rewrite Hm in Hm'. injection Hm' as <-.
    destruct (Hc Ha) as (c & -> & Hs). exists c. auto.
  - intros [Hsz Hall]. unfold GetFeatureCount in *. rewrite Hsz, CheckDataSize_eq.
    cbn [bind]. apply (CheckDataSizesT_loop_complete n layout type data 0).
    intros k holder Hk. cbn [Nat.add].
    assert (Hlen : (k < length (GetInternalFeatureMetaInfos layout type))%nat).
    { apply size_eq_length in Hsz. rewrite <- Hsz. apply nth_error_Some. congruence. }
    destruct (nth_error (GetInternalFeatureMetaInfos layout type) k) as [meta|] eqn:Hm.
    2:{ apply nth_error_None in Hm. lia. }
    exists meta. split; [reflexivity|]. intros Ha.
    destruct (Hall k meta Hm Ha) as (c & Hc & Hs).
    rewrite Hk in Hc. injection Hc as ->. exists c. auto.
Qed.

End CheckDataSizesTemplateFacts.

(** The check of the quantized columns is the template at the class of
    quantized columns. *)
Lemma CheckDataSizes_template (n : N) (layout : TFeaturesLayout) (type : EFeatureType)
    (data : list (option IColumn)) :
  CheckDataSizes n layout type data = CheckDataSizesT GetSize n layout type data.
Proof. reflexivity. Qed.

Lemma nth_error_CreateSubsetFeatures_raw (src : list (option TArrayValuesHolder))
    (s : TArraySubsetIndexing) (idx : nat) :
  nth_error (CreateSubsetFeatures_raw src s) idx
  = option_map (option_map (fun c => mkArrayValuesHolder (RawGetId c) (RawSrcData c) s))
               (nth_error src idx).
Proof.
  unfold CreateSubsetFeatures_raw. rewrite nth_error_map.
  destruct (nth_error src idx) as [[c|]|]; reflexivity.
Qed.

(** X28: subsetting raw columns keeps, position by position, the null
    holders, the feature ids and the backing arrays, and gives every column
    the new index subset in place of the one it had: subsetting twice is
    subsetting by the second subset alone, and columns that pass the size
    check of [CheckDataSizes] pass it afterwards for the size of the subset. *)
Theorem CreateSubsetFeatures_raw_replaces_view
    (src : list (option TArrayValuesHolder)) (s1 s2 : TArraySubsetIndexing)
    (objectCount : N) (layout : TFeaturesLayout) (type : EFeatureType) :
  (forall idx,
     nth_error (CreateSubsetFeatures_raw src s2) idx
     = option_map (option_map (fun c => mkArrayValuesHolder (RawGetId c) (RawSrcData c) s2))
                  (nth_error src idx)) /\
  CreateSubsetFeatures_raw (CreateSubsetFeatures_raw src s1) s2
  = CreateSubsetFeatures_raw src s2 /\
  (CheckDataSizesT RawGetSize objectCount layout type src = Ok tt ->
   CheckDataSizesT RawGetSize (Size s2) layout type (CreateSubsetFeatures_raw src s2)
   = Ok tt).
Proof.
  split; [|split].
  - intros idx. apply nth_error_CreateSubsetFeatures_raw.
  - unfold CreateSubsetFeatures_raw. rewrite map_map. apply map_ext.
    intros [c|]; reflexivity.
  - intros H. apply CheckDataSizesT_spec in H. apply CheckDataSizesT_spec.
    destruct H as [Hsz Hcols]. split.
    + rewrite <- Hsz. unfold CreateSubsetFeatures_raw, size. now rewrite length_map.
    + intros idx meta Hm Ea. destruct (Hcols idx meta Hm Ea) as (c & Hc & _).
      exists (mkArrayValuesHolder (RawGetId c) (RawSrcData c) s2).
      rewrite nth_error_CreateSubsetFeatures_raw, Hc. split; reflexivity.
Qed.

Lemma CreateSubsetFeatures_raw_replaces_view_witness :
  CheckDataSizesT RawGetSize 1 raw_layout Categorical
    (CreateSubsetFeatures_raw (RawCatFeatures raw_data) (TIndexedSubset [2])) = Ok tt.
Proof.
  apply (proj2 (proj2 (CreateSubsetFeatures_raw_replaces_view (RawCatFeatures raw_data)
                         (TFullSubset 0) (TIndexedSubset [2]) 2 raw_layout Categorical))).
  reflexivity.
Defined.

(* ================================================================== *)
(** ** [TRawObjectsData::Check] *)
(* ================================================================== *)


Lemma nth_error_at_index {A : Type} (v : list A) (i : N) (a : A) :
  at_index v i = Ok a <-> nth_error v (N.to_nat i) = Some a.
Proof.
  unfold at_index. destruct (nth_error v (N.to_nat i)); cbn [deref]; split;
    intros H; try discriminate; congruence.
Qed.


Section RawCheckFacts.

Variable Hex : N -> string.
Variable BadCastWhat : string.






End RawCheckFacts.



(* ================================================================== *)
(** ** A column that is missing where the layout has an available feature *)
(* ================================================================== *)

Lemma SaveFeatures_loop_app (type : EFeatureType) (src : list (option IColumn))
    (pre post : list TFeatureMetaInfo) (idx : N) (out : list N) :
  SaveFeatures_loop type src idx (pre ++ post) out
  = out' <- SaveFeatures_loop type src idx pre out ;;
    SaveFeatures_loop type src (idx + size pre) post out'.
Proof.
  revert idx out. induction pre as [|meta pre IH]; intros idx out.
  - cbn [app SaveFeatures_loop bind]. change (size []) with 0. now rewrite N.add_0_r.
  - cbn [app SaveFeatures_loop].
    destruct (if IsAvailable meta
              then holder <- at_index src idx ;; SaveFeatures_feature type holder out
              else Ok out) as [out1|w|]; cbn [bind]; try reflexivity.
    rewrite IH. rewrite size_cons.
    replace (idx + 1 + size pre) with (idx + (1 + size pre)) by lia. reflexivity.
Qed.

Lemma at_index_missing (data : list (option IColumn)) (idx : nat) :
  holder_at data idx = None ->
  at_index data (N.of_nat idx) = Undefined \/ at_index data (N.of_nat idx) = Ok None.
Proof.
  unfold holder_at, at_index. rewrite Nat2N.id.
  destruct (nth_error data idx) as [[c|]|]; cbn [deref]; intros H;
    [discriminate | now right | now left].
Qed.

(** X17: neither the checksum nor the writer tests for a missing column.
    Where the layout has an available feature and the store a null holder,
    or no holder at all, [CalcFeatureValuesCheckSum] and [SaveFeatures]
    dereference it once the features before it are done: nothing is
    defined from there on, and no exception is thrown. *)
Theorem CalcFeatureValuesCheckSum_missing_column
    (UpdateCheckSum : N -> N -> N -> N) (type : EFeatureType) (layout : TFeaturesLayout)
    (data : list (option IColumn)) (pre post : list TFeatureMetaInfo)
    (meta : TFeatureMetaInfo) (init before : N) (out out' : list N) :
  GetInternalFeatureMetaInfos layout type = pre ++ meta :: post ->
  IsAvailable meta = true ->
  holder_at data (length pre) = None ->
  (checksum_loop UpdateCheckSum type data 0 pre init = Ok before ->
   CalcFeatureValuesCheckSum UpdateCheckSum type init layout data = Undefined) /\
  (SaveFeatures_loop type data 0 pre out = Ok out' ->
   SaveFeatures type layout data out = Undefined).
Proof.
  intros Hm Ea Hh. apply at_index_missing in Hh.
  change (N.of_nat (length pre)) with (size pre) in Hh. split.
  - intros Hpre. unfold CalcFeatureValuesCheckSum.
    rewrite Hm, checksum_loop_app, Hpre. cbn [bind checksum_loop].
    unfold checksum_feature. rewrite Ea, N.add_0_l.
    destruct Hh as [-> | ->]; reflexivity.
  - intros Hpre. unfold SaveFeatures.
    rewrite Hm, SaveFeatures_loop_app, Hpre. cbn [bind SaveFeatures_loop].
    rewrite Ea, N.add_0_l.
    destruct Hh as [-> | ->]; reflexivity.
Qed.

Lemma CalcFeatureValuesCheckSum_missing_column_witness :
  CalcFeatureValuesCheckSum sample_update Float 0 one_float_layout
    (FloatFeatures missing_column_data) = Undefined /\
  SaveFeatures Float one_float_layout (FloatFeatures missing_column_data) [] = Undefined.
Proof.
  destruct (CalcFeatureValuesCheckSum_missing_column sample_update Float one_float_layout
              (FloatFeatures missing_column_data) [] [] (mkFeatureMetaInfo true 0)
              0 0 [] [] eq_refl eq_refl eq_refl) as [HC HS].
  split; [apply HC | apply HS]; reflexivity.
Defined.
